(** * angular-locker: the Locker engine as a shallow embedding

    Source: [src/angular-locker.js].  The Locker class is embedded as
    state-passing functions: a method is a computation in the monad [M]
    over the instance it is called on ([this]) and the world, and an
    exception is the [Err] outcome.

    - The world holds the two browser storages, the events emitted on
      [$rootScope], the scopes with their subscriptions, the slot
      objects [{ value : ... }] of the crypto keys (a heap, addressed
      by index, so that two instances never share a slot by accident of
      the model) and the defaults of the provider.
    - A storage is the finite map of its entries, with the exception
      its [setItem] raises when it raises one (a full or disabled
      storage).  Its entries are its own properties, except those whose
      key is the name of a member it inherits ([length], [getItem],
      [toString], ...): [getItem] returns such an entry, but property
      access, [hasOwnProperty] and enumeration see the inherited member.
    - [angular.forEach] is the one of AngularJS 1.5 and later: an object
      with a number [length] that has the property [length - 1] is
      visited as an array, by index.
    - [angular.toJson], [JSON.parse] and [window.sjcl] are capabilities
      of the host, a parameter of the engine; [Json.host] is a concrete
      one for the examples.  The cipher is a function of key and text.
    - A watched expression is a property name of the scope, resolved
      along the scope's prototype chain (its own properties, those of
      its ancestors, the members of [Object.prototype]); the digest
      cycle that calls the listeners is outside the engine. *)

From Stdlib Require Import ZArith Ascii String.
From stdpp Require Import gmap strings list pretty.

Open Scope string_scope.
Open Scope Z_scope.

#[local] Set Warnings "-register-all".

(** ** JavaScript values *)

(** Numbers: the integers and NaN.  Fractions and the infinities do not
    occur in the modelled fragment. *)
Inductive number : Type :=
| NaN
| Int (z : Z).

(** First-order values: what a storage entry can decode to, and what a
    caller passes as plain data.  An object is the ordered list of its
    own enumerable properties. *)
Inductive data : Type :=
| Undefined
| Null
| Bool (b : bool)
| Num (n : number)
| Str (s : string)
| Arr (l : list data)
| Obj (l : list (string * data)).

(** An argument is plain data or a function of one parameter. *)
Inductive value : Type :=
| Val (d : data)
| Fun (f : data -> data).

(** [!!x] *)
Definition truthy (d : data) : bool :=
  match d with
  | Undefined | Null => false
  | Bool b => b
  | Num NaN => false
  | Num (Int z) => negb (z =? 0)
  | Str s => negb (String.eqb s "")
  | Arr _ | Obj _ => true
  end.

Definition truthy_value (v : value) : bool :=
  match v with
  | Val d => truthy d
  | Fun _ => true
  end.

(** [angular.isObject]: [value !== null && typeof value === 'object'] *)
Definition isObject (d : data) : bool :=
  match d with
  | Arr _ | Obj _ => true
  | _ => false
  end.

Definition isArray (d : data) : bool :=
  match d with
  | Arr _ => true
  | _ => false
  end.

Definition isString (d : data) : bool :=
  match d with
  | Str _ => true
  | _ => false
  end.

Definition isUndefined (d : data) : bool :=
  match d with
  | Undefined => true
  | _ => false
  end.

Definition isDefined (d : data) : bool := negb (isUndefined d).

Definition isDefined_value (v : value) : bool :=
  match v with
  | Val d => isDefined d
  | Fun _ => true
  end.

(** [Array.prototype.join] on strings *)
Fixpoint join (sep : string) (l : list string) : string :=
  match l with
  | [] => ""
  | [s] => s
  | s :: l' => s ++ sep ++ join sep l'
  end.

(** The string a value is coerced to when it is concatenated to a string
    or used as a property name. *)
Fixpoint ToString (d : data) : string :=
  match d with
  | Undefined => "undefined"
  | Null => "null"
  | Bool true => "true"
  | Bool false => "false"
  | Num NaN => "NaN"
  | Num (Int z) => pretty z
  | Str s => s
  | Arr l =>
      join "," (List.map (fun e => match e with
                                   | Undefined | Null => ""
                                   | _ => ToString e
                                   end) l)
  | Obj _ => "[object Object]"
  end.

(** [o[key]] on an object given by its property list *)
Fixpoint prop (key : string) (l : list (string * data)) : data :=
  match l with
  | [] => Undefined
  | (k, v) :: l' => if String.eqb k key then v else prop key l'
  end.

Definition has_prop (key : string) (l : list (string * data)) : bool :=
  existsb (fun kv => String.eqb (fst kv) key) l.

(** The members of [Object.prototype] (Annex B included): the property
    names every object inherits. *)
Definition Object_prototype : list string :=
  ["constructor"; "hasOwnProperty"; "isPrototypeOf"; "propertyIsEnumerable";
   "toLocaleString"; "toString"; "valueOf"; "__proto__";
   "__defineGetter__"; "__defineSetter__"; "__lookupGetter__"; "__lookupSetter__"].

(** The members of [Storage.prototype]. *)
Definition Storage_prototype : list string :=
  ["length"; "key"; "getItem"; "setItem"; "removeItem"; "clear"; "constructor"].

(** [key in obj] on a plain object: an own or an inherited property. *)
Definition in_object (key : string) (l : list (string * data)) : bool :=
  has_prop key l || bool_decide (key ∈ Object_prototype).

(** [key.charAt(0) === '$'] *)
Definition dollar (key : string) : bool :=
  match key with
  | String c _ => Ascii.eqb c "$"%char
  | EmptyString => false
  end.

(** [angular.equals] on first-order values.  Two distinct objects are
    never identical, so objects and arrays are compared structurally. *)
Fixpoint equals (o1 o2 : data) {struct o1} : bool :=
  match o1, o2 with
  | Undefined, Undefined => true
  | Null, Null => true
  | Bool a, Bool b => Bool.eqb a b
  | Num NaN, Num NaN => true
  | Num (Int a), Num (Int b) => a =? b
  | Str a, Str b => String.eqb a b
  | Arr l1, Arr l2 =>
      (length l1 =? length l2)%nat &&
      (fix go (l1 l2 : list data) : bool :=
         match l1, l2 with
         | x :: l1', y :: l2' => equals x y && go l1' l2'
         | _, _ => true
         end) l1 l2
  | Obj p1, Obj p2 =>
      (fix go (p : list (string * data)) : bool :=
         match p with
         | [] => true
         | (k, v) :: p' => (dollar k || equals v (prop k p2)) && go p'
         end) p1
      && forallb (fun kv =>
                    (has_prop (fst kv) p1 && negb (dollar (fst kv)))
                    || dollar (fst kv)
                    || isUndefined (prop (fst kv) p2)) p2
  | _, _ => false
  end.

(** ** Exceptions *)

(** [Error msg] is [new Error(msg)], whose [name] is ["Error"];
    [HostError name] is an exception raised by a host capability (a
    storage write, the cipher), known by its [name]. *)
Inductive exn : Type :=
| Error (msg : string)
| HostError (name : string).

Definition exn_name (e : exn) : string :=
  match e with
  | Error _ => "Error"
  | HostError n => n
  end.

(** The exception of calling what is not a function: [key.split] on a
    number, [obj.forEach] on a string. *)
Definition TypeError : exn := HostError "TypeError".

Inductive outcome (A : Type) : Type :=
| Ret (a : A)
| Throw (e : exn).
Arguments Ret {A} a.
Arguments Throw {A} e.

(** ** Host capabilities: the JSON codec of angular and the cipher *)

Record Sjcl : Type := {
  sjcl_encrypt : string -> string -> string;
  sjcl_decrypt : string -> string -> outcome string
}.

(** [toJson] is [angular.toJson] ([None] is the result [undefined]);
    [fromJson] is [JSON.parse] on a string; [sjcl] is [window.sjcl]. *)
Record Host : Type := {
  toJson : data -> outcome (option string);
  fromJson : string -> outcome data;
  sjcl : option Sjcl
}.

(** ** The world *)

(** A browser storage: its entries, and the exception its [setItem]
    raises, if it raises one. *)
Record Storage : Type := {
  items : gmap string string;
  fault : option string
}.

Inductive backend : Type := Local | Session.

Record Event : Type := {
  ev_name : string;
  ev_payload : list (string * data)
}.

(** A subscription made with [$scope.$watch] by [bind] or
    [bindEncrypted]: the watched expression, the watch mode and what the
    listener persists to. *)
Record Watch : Type := {
  w_id : nat;
  w_expr : string;
  w_deep : bool;
  w_key : string;
  w_encrypted : bool
}.

(** A scope: its own properties, the scopes it inherits from (its
    [$parent] chain up to the root scope, by [$id], nearest first) and
    its subscriptions. *)
Record Scope : Type := {
  props : gmap string data;
  ancestors : list string;
  watchers : list Watch
}.

Record Defaults : Type := {
  d_driver : string;
  d_namespace : string;
  d_eventsEnabled : bool;
  d_separator : string
}.

Record World : Type := {
  localStorage : Storage;
  sessionStorage : Storage;
  emitted : list Event;
  slots : list (option string);
  scopes : gmap string Scope;
  next_watch : nat;
  defaults : Defaults
}.

(** The deregistration function returned by [$watch]: the scope (by
    [$id]) and the subscription it removes. *)
Definition disposer : Type := (string * nat)%type.

(** A Locker instance.  [_cryptoKey] is the address of the instance's
    slot object [{ value : ... }] in [slots]. *)
Record Locker : Type := {
  _driver : backend;
  _namespace : string;
  _eventsEnabled : bool;
  _separator : string;
  _watchers : gmap string disposer;
  _cryptoKey : nat;
  _supported : option bool
}.

Record State : Type := {
  this : Locker;
  world : World
}.

Definition storage (b : backend) (w : World) : Storage :=
  match b with
  | Local => localStorage w
  | Session => sessionStorage w
  end.

Definition set_storage (b : backend) (st : Storage) (w : World) : World :=
  match b with
  | Local =>
      {| localStorage := st; sessionStorage := sessionStorage w;
         emitted := emitted w; slots := slots w; scopes := scopes w;
         next_watch := next_watch w; defaults := defaults w |}
  | Session =>
      {| localStorage := localStorage w; sessionStorage := st;
         emitted := emitted w; slots := slots w; scopes := scopes w;
         next_watch := next_watch w; defaults := defaults w |}
  end.

Definition set_items (m : gmap string string) (st : Storage) : Storage :=
  {| items := m; fault := fault st |}.

Definition set_emitted (l : list Event) (w : World) : World :=
  {| localStorage := localStorage w; sessionStorage := sessionStorage w;
     emitted := l; slots := slots w; scopes := scopes w;
     next_watch := next_watch w; defaults := defaults w |}.

Definition set_slots (l : list (option string)) (w : World) : World :=
  {| localStorage := localStorage w; sessionStorage := sessionStorage w;
     emitted := emitted w; slots := l; scopes := scopes w;
     next_watch := next_watch w; defaults := defaults w |}.

Definition set_scopes (m : gmap string Scope) (w : World) : World :=
  {| localStorage := localStorage w; sessionStorage := sessionStorage w;
     emitted := emitted w; slots := slots w; scopes := m;
     next_watch := next_watch w; defaults := defaults w |}.

Definition set_next_watch (n : nat) (w : World) : World :=
  {| localStorage := localStorage w; sessionStorage := sessionStorage w;
     emitted := emitted w; slots := slots w; scopes := scopes w;
     next_watch := n; defaults := defaults w |}.

Definition set_supported (b : option bool) (l : Locker) : Locker :=
  {| _driver := _driver l; _namespace := _namespace l;
     _eventsEnabled := _eventsEnabled l; _separator := _separator l;
     _watchers := _watchers l; _cryptoKey := _cryptoKey l;
     _supported := b |}.

Definition set_watchers (m : gmap string disposer) (l : Locker) : Locker :=
  {| _driver := _driver l; _namespace := _namespace l;
     _eventsEnabled := _eventsEnabled l; _separator := _separator l;
     _watchers := m; _cryptoKey := _cryptoKey l;
     _supported := _supported l |}.

(** ** The monad of a method call: state and exceptions *)

Inductive result (A : Type) : Type :=
| Ok (a : A) (s : State)
| Err (e : exn) (s : State).
Arguments Ok {A} a s.
Arguments Err {A} e s.

Definition M (A : Type) : Type := State -> result A.

#[global] Instance M_ret : MRet M := fun A a s => Ok a s.
#[global] Instance M_bind : MBind M := fun A B f m s =>
  match m s with
  | Ok a s' => f a s'
  | Err e s' => Err e s'
  end.

Definition throw {A : Type} (e : exn) : M A := fun s => Err e s.

(** [try { m } catch (e) { h e }] *)
Definition try_catch {A : Type} (m : M A) (h : exn -> M A) : M A := fun s =>
  match m s with
  | Ok a s' => Ok a s'
  | Err e s' => h e s'
  end.

Definition gets {A : Type} (f : State -> A) : M A := fun s => Ok (f s) s.

Definition modify_this (f : Locker -> Locker) : M unit := fun s =>
  Ok tt {| this := f (this s); world := world s |}.

Definition modify_world (f : World -> World) : M unit := fun s =>
  Ok tt {| this := this s; world := f (world s) |}.

(** The state a call ends in, whether it returns or throws. *)
Definition final {A : Type} (r : result A) : State :=
  match r with
  | Ok _ s => s
  | Err _ s => s
  end.

(** [angular.forEach] over a list, threading the state. *)
Fixpoint forEach {A : Type} (l : list A) (f : A -> M unit) : M unit :=
  match l with
  | [] => mret tt
  | x :: l' => f x;; forEach l' f
  end.

(** ** The storage capability *)

Definition setItem (b : backend) (k v : string) : M unit := fun s =>
  let st := storage b (world s) in
  match fault st with
  | Some name => Err (HostError name) s
  | None =>
      Ok tt {| this := this s;
               world := set_storage b (set_items (<[k:=v]> (items st)) st) (world s) |}
  end.

Definition getItem (b : backend) (k : string) : M data :=
  gets (fun s => match items (storage b (world s)) !! k with
                 | Some v => Str v
                 | None => Null
                 end).

Definition removeItem (b : backend) (k : string) : M unit :=
  modify_world (fun w =>
    let st := storage b w in
    set_storage b (set_items (delete k (items st)) st) w).

(** A name the storage object inherits, from [Storage.prototype] or
    from [Object.prototype]. *)
Definition inherited (k : string) : bool :=
  bool_decide (k ∈ (Storage_prototype ++ Object_prototype)%list).

(** The entries that are own properties of the storage object: an entry
    whose key is an inherited name is not one. *)
Definition own_property (m : gmap string string) (k : string) : bool :=
  bool_decide (is_Some (m !! k)) && negb (inherited k).

(** [k in storage] *)
Definition in_storage (m : gmap string string) (k : string) : bool :=
  own_property m k || inherited k.

Definition hasOwnProperty (b : backend) (k : string) : M bool :=
  gets (fun s => own_property (items (storage b (world s))) k).

Definition clear (b : backend) : M unit :=
  modify_world (fun w => set_storage b (set_items ∅ (storage b w)) w).

(** [isArrayLike(storage)]: [storage.length] is the number of entries,
    and the storage is taken for an array when [length - 1] is one of
    its properties. *)
Definition arrayLike (m : gmap string string) : bool :=
  in_storage m (pretty (Z.of_nat (size m) - 1)).

(** The keys [angular.forEach(storage, callback)] passes to the
    callback.  On an array-like storage, the indices below [length]
    that are properties of the storage, as numbers.  Otherwise, when the
    storage holds a non-empty text under the key [forEach], that text is
    read as the object's own [forEach] and called: a TypeError.
    Otherwise the own properties, by name. *)
Definition visits (m : gmap string string) : outcome (list data) :=
  if arrayLike m
  then Ret ((fun i => Num (Int i)) <$>
            List.filter (fun i => in_storage m (pretty i)) (seqZ 0 (Z.of_nat (size m))))
  else
    match m !! "forEach" with
    | Some (String _ _) => Throw TypeError
    | _ => Ret (Str <$> List.filter (fun k => own_property m k) (map_to_list m).*1)
    end.

(** ** Strings *)

Definition dquote : string := String (Ascii.ascii_of_nat 34) EmptyString.

(** [s.split(sep)] for a non-empty separator: [skip] counts the
    characters of a matched separator still to pass over, [cur] is the
    piece being read. *)
Fixpoint split_from (sep : string) (skip : nat) (cur s : string) : list string :=
  match s with
  | EmptyString => [cur]
  | String c s' =>
      match skip with
      | S n => split_from sep n cur s'
      | O =>
          if String.prefix sep s
          then cur :: split_from sep (String.length sep - 1) "" s'
          else split_from sep O (cur ++ String c "") s'
      end
  end.

Fixpoint chars (s : string) : list string :=
  match s with
  | EmptyString => []
  | String c s' => String c "" :: chars s'
  end.

(** [s.split(sep)] *)
Definition split (sep s : string) : list string :=
  match sep with
  | EmptyString => chars s
  | _ => split_from sep O "" s
  end.

(** The character class [\s] of a regular expression, on the code units
    below 256. *)
Definition is_space (c : ascii) : bool :=
  let n := Ascii.nat_of_ascii c in
  ((9 <=? n) && (n <=? 13) || (n =? 32) || (n =? 160))%nat.

(** [s.replace(/\s/gm, '')] *)
Fixpoint strip_spaces (s : string) : string :=
  match s with
  | EmptyString => EmptyString
  | String c s' => if is_space c then strip_spaces s' else String c (strip_spaces s')
  end.

(** [angular.extend(dst, src)] on property lists *)
Fixpoint set_prop (key : string) (v : data) (l : list (string * data)) : list (string * data) :=
  match l with
  | [] => [(key, v)]
  | (k, x) :: l' => if String.eqb k key then (k, v) :: l' else (k, x) :: set_prop key v l'
  end.

Definition extend (dst src : list (string * data)) : list (string * data) :=
  fold_left (fun acc kv => set_prop (fst kv) (snd kv) acc) src dst.

(** ** Module-level helpers of the provider *)

(** [_value]: if the value is a function then execute, otherwise return *)
Definition _value (value : value) (param : data) : data :=
  match value with
  | Fun f => f param
  | Val d => d
  end.

Definition backend_eqb (a b : backend) : bool :=
  match a, b with
  | Local, Local | Session, Session => true
  | _, _ => false
  end.

(** [_keyByVal]: the first key of the object holding the value *)
Definition _keyByVal (object : list (string * backend)) (value : backend) : option string :=
  head (List.map fst (List.filter (fun kv => backend_eqb (snd kv) value) object)).

(** [_error]: [throw new Error('[angular-locker] ' + msg)] *)
Definition _error {A : Type} (msg : string) : M A :=
  throw (Error ("[angular-locker] " ++ msg)).

Definition msg_unsupported : string := "The browser does not support localStorage".
Definition msg_quota : string := "The browser storage quota has been exceeded".
Definition msg_driver (driver : string) : string :=
  "The driver " ++ dquote ++ driver ++ dquote ++ " was not found.".
Definition msg_write (key : data) : string :=
  "Could not add item with key " ++ dquote ++ ToString key ++ dquote.

(** The four failures of the engine, by the names the specification
    gives them. *)
Definition DriverNotFound (driver : string) : exn :=
  Error ("[angular-locker] " ++ msg_driver driver).
Definition UnsupportedBackend : exn := Error ("[angular-locker] " ++ msg_unsupported).
Definition QuotaExceeded : exn := Error ("[angular-locker] " ++ msg_quota).
Definition WriteFailed (key : data) : exn := Error ("[angular-locker] " ++ msg_write key).

Definition quota_names : list string :=
  ["QUOTA_EXCEEDED_ERR"; "NS_ERROR_DOM_QUOTA_REACHED"; "QuotaExceededError"].

(** ** The Locker class: private members *)

Definition _registeredDrivers : list (string * backend) :=
  [("local", Local); ("session", Session)].

Fixpoint assoc {A : Type} (key : string) (l : list (string * A)) : option A :=
  match l with
  | [] => None
  | (k, v) :: l' => if String.eqb k key then Some v else assoc key l'
  end.

Definition _resolveDriver (driver : string) : M backend :=
  match assoc driver _registeredDrivers with
  | None => _error (msg_driver driver)
  | Some b => mret b
  end.

Definition _deriveDriver (driver : backend) : option string :=
  _keyByVal _registeredDrivers driver.

(** [driver || 'local'] *)
Definition or_local (driver : option string) : string :=
  match driver with
  | Some d => if String.eqb d "" then "local" else d
  | None => "local"
  end.

Definition _checkSupport (driver : option string) : M bool :=
  sup ← gets (fun s => _supported (this s));
  (match sup with
   | None =>
       try_catch
         (b ← _resolveDriver (or_local driver);
          setItem b "l" "l";;
          b' ← _resolveDriver (or_local driver);
          removeItem b' "l";;
          modify_this (set_supported (Some true)))
         (fun _ => modify_this (set_supported (Some false)))
   | Some _ => mret tt
   end);;
  sup' ← gets (fun s => _supported (this s));
  mret (default false sup').

Definition _getPrefix (l : Locker) (key : data) : string :=
  if String.eqb (_namespace l) "" then ToString key
  else _namespace l ++ _separator l ++ ToString key.

(** [this._cryptoKey.value] *)
Definition cryptoKey_value (s : State) : option string :=
  default None (slots (world s) !! _cryptoKey (this s)).

Definition truthy_key (k : option string) : bool :=
  match k with
  | Some s => negb (String.eqb s "")
  | None => false
  end.

(** The object built by [var items = {}; items[k] = v; ...]: its own
    properties and its prototype ([None] is [Object.prototype], which it
    starts with; [Some Null] is no prototype). *)
Record object : Type := {
  own : gmap string data;
  proto : option data
}.

Definition empty_object : object := {| own := ∅; proto := None |}.

(** Whether [o.__proto__ = v] reaches the accessor [__proto__] of
    [Object.prototype]: the object has no own property of that name, and
    its prototype is [Object.prototype], or an array, or an object
    without an own property [__proto__]. *)
Definition reaches_setter (o : object) : bool :=
  bool_decide (own o !! "__proto__" = None) &&
  match proto o with
  | None => true
  | Some (Obj l) => negb (has_prop "__proto__" l)
  | Some (Arr _) => true
  | Some _ => false
  end.

(** [o[k] = v].  For the key [__proto__], when the accessor is reached,
    no property is created: an object, an array or null becomes the
    prototype, any other value is ignored. *)
Definition assign (k : string) (v : data) (o : object) : object :=
  if String.eqb k "__proto__" && reaches_setter o
  then match v with
       | Null | Arr _ | Obj _ => {| own := own o; proto := Some v |}
       | _ => o
       end
  else {| own := <[k := v]> (own o); proto := proto o |}.

(** What [get] and [pull] return: the decoded value (or the default), or,
    for a sequence of keys, the object built by [items[k] = ...]. *)
Inductive got : Type :=
| Single (d : data)
| Items (o : object).

Definition got_data (g : got) : data :=
  match g with
  | Single d => d
  | Items o => Obj (map_to_list (own o))
  end.

(** [for (...) { acc = f(acc, x) }], threading the state *)
Fixpoint foldM {A B : Type} (f : B -> A -> M B) (l : list A) (acc : B) : M B :=
  match l with
  | [] => mret acc
  | x :: l' => acc' ← f acc x; foldM f l' acc'
  end.

(** Run a method on another object: [obj.m()]. *)
Definition call_on {A : Type} (obj : Locker) (m : M A) : M (A * Locker) := fun s =>
  match m {| this := obj; world := world s |} with
  | Ok a s' => Ok (a, this s') {| this := this s; world := world s' |}
  | Err e s' => Err e {| this := this s; world := world s' |}
  end.

(** ** The scope capability *)

Definition empty_scope : Scope := {| props := ∅; ancestors := []; watchers := [] |}.

Definition scope_of (w : World) (id : string) : Scope :=
  default empty_scope (scopes w !! id).

(** What a name denotes on a scope: a first-order value, or a function
    (a method the scope inherits). *)
Inductive denoted : Type :=
| Data (d : data)
| Function.

Definition isObject_denoted (x : denoted) : bool :=
  match x with
  | Data d => isObject d
  | Function => false
  end.

Definition isUndefined_denoted (x : denoted) : bool :=
  match x with
  | Data d => isUndefined d
  | Function => false
  end.

(** The first of the scopes of a chain that has the property. *)
Fixpoint first_bound (w : World) (chain : list string) (index : string) : option data :=
  match chain with
  | [] => None
  | id :: chain' =>
      match props (scope_of w id) !! index with
      | Some d => Some d
      | None => first_bound w chain' index
      end
  end.

(** The property [index] of a scope, looked up along the prototype
    chain: the scope's own properties, then those of its ancestors, then
    the members of [Object.prototype]. *)
Definition lookup_chain (w : World) (scope index : string) : denoted :=
  match first_bound w (scope :: ancestors (scope_of w scope)) index with
  | Some d => Data d
  | None => if bool_decide (index ∈ Object_prototype) then Function else Data Undefined
  end.

(** [$scope[index]], [$scope.$eval(index)] *)
Definition scope_eval (scope index : string) : M denoted :=
  gets (fun s => lookup_chain (world s) scope index).

(** [$parse(index).assign($scope, value)]: the property becomes an own
    property of the scope. *)
Definition scope_assign (scope index : string) (v : data) : M unit :=
  modify_world (fun w =>
    let sc := scope_of w scope in
    set_scopes (<[scope := {| props := <[index := v]> (props sc);
                              ancestors := ancestors sc;
                              watchers := watchers sc |}]> (scopes w)) w).

(** [$scope.$watch(index, listener, deep)]; the listener persists to
    [key].  Returns the deregistration function. *)
Definition scope_watch (scope index : string) (deep : bool) (key : string)
    (encrypted : bool) : M disposer :=
  n ← gets (fun s => next_watch (world s));
  modify_world (fun w =>
    let sc := scope_of w scope in
    set_next_watch (S n)
      (set_scopes (<[scope := {| props := props sc;
                                 ancestors := ancestors sc;
                                 watchers := watchers sc ++
                                   [{| w_id := n; w_expr := index; w_deep := deep;
                                       w_key := key; w_encrypted := encrypted |}] |}]>
                     (scopes w)) w));;
  mret (scope, n).

(** Calling a deregistration function. *)
Definition dispose (d : disposer) : M unit :=
  modify_world (fun w =>
    let sc := scope_of w (fst d) in
    set_scopes (<[fst d := {| props := props sc;
                              ancestors := ancestors sc;
                              watchers := List.filter (fun x => negb (w_id x =? snd d)%nat)
                                            (watchers sc) |}]> (scopes w)) w).

Section Engine.

Variable host : Host.

(** [_serialize]: try to encode value as json, or just return the value
    upon failure *)
Definition _serialize (value : data) : data :=
  match toJson host value with
  | Ret (Some s) => Str s
  | Ret None => Undefined
  | Throw _ => value
  end.

(** [angular.fromJson]: [isString(json) ? JSON.parse(json) : json] *)
Definition angular_fromJson (json : data) : outcome data :=
  match json with
  | Str s => fromJson host s
  | _ => Ret json
  end.

(** [_unserialize]: try to parse value as json, if it fails just return it *)
Definition _unserialize (value : data) : data :=
  match angular_fromJson value with
  | Ret d => d
  | Throw _ => value
  end.

Definition emit (name : string) (payload : list (string * data)) : M unit :=
  modify_world (fun w => set_emitted (emitted w ++ [{| ev_name := name; ev_payload := payload |}]) w).

Definition opt_str (o : option string) : data :=
  match o with
  | Some s => Str s
  | None => Undefined
  end.

Definition _event (name : string) (payload : list (string * data)) : M unit :=
  enabled ← gets (fun s => _eventsEnabled (this s));
  if negb enabled then mret tt
  else
    l ← gets this;
    emit name (extend payload [("driver", opt_str (_deriveDriver (_driver l)));
                               ("namespace", Str (_namespace l))]).

Definition assert_supported : M unit :=
  ok ← _checkSupport None;
  if negb ok then _error msg_unsupported else mret tt.

Definition _exists (key : value) : M bool :=
  assert_supported;;
  l ← gets this;
  hasOwnProperty (_driver l) (_getPrefix l (_value key Undefined)).

Definition _getItem (key : data) (encrypted : bool) : M data :=
  assert_supported;;
  l ← gets this;
  finalValue ← getItem (_driver l) (_getPrefix l key);
  ck ← gets cryptoKey_value;
  item ← match sjcl host, ck with
         | Some cipher, Some k =>
             if encrypted && truthy_key ck && truthy finalValue
             then match sjcl_decrypt cipher k (ToString finalValue) with
                  | Ret plain => mret (Str plain)
                  | Throw e => throw e
                  end
             else mret finalValue
         | _, _ => mret finalValue
         end;
  mret (_unserialize item).

Definition _setItem (key value : data) (encrypted : bool) : M unit :=
  assert_supported;;
  try_catch
    (oldVal ← _getItem key false;
     let serializedValue := _serialize value in
     ck ← gets cryptoKey_value;
     let finalValue :=
       match sjcl host, ck with
       | Some cipher, Some k =>
           if encrypted && truthy_key ck && truthy serializedValue
           then Str (sjcl_encrypt cipher k (ToString serializedValue))
           else serializedValue
       | _, _ => serializedValue
       end in
     l ← gets this;
     setItem (_driver l) (_getPrefix l key) (ToString finalValue);;
     present ← _exists (Val key);
     if present && negb (equals oldVal finalValue)
     then _event "locker.item.updated"
            [("key", key); ("oldValue", oldVal); ("newValue", finalValue)]
     else _event "locker.item.added" [("key", key); ("value", value)])
    (fun e =>
       if bool_decide (exn_name e ∈ quota_names)
       then _error msg_quota
       else _error (msg_write key)).

Definition _removeItem (key : data) : M bool :=
  assert_supported;;
  present ← _exists (Val key);
  if negb present then mret false
  else
    l ← gets this;
    removeItem (_driver l) (_getPrefix l key);;
    _event "locker.item.forgotten" [("key", key)];;
    mret true.

(** ** The Locker class: public API *)

(** [isArrayLike] on a plain object: its [length] is a number that is
    not negative, and [length - 1] is one of its properties.  The result
    is the length. *)
Definition arrayLike_length (l : list (string * data)) : option Z :=
  match prop "length" l with
  | Num (Int n) => if (0 <=? n) && in_object (pretty (n - 1)) l then Some n else None
  | _ => None
  end.

(** The pairs of key and value [angular.forEach] passes to its callback
    on an array or an object.  An array, and an array-like object, is
    visited by index (for the object, the indices below [length] that
    are properties).  Another object with a truthy property [forEach]
    has that property called, which is a TypeError for a first-order
    value; otherwise its own properties are visited. *)
Definition entries (d : data) : outcome (list (data * data)) :=
  match d with
  | Arr l => Ret (imap (fun i x => (Num (Int (Z.of_nat i)), x)) l)
  | Obj l =>
      match arrayLike_length l with
      | Some n =>
          Ret ((fun i => (Num (Int i), prop (pretty i) l)) <$>
               List.filter (fun i => in_object (pretty i) l) (seqZ 0 n))
      | None =>
          if truthy (prop "forEach" l) then Throw TypeError
          else Ret (List.map (fun kv => (Str (fst kv), snd kv)) l)
      end
  | _ => Ret []
  end.

(** [put]: returns [false] ([false]) or [this] ([true]). *)
Definition put (key value : value) (encrypted : bool) : M bool :=
  if negb (truthy_value key) then mret false
  else
    let key := _value key Undefined in
    if isObject key
    then
      match entries key with
      | Throw e => throw e
      | Ret l =>
          forEach l (fun kv => _setItem (fst kv) (snd kv) encrypted);;
          mret true
      end
    else
      if negb (isDefined_value value) then mret false
      else
        current ← _getItem key encrypted;
        _setItem key (_value value current) encrypted;;
        mret true.

Definition has (key : value) : M bool := _exists key.

Definition add (key value : value) (encrypted : bool) : M bool :=
  present ← has key;
  if negb present then put key value encrypted;; mret true
  else mret false.

(** [get]; [argc] is [arguments.length]. *)
Definition get (argc : nat) (key def : data) (encrypted : bool) : M got :=
  match key with
  | Arr ks =>
      items ← foldM (fun (items : object) (k : data) =>
                 present ← has (Val k);
                 if (present : bool)
                 then v ← _getItem k encrypted; mret (assign (ToString k) v items)
                 else mret items) ks empty_object;
      mret (Items items)
  | _ =>
      present ← has (Val key);
      if negb present
      then mret (Single (if bool_decide (argc ∈ [2; 3]%nat) then def else Undefined))
      else v ← _getItem key encrypted; mret (Single v)
  end.

Definition forget (key : value) : M unit :=
  let key := _value key Undefined in
  match key with
  | Arr ks => forEach ks (fun k => _removeItem k;; mret tt)
  | _ => _removeItem key;; mret tt
  end.

Definition pull (key def : data) (encrypted : bool) : M got :=
  v ← get 3 key def encrypted;
  forget (Val key);;
  mret v.

(** The logical key [all] derives from a physical key. *)
Definition unprefix (l : Locker) (key : string) : string :=
  let split := split (_separator l) key in
  if (1 <? length split)%nat && String.eqb (hd "" split) (_namespace l)
  then join (_separator l) (tl split)
  else key.

(** The callback of [all]: [key.split] is a TypeError for a key that
    is not a string. *)
Definition all_step (items : object) (key : data) : M object :=
  match key with
  | Str key =>
      l ← gets this;
      let key := unprefix l key in
      present ← has (Val (Str key));
      if (present : bool)
      then v ← get 1 (Str key) Undefined false; mret (assign key (got_data v) items)
      else mret items
  | _ => throw TypeError
  end.

Definition all : M object :=
  l ← gets this;
  m ← gets (fun s => items (storage (_driver l) (world s)));
  match visits m with
  | Throw e => throw e
  | Ret keys => foldM all_step keys empty_object
  end.

(** [Object.keys(items)] *)
Definition Object_keys (items : object) : list string :=
  (map_to_list (own items)).*1.

Definition clean : M unit :=
  items ← all;
  forget (Val (Arr (List.map Str (Object_keys items)))).

Definition empty : M unit :=
  l ← gets this;
  clear (_driver l).

Definition count : M nat :=
  items ← all;
  mret (length (Object_keys items)).

(** [attr || key] *)
Definition attr_or (attr key : string) : string :=
  if String.eqb attr "" then key else attr.

Definition bind_with (encrypted : bool) (scope key : string) (def : data) (attr : string) : M unit :=
  let index := attr_or attr key in
  let watcherId := index ++ scope in
  current ← scope_eval scope index;
  d ← scope_watch scope index (isObject_denoted current) key encrypted;
  modify_this (fun l => set_watchers (<[watcherId := d]> (_watchers l)) l);;
  now ← scope_eval scope index;
  if isUndefined_denoted now
  then
    value ← (if encrypted then get 3 (Str key) def true else get 2 (Str key) def false);
    scope_assign scope index (got_data value)
  else mret tt.

Definition bind : string -> string -> data -> string -> M unit := bind_with false.
Definition bindEncrypted : string -> string -> data -> string -> M unit := bind_with true.

Definition unbind (scope key attr : string) (dontForget : bool) : M unit :=
  let index := attr_or attr key in
  scope_assign scope index Null;;
  (if negb dontForget then forget (Val (Str key)) else mret tt);;
  let watcherId := index ++ scope in
  l ← gets this;
  match _watchers l !! watcherId with
  | Some d =>
      dispose d;;
      modify_this (fun l => set_watchers (delete watcherId (_watchers l)) l)
  | None => mret tt
  end.

Definition getDriver : M backend := gets (fun s => _driver (this s)).
Definition getNamespace : M string := gets (fun s => _namespace (this s)).
Definition supported (driver : option string) : M bool := _checkSupport driver.

Definition setCryptoKey (key : data) : M unit :=
  match key with
  | Str k =>
      if (String.length k =? 0)%nat || (String.length (strip_spaces k) =? 0)%nat
      then mret tt
      else
        l ← gets this;
        modify_world (fun w => set_slots (<[_cryptoKey l := Some k]> (slots w)) w)
  | _ => mret tt
  end.

Definition clearWatchers : M unit :=
  l ← gets this;
  forEach (map_to_list (_watchers l)) (fun kv => dispose (snd kv)).

(** [new Locker(driver, namespace)] *)
Definition new_Locker (driver namespace : string) : M Locker :=
  b ← _resolveDriver driver;
  w ← gets world;
  modify_world (set_slots (slots w ++ [None]));;
  mret {| _driver := b; _namespace := namespace;
          _eventsEnabled := d_eventsEnabled (defaults w);
          _separator := d_separator (defaults w);
          _watchers := ∅; _cryptoKey := length (slots w);
          _supported := None |}.

Definition instance (driver namespace : string) : M Locker :=
  locker ← new_Locker driver namespace;
  ck ← gets cryptoKey_value;
  r ← call_on locker (setCryptoKey (match ck with Some k => Str k | None => Null end));
  mret (snd r).

Definition driver (driver : string) : M Locker :=
  l ← gets this;
  instance driver (_namespace l).

Definition namespace (namespace : string) : M Locker :=
  l ← gets this;
  instance (ToString (opt_str (_deriveDriver (_driver l)))) namespace.

(** ** The public API as calls *)

Inductive call : Type :=
| CallPut (key value : value) (encrypted : bool)
| CallAdd (key value : value) (encrypted : bool)
| CallGet (argc : nat) (key def : data) (encrypted : bool)
| CallHas (key : value)
| CallForget (key : value)
| CallPull (key def : data) (encrypted : bool)
| CallAll
| CallClean
| CallEmpty
| CallCount
| CallBind (scope key : string) (def : data) (attr : string)
| CallBindEncrypted (scope key : string) (def : data) (attr : string)
| CallUnbind (scope key attr : string) (dontForget : bool)
| CallDriver (driver : string)
| CallGetDriver
| CallNamespace (namespace : string)
| CallGetNamespace
| CallSupported (driver : option string)
| CallSetCryptoKey (key : data)
| CallClearWatchers
| CallInstance (driver namespace : string).

Inductive answer : Type :=
| AFalse
| AThis
| ABool (b : bool)
| AGot (g : got)
| AItems (o : object)
| ACount (n : nat)
| ALocker (l : Locker)
| ABackend (b : backend)
| AString (s : string)
| AVoid.

Definition exec (c : call) : M answer :=
  match c with
  | CallPut key value encrypted =>
      r ← put key value encrypted; mret (if r : bool then AThis else AFalse)
  | CallAdd key value encrypted => r ← add key value encrypted; mret (ABool r)
  | CallGet argc key def encrypted => r ← get argc key def encrypted; mret (AGot r)
  | CallHas key => r ← has key; mret (ABool r)
  | CallForget key => forget key;; mret AThis
  | CallPull key def encrypted => r ← pull key def encrypted; mret (AGot r)
  | CallAll => r ← all; mret (AItems r)
  | CallClean => clean;; mret AThis
  | CallEmpty => empty;; mret AThis
  | CallCount => r ← count; mret (ACount r)
  | CallBind scope key def attr => bind scope key def attr;; mret AThis
  | CallBindEncrypted scope key def attr => bindEncrypted scope key def attr;; mret AThis
  | CallUnbind scope key attr dontForget => unbind scope key attr dontForget;; mret AThis
  | CallDriver d => r ← driver d; mret (ALocker r)
  | CallGetDriver => r ← getDriver; mret (ABackend r)
  | CallNamespace ns => r ← namespace ns; mret (ALocker r)
  | CallGetNamespace => r ← getNamespace; mret (AString r)
  | CallSupported d => r ← supported d; mret (ABool r)
  | CallSetCryptoKey key => setCryptoKey key;; mret AVoid
  | CallClearWatchers => clearWatchers;; mret AVoid
  | CallInstance d ns => r ← instance d ns; mret (ALocker r)
  end.

(** The listener that [bind] ([encrypted] off) and [bindEncrypted]
    ([encrypted] on) hand to [$watch]:
    [function (newVal) { if (angular.isDefined(newVal)) self.put(key, newVal[, true]); }] *)
Definition listener (key : string) (encrypted : bool) (newVal : data) : M unit :=
  if isDefined newVal
  then put (Val (Str key)) (Val newVal) encrypted;; mret tt
  else mret tt.

End Engine.

(** ** The provider

    The [defaults] object of the provider and the methods of
    [lockerProvider].  The defaults are held at their documented types
    (three strings and a boolean): a setter applied to a value of
    another type is outside the model ([None]).  A setter returns the
    provider, here the world with the new defaults, so that calls
    chain. *)

Definition set_defaults (d : Defaults) (w : World) : World :=
  {| localStorage := localStorage w; sessionStorage := sessionStorage w;
     emitted := emitted w; slots := slots w; scopes := scopes w;
     next_watch := next_watch w; defaults := d |}.

(** [defaults.driver = _value(driver)] *)
Definition setDefaultDriver (driver : value) (w : World) : option World :=
  match _value driver Undefined with
  | Str d =>
      Some (set_defaults {| d_driver := d; d_namespace := d_namespace (defaults w);
                            d_eventsEnabled := d_eventsEnabled (defaults w);
                            d_separator := d_separator (defaults w) |} w)
  | _ => None
  end.

Definition getDefaultDriver (w : World) : string := d_driver (defaults w).

(** [defaults.namespace = _value(namespace)] *)
Definition setDefaultNamespace (namespace : value) (w : World) : option World :=
  match _value namespace Undefined with
  | Str ns =>
      Some (set_defaults {| d_driver := d_driver (defaults w); d_namespace := ns;
                            d_eventsEnabled := d_eventsEnabled (defaults w);
                            d_separator := d_separator (defaults w) |} w)
  | _ => None
  end.

Definition getDefaultNamespace (w : World) : string := d_namespace (defaults w).

(** [defaults.eventsEnabled = _value(enabled)] *)
Definition setEventsEnabled (enabled : value) (w : World) : option World :=
  match _value enabled Undefined with
  | Bool b =>
      Some (set_defaults {| d_driver := d_driver (defaults w);
                            d_namespace := d_namespace (defaults w);
                            d_eventsEnabled := b;
                            d_separator := d_separator (defaults w) |} w)
  | _ => None
  end.

Definition getEventsEnabled (w : World) : bool := d_eventsEnabled (defaults w).

(** [defaults.separator = _value(separator)] *)
Definition setSeparator (separator : value) (w : World) : option World :=
  match _value separator Undefined with
  | Str sep =>
      Some (set_defaults {| d_driver := d_driver (defaults w);
                            d_namespace := d_namespace (defaults w);
                            d_eventsEnabled := d_eventsEnabled (defaults w);
                            d_separator := sep |} w)
  | _ => None
  end.

Definition getSeparator (w : World) : string := d_separator (defaults w).

(** [$get]: [return new Locker(defaults.driver, defaults.namespace)] *)
Definition provider_get : M Locker :=
  w ← gets world;
  new_Locker (d_driver (defaults w)) (d_namespace (defaults w)).

(** ** A concrete host: JSON text on the modelled values

    [stringify] follows [angular.toJson] ([JSON.stringify] with the
    replacer that drops the properties whose name starts with [$$]);
    [parse] follows [JSON.parse] on the texts whose numerals are
    integers.  The engine's theorems hold for every host; this one is
    the host of the examples. *)
Module Json.

Definition hex_digit (n : nat) : ascii :=
  Ascii.ascii_of_nat (if (n <? 10)%nat then 48 + n else 87 + n)%nat.

Definition escape_char (c : ascii) : string :=
  let n := Ascii.nat_of_ascii c in
  if (n =? 34)%nat then "\" ++ dquote
  else if (n =? 92)%nat then "\\"
  else if (n =? 8)%nat then "\b"
  else if (n =? 12)%nat then "\f"
  else if (n =? 10)%nat then "\n"
  else if (n =? 13)%nat then "\r"
  else if (n =? 9)%nat then "\t"
  else if (n <? 32)%nat
       then "\u00" ++ String (hex_digit (n / 16)) (String (hex_digit (n mod 16)) "")
  else String c "".

Fixpoint escape (s : string) : string :=
  match s with
  | EmptyString => EmptyString
  | String c s' => escape_char c ++ escape s'
  end.

Definition quote (s : string) : string := dquote ++ escape s ++ dquote.

(** [key.charAt(0) === '$' && key.charAt(1) === '$'] *)
Definition dollar2 (key : string) : bool :=
  match key with
  | String a (String b _) => Ascii.eqb a "$"%char && Ascii.eqb b "$"%char
  | _ => false
  end.

(** [None] is the result [undefined]. *)
Fixpoint stringify (d : data) : option string :=
  match d with
  | Undefined => None
  | Null => Some "null"
  | Bool true => Some "true"
  | Bool false => Some "false"
  | Num NaN => Some "null"
  | Num (Int z) => Some (pretty z)
  | Str s => Some (quote s)
  | Arr l =>
      Some ("[" ++ join "," ((fix elems (l : list data) : list string :=
                                match l with
                                | [] => []
                                | x :: l' => default "null" (stringify x) :: elems l'
                                end) l) ++ "]")
  | Obj l =>
      Some ("{" ++ join "," ((fix members (l : list (string * data)) : list string :=
                                match l with
                                | [] => []
                                | (k, v) :: l' =>
                                    match (if dollar2 k then None else stringify v) with
                                    | Some s => (quote k ++ ":" ++ s) :: members l'
                                    | None => members l'
                                    end
                                end) l) ++ "}")
  end.

Definition is_ws (c : ascii) : bool :=
  let n := Ascii.nat_of_ascii c in
  ((n =? 32) || (n =? 9) || (n =? 10) || (n =? 13))%nat.

Fixpoint skip_ws (s : string) : string :=
  match s with
  | String c s' => if is_ws c then skip_ws s' else s
  | EmptyString => EmptyString
  end.

Definition hex_value (c : ascii) : option nat :=
  let n := Ascii.nat_of_ascii c in
  if ((48 <=? n) && (n <=? 57))%nat then Some (n - 48)%nat
  else if ((97 <=? n) && (n <=? 102))%nat then Some (n - 87)%nat
  else if ((65 <=? n) && (n <=? 70))%nat then Some (n - 55)%nat
  else None.

(** The characters of a string literal after its opening quote, and the
    rest of the text after its closing quote. *)
Fixpoint string_body (s : string) : option (string * string) :=
  match s with
  | EmptyString => None
  | String c s' =>
      let n := Ascii.nat_of_ascii c in
      if (n =? 34)%nat then Some ("", s')
      else if (n =? 92)%nat then
        match s' with
        | String e s'' =>
            let simple (x : nat) :=
              match string_body s'' with
              | Some (body, rest) => Some (String (Ascii.ascii_of_nat x) body, rest)
              | None => None
              end in
            let m := Ascii.nat_of_ascii e in
            if (m =? 34)%nat then simple 34%nat
            else if (m =? 92)%nat then simple 92%nat
            else if (m =? 47)%nat then simple 47%nat
            else if (m =? 98)%nat then simple 8%nat
            else if (m =? 102)%nat then simple 12%nat
            else if (m =? 110)%nat then simple 10%nat
            else if (m =? 114)%nat then simple 13%nat
            else if (m =? 116)%nat then simple 9%nat
            else if (m =? 117)%nat then
              match s'' with
              | String h1 (String h2 (String h3 (String h4 rest))) =>
                  match hex_value h1, hex_value h2, hex_value h3, hex_value h4 with
                  | Some 0%nat, Some 0%nat, Some a, Some b =>
                      match string_body rest with
                      | Some (body, rest') =>
                          Some (String (Ascii.ascii_of_nat (16 * a + b)) body, rest')
                      | None => None
                      end
                  | _, _, _, _ => None
                  end
              | _ => None
              end
            else None
        | EmptyString => None
        end
      else if (n <? 32)%nat then None
      else
        match string_body s' with
        | Some (body, rest) => Some (String c body, rest)
        | None => None
        end
  end.

Definition is_digit (c : ascii) : bool :=
  let n := Ascii.nat_of_ascii c in ((48 <=? n) && (n <=? 57))%nat.

(** The digits at the head of the text, as a number, and the rest. *)
Fixpoint digits (acc : Z) (s : string) : Z * string :=
  match s with
  | String c s' =>
      if is_digit c
      then digits (10 * acc + Z.of_nat (Ascii.nat_of_ascii c - 48)) s'
      else (acc, s)
  | EmptyString => (acc, s)
  end.

(** An unsigned integer numeral: 0, or digits that do not start with 0;
    not followed by a fraction or an exponent. *)
Definition unsigned (s : string) : option (Z * string) :=
  match s with
  | String c s2 =>
      if is_digit c then
        let '(z, rest) := digits 0 s in
        let leading_zero := Ascii.eqb c "0"%char && match s2 with
                                                    | String c2 _ => is_digit c2
                                                    | EmptyString => false
                                                    end in
        let more := match rest with
                    | String c3 _ => Ascii.eqb c3 "."%char || Ascii.eqb c3 "e"%char
                                     || Ascii.eqb c3 "E"%char
                    | EmptyString => false
                    end in
        if leading_zero || more then None else Some (z, rest)
      else None
  | EmptyString => None
  end.

(** An integer numeral: an optional minus sign, then an unsigned one. *)
Definition numeral (s : string) : option (Z * string) :=
  match s with
  | String c s' =>
      if Ascii.eqb c "-"%char
      then match unsigned s' with
           | Some (z, rest) => Some (- z, rest)
           | None => None
           end
      else unsigned s
  | EmptyString => None
  end.

Definition literal (word : string) (d : data) (s : string) : option (data * string) :=
  if String.prefix word s
  then Some (d, String.substring (String.length word) (String.length s - String.length word) s)
  else None.

Fixpoint value_ (fuel : nat) (s : string) {struct fuel} : option (data * string) :=
  match fuel with
  | O => None
  | S fuel =>
      match skip_ws s with
      | String c s' =>
          let n := Ascii.nat_of_ascii c in
          if (n =? 110)%nat then literal "null" Null (String c s')
          else if (n =? 116)%nat then literal "true" (Bool true) (String c s')
          else if (n =? 102)%nat then literal "false" (Bool false) (String c s')
          else if (n =? 34)%nat then
            match string_body s' with
            | Some (body, rest) => Some (Str body, rest)
            | None => None
            end
          else if (n =? 91)%nat then
            match skip_ws s' with
            | String c' rest =>
                if Ascii.eqb c' "]"%char then Some (Arr [], rest)
                else match elements fuel s' with
                     | Some (l, rest) => Some (Arr l, rest)
                     | None => None
                     end
            | EmptyString => None
            end
          else if (n =? 123)%nat then
            match skip_ws s' with
            | String c' rest =>
                if Ascii.eqb c' "}"%char then Some (Obj [], rest)
                else match members fuel [] s' with
                     | Some (l, rest) => Some (Obj l, rest)
                     | None => None
                     end
            | EmptyString => None
            end
          else
            match numeral (String c s') with
            | Some (z, rest) => Some (Num (Int z), rest)
            | None => None
            end
      | EmptyString => None
      end
  end
with elements (fuel : nat) (s : string) {struct fuel} : option (list data * string) :=
  match fuel with
  | O => None
  | S fuel =>
      match value_ fuel s with
      | Some (x, rest) =>
          match skip_ws rest with
          | String ","%char rest' =>
              match elements fuel rest' with
              | Some (l, rest'') => Some (x :: l, rest'')
              | None => None
              end
          | String "]"%char rest' => Some ([x], rest')
          | _ => None
          end
      | None => None
      end
  end
with members (fuel : nat) (acc : list (string * data)) (s : string) {struct fuel}
    : option (list (string * data) * string) :=
  match fuel with
  | O => None
  | S fuel =>
      match skip_ws s with
      | String c s' =>
          if (Ascii.nat_of_ascii c =? 34)%nat then
            match string_body s' with
            | Some (k, rest) =>
                match skip_ws rest with
                | String ":"%char rest' =>
                    match value_ fuel rest' with
                    | Some (v, rest'') =>
                        match skip_ws rest'' with
                        | String ","%char rest3 => members fuel (set_prop k v acc) rest3
                        | String "}"%char rest3 => Some (set_prop k v acc, rest3)
                        | _ => None
                        end
                    | None => None
                    end
                | _ => None
                end
            | None => None
            end
          else None
      | EmptyString => None
      end
  end.

Definition SyntaxError : exn := HostError "SyntaxError".

Definition parse (s : string) : outcome data :=
  match value_ (2 * String.length s + 2) s with
  | Some (d, rest) =>
      match skip_ws rest with
      | EmptyString => Ret d
      | _ => Throw SyntaxError
      end
  | None => Throw SyntaxError
  end.

(** A stand-in for the cipher: the ciphertext carries the key it was
    made with, and decrypting with another key raises. *)
Definition toy_sjcl : Sjcl :=
  {| sjcl_encrypt := fun key plain => "<" ++ key ++ ">" ++ plain;
     sjcl_decrypt := fun key ct =>
       if String.prefix ("<" ++ key ++ ">") ct
       then Ret (String.substring (String.length key + 2)
                   (String.length ct - (String.length key + 2)) ct)
       else Throw (HostError "CORRUPT") |}.

Definition host : Host :=
  {| toJson := fun d => Ret (stringify d); fromJson := parse; sjcl := Some toy_sjcl |}.

End Json.

(** ** Notions the statements use *)

(** The support flag has been probed and is positive. *)
Definition ready (s : State) : Prop := _supported (this s) = Some true.

(** What [_checkSupport()] answers in a state: the cached flag, or the
    outcome of the probe of the local storage. *)
Definition supportedb (s : State) : bool :=
  match _supported (this s) with
  | Some b => b
  | None => bool_decide (fault (localStorage (world s)) = None)
  end.

(** The state [_checkSupport()] leaves: the flag is cached, and a
    successful probe has written and removed the key ["l"] of the local
    storage. *)
Definition probe (s : State) : State :=
  match _supported (this s) with
  | Some _ => s
  | None =>
      if supportedb s
      then {| this := set_supported (Some true) (this s);
              world := set_storage Local
                         (set_items (delete "l" (items (localStorage (world s))))
                            (localStorage (world s))) (world s) |}
      else {| this := set_supported (Some false) (this s); world := world s |}
  end.

(** The entries of the storage the instance is bound to. *)
Definition driver_items (s : State) : gmap string string :=
  items (storage (_driver (this s)) (world s)).

(** What a call returns or throws, without the state. *)
Definition returned {A : Type} (r : result A) : outcome A :=
  match r with
  | Ok a _ => Ret a
  | Err e _ => Throw e
  end.

(** The six falsy values. *)
Definition falsy : list data :=
  [Str ""; Null; Undefined; Num (Int 0); Bool false; Num NaN].

(** ** States of the examples *)

Definition std_defaults : Defaults :=
  {| d_driver := "local"; d_namespace := "locker";
     d_eventsEnabled := true; d_separator := "." |}.

Definition a_storage (m : gmap string string) : Storage :=
  {| items := m; fault := None |}.

(** A world whose local storage holds [m], with one crypto-key slot. *)
Definition a_world (m : gmap string string) : World :=
  {| localStorage := a_storage m; sessionStorage := a_storage ∅;
     emitted := []; slots := [None]; scopes := ∅; next_watch := 0%nat;
     defaults := std_defaults |}.

(** A fresh instance on the local storage. *)
Definition a_locker (ns : string) : Locker :=
  {| _driver := Local; _namespace := ns; _eventsEnabled := true;
     _separator := "."; _watchers := ∅; _cryptoKey := 0%nat;
     _supported := None |}.

Definition a_state (ns : string) (m : gmap string string) : State :=
  {| this := a_locker ns; world := a_world m |}.



Definition broken_storage (m : gmap string string) : Storage :=
  {| items := m; fault := Some "QuotaExceededError" |}.



(** The configurations in which [all] recovers every logical key: the
    namespace is not empty and the separator is one character that the
    namespace does not contain. *)
Definition namespace_ok (l : Locker) : bool :=
  match _separator l with
  | String c EmptyString =>
      negb (String.eqb (_namespace l) "") &&
      forallb (fun x => negb (Ascii.eqb x c)) (list_ascii_of_string (_namespace l))
  | _ => false
  end.

(** A physical key belongs to the namespace of the instance: it is the
    prefixed form of some logical key. *)
Definition owned (l : Locker) (p : string) : bool :=
  if String.eqb (_namespace l) "" then true
  else String.prefix (_namespace l ++ _separator l) p.

(** The own keys of the storage the instance is bound to. *)
Definition physical_keys (s : State) : list string :=
  List.filter (fun k => own_property (driver_items s) k) (map_to_list (driver_items s)).*1.

(** The storages [angular.forEach] visits by name: those it does not
    take for an array and that hold no non-empty entry [forEach]. *)
Definition enumerable (m : gmap string string) : bool :=
  negb (arrayLike m) &&
  match m !! "forEach" with
  | Some (String _ _) => false
  | _ => true
  end.

(** The entry under a physical key, as an own property of the storage:
    none under an inherited name. *)
Definition seen (s : State) (p : string) : option string :=
  if inherited p then None else driver_items s !! p.

(** What the storage operations never touch: the instance apart from its
    support flag, the crypto-key slots, the scopes and the
    configuration. *)
Definition beyond_storage (s : State)
    : Locker * list (option string) * gmap string Scope * nat * Defaults :=
  (set_supported None (this s), slots (world s), scopes (world s),
   next_watch (world s), defaults (world s)).

(** A computation leaves a component of the state as it was, whether it
    returns or throws. *)
Definition keeps {A X : Type} (proj : State -> X) (m : M A) : Prop :=
  forall s, proj (final (m s)) = proj s.

(** The crypto-key slots. *)
Definition slots_of (s : State) : list (option string) := slots (world s).

(** A blank string: empty, or made of white space only. *)
Definition blank (k : string) : bool := forallb is_space (list_ascii_of_string k).

(** A slot holds null or a non-blank string. *)
Definition slot_ok (v : option string) : Prop :=
  match v with
  | None => True
  | Some k => blank k = false
  end.

Definition slots_ok (w : World) : Prop := Forall slot_ok (slots w).

(** The keys [setCryptoKey] ignores: a non-string, the empty string, a
    string of white space. *)
Definition rejected_key (key : data) : bool :=
  match key with
  | Str k => blank k
  | _ => true
  end.

(** The three ways to derive an instance from the current one. *)
Inductive derivation : Type :=
| ByInstance (driver namespace : string)
| ByDriver (driver : string)
| ByNamespace (namespace : string).

Definition derive (d : derivation) : M Locker :=
  match d with
  | ByInstance dr ns => instance dr ns
  | ByDriver dr => driver dr
  | ByNamespace ns => namespace ns
  end.

(** The same instance in another world. *)
Definition at_world (l : Locker) (w : World) : State := {| this := l; world := w |}.

(** The expressions the scope capability stands for: an identifier (a
    letter or an underscore, then letters, digits, underscores and
    dollar signs) that is not a literal of the expression language
    ([true], [false], [null], [undefined], [this]) and not a member name
    that AngularJS refuses in an expression.  The names that start with
    a dollar sign are AngularJS's own members of a scope. *)
Definition ident_start (c : ascii) : bool :=
  let n := Ascii.nat_of_ascii c in
  ((65 <=? n) && (n <=? 90) || (97 <=? n) && (n <=? 122) || (n =? 95))%nat.

Definition ident_part (c : ascii) : bool :=
  let n := Ascii.nat_of_ascii c in
  ident_start c || ((48 <=? n) && (n <=? 57) || (n =? 36))%nat.

Definition plain_name (index : string) : bool :=
  match index with
  | String c rest =>
      ident_start c && forallb ident_part (list_ascii_of_string rest) &&
      negb (bool_decide (index ∈ ["true"; "false"; "null"; "undefined"; "this";
                                  "constructor"; "__proto__"; "__defineGetter__";
                                  "__defineSetter__"; "__lookupGetter__";
                                  "__lookupSetter__"]))
  | EmptyString => false
  end.


(** An instance that holds a key. *)
Definition a_keyed_state : State :=
  final (setCryptoKey (Str "s3cret") (a_state "ns" {[ "ns.a" := "<s3cret>1" ]})).

(** ** The values the JSON host carries faithfully *)

(** The values that JSON text carries faithfully: no undefined and no
    NaN anywhere, and objects whose property names are distinct and do
    not start with [$$]. *)
Fixpoint plain (v : data) : Prop :=
  match v with
  | Undefined | Num NaN => False
  | Null | Bool _ | Num (Int _) | Str _ => True
  | Arr l => (fix all (l : list data) : Prop :=
                match l with
                | [] => True
                | x :: l' => plain x /\ all l'
                end) l
  | Obj l => NoDup (List.map fst l) /\
             (fix all (l : list (string * data)) : Prop :=
                match l with
                | [] => True
                | (k, x) :: l' => Json.dollar2 k = false /\ plain x /\ all l'
                end) l
  end.

(** The fuel that parsing the text of a value takes. *)
Fixpoint weight (v : data) : nat :=
  match v with
  | Arr l => S ((fix sum (l : list data) : nat :=
                   match l with
                   | [] => O
                   | x :: l' => S (weight x + sum l')
                   end) l)
  | Obj l => S ((fix sum (l : list (string * data)) : nat :=
                   match l with
                   | [] => O
                   | (_, x) :: l' => S (weight x + sum l')
                   end) l)
  | _ => 1%nat
  end.

(** The text after a numeral does not continue it. *)
Definition stops (rest : string) : bool :=
  match rest with
  | String c _ =>
      negb (Json.is_digit c) && negb (Ascii.eqb c "."%char)
      && negb (Ascii.eqb c "e"%char) && negb (Ascii.eqb c "E"%char)
  | EmptyString => true
  end.

(** The characters a JSON value starts with. *)
Definition starts (c : ascii) : bool :=
  let n := Ascii.nat_of_ascii c in
  ((n =? 110) || (n =? 116) || (n =? 102) || (n =? 34) || (n =? 91) || (n =? 123)
   || (n =? 45))%nat || Json.is_digit c.

(** The text of a value, and that parsing it gives the value back,
    whatever follows it. *)
Definition parses (v : data) : Prop :=
  exists t, Json.stringify v = Some t /\
    forall fuel rest, (weight v <= fuel)%nat -> stops rest = true ->
      Json.value_ fuel (t ++ rest) = Some (v, rest).

(** The texts of the elements of an array and of the properties of an
    object, and the fuel a list of them takes. *)
Definition texts (l : list data) : list string :=
  List.map (fun x => default "null" (Json.stringify x)) l.

Definition member_texts (l : list (string * data)) : list string :=
  List.map (fun kv => Json.quote (fst kv) ++ ":" ++ default "null" (Json.stringify (snd kv))) l.

Definition weights (l : list data) : nat :=
  fold_right (fun x n => S (weight x + n)) O l.

Definition member_weights (l : list (string * data)) : nat :=
  fold_right (fun kv n => S (weight (snd kv) + n)) O l.

(** The fuel a value takes is bounded by the length of its text. *)
Definition bounded (v : data) : Prop :=
  forall t, Json.stringify v = Some t -> (S (weight v) <= 2 * String.length t)%nat.

(** ** Notions of the further properties *)

(** The calls that only read. *)
Definition reads (c : call) : bool :=
  match c with
  | CallGet _ _ _ _ | CallHas _ | CallAll | CallCount | CallGetDriver | CallGetNamespace => true
  | _ => false
  end.

(** The events flag of the instance and, when it is off, the events
    emitted so far. *)
Definition silenced (s : State) : bool * list Event :=
  (_eventsEnabled (this s), if _eventsEnabled (this s) then [] else emitted (world s)).

(** What makes an instance the instance it is: the storage it is bound
    to, its namespace, its events flag, its separator and its crypto-key
    slot. *)
Definition configuration (s : State) : backend * string * bool * string * nat :=
  (_driver (this s), _namespace (this s), _eventsEnabled (this s), _separator (this s),
   _cryptoKey (this s)).

(** What the storage members read and write: the instance without its
    watchers, the storages, the events and the crypto-key slots. *)
Definition storage_view (s : State)
    : Locker * Storage * Storage * list Event * list (option string) :=
  (set_watchers ∅ (this s), localStorage (world s), sessionStorage (world s),
   emitted (world s), slots (world s)).

(** ** States of the further examples *)

(** An instance on the session storage, which is full; the local
    storage is in order. *)
Definition a_full_session_state : State :=
  {| this := {| _driver := Session; _namespace := "ns"; _eventsEnabled := true;
                _separator := "."; _watchers := ∅; _cryptoKey := 0%nat;
                _supported := None |};
     world := {| localStorage := a_storage ∅; sessionStorage := broken_storage ∅;
                 emitted := []; slots := [None]; scopes := ∅; next_watch := 0%nat;
                 defaults := std_defaults |} |}.

(** An instance whose events are disabled. *)
Definition a_quiet_state : State :=
  {| this := {| _driver := Local; _namespace := "ns"; _eventsEnabled := false;
                _separator := "."; _watchers := ∅; _cryptoKey := 0%nat;
                _supported := None |};
     world := a_world {[ "ns.a" := "1" ]} |}.

(** An instance without a namespace. *)
Definition a_bare_state : State :=
  {| this := {| _driver := Local; _namespace := ""; _eventsEnabled := true;
                _separator := "."; _watchers := ∅; _cryptoKey := 0%nat;
                _supported := None |};
     world := a_world {[ "a" := "1"; ".b" := "2" ]} |}.

(** An instance that holds a key, over an entry that was stored in the
    clear. *)
Definition a_keyed_plain_state : State :=
  final (setCryptoKey (Str "s3cret") (a_state "ns" {[ "ns.a" := "1" ]})).

(** The world after the provider has been configured. *)
Definition a_configured_world : World :=
  set_defaults {| d_driver := "session"; d_namespace := "app";
                  d_eventsEnabled := false; d_separator := "-" |} (a_world ∅).

(** ** Closed forms of the private members *)

Section Notions.

Variable host : Host.

Definition present (s : State) (key : data) : bool :=
  own_property (driver_items s) (_getPrefix (this s) key).

Definition raw (s : State) (key : data) : data :=
  match driver_items s !! _getPrefix (this s) key with
  | Some v => Str v
  | None => Null
  end.

Definition decrypt_item (s : State) (encrypted : bool) (finalValue : data) : outcome data :=
  match sjcl host, cryptoKey_value s with
  | Some cipher, Some k =>
      if encrypted && truthy_key (cryptoKey_value s) && truthy finalValue
      then match sjcl_decrypt cipher k (ToString finalValue) with
           | Ret plain => Ret (Str plain)
           | Throw e => Throw e
           end
      else Ret finalValue
  | _, _ => Ret finalValue
  end.

Definition encrypt_item (s : State) (encrypted : bool) (serializedValue : data) : data :=
  match sjcl host, cryptoKey_value s with
  | Some cipher, Some k =>
      if encrypted && truthy_key (cryptoKey_value s) && truthy serializedValue
      then Str (sjcl_encrypt cipher k (ToString serializedValue))
      else serializedValue
  | _, _ => serializedValue
  end.

Definition tagged (l : Locker) (payload : list (string * data)) : list (string * data) :=
  extend payload [("driver", opt_str (_deriveDriver (_driver l))); ("namespace", Str (_namespace l))].

Definition announce (name : string) (payload : list (string * data)) (s : State) : State :=
  if _eventsEnabled (this s)
  then {| this := this s;
          world := set_emitted (emitted (world s) ++
                     [{| ev_name := name; ev_payload := tagged (this s) payload |}]) (world s) |}
  else s.

Definition written (key : data) (v : string) (s : State) : State :=
  {| this := this s;
     world := set_storage (_driver (this s))
                (set_items (<[_getPrefix (this s) key := v]> (driver_items s))
                   (storage (_driver (this s)) (world s))) (world s) |}.

Definition removed (key : data) (s : State) : State :=
  {| this := this s;
     world := set_storage (_driver (this s))
                (set_items (delete (_getPrefix (this s) key) (driver_items s))
                   (storage (_driver (this s)) (world s))) (world s) |}.

(** The event a write ends with. *)
Definition write_event (s : State) (key value : data) (encrypted : bool) : State -> State :=
  let oldVal := _unserialize host (raw s key) in
  let finalValue := encrypt_item s encrypted (_serialize host value) in
  if negb (inherited (_getPrefix (this s) key)) && negb (equals oldVal finalValue)
  then announce "locker.item.updated"
         [("key", key); ("oldValue", oldVal); ("newValue", finalValue)]
  else announce "locker.item.added" [("key", key); ("value", value)].

Definition write_error (name : string) (key : data) : exn :=
  if bool_decide (name ∈ quota_names) then QuotaExceeded else WriteFailed key.

(** A computation that starts by asserting support. *)
Definition guarded {A : Type} (m : M A) : Prop :=
  forall s, m s = if supportedb s then m (probe s) else Err UnsupportedBackend (probe s).

Definition get_default (argc : nat) (def : data) : data :=
  if bool_decide (argc ∈ [2; 3]%nat) then def else Undefined.

Definition decoded (s : State) (k : string) : option data :=
  (fun r => _unserialize host (Str r)) <$> seen s (_getPrefix (this s) (Str k)).

Fixpoint collect (s : State) (names : list string) (acc : object) : object :=
  match names with
  | [] => acc
  | k :: names' =>
      collect s names' (match decoded s k with
                        | Some v => assign k v acc
                        | None => acc
                        end)
  end.

(** What reading an existing key through the cipher gives: the decoded
    value or the exception of the cipher; [None] when the key is absent. *)
Definition decoded_as (s : State) (encrypted : bool) (k : string) : option (outcome data) :=
  (fun r => match decrypt_item s encrypted (Str r) with
            | Ret item => Ret (_unserialize host item)
            | Throw e => Throw e
            end) <$> seen s (_getPrefix (this s) (Str k)).

(** The object [get] builds from a list of keys, or the first exception. *)
Fixpoint collect_as (s : State) (encrypted : bool) (names : list string)
    (acc : object) : outcome object :=
  match names with
  | [] => Ret acc
  | k :: names' =>
      match decoded_as s encrypted k with
      | None => collect_as s encrypted names' acc
      | Some (Ret v) => collect_as s encrypted names' (assign k v acc)
      | Some (Throw e) => Throw e
      end
  end.

(** A value is JSON-safe for the host when it is defined and its JSON
    text decodes to it. *)
Definition json_safe (v : data) : Prop :=
  v <> Undefined /\
  exists text, toJson host v = Ret (Some text) /\ fromJson host text = Ret v.

(** Encryption cannot take place: the host has no cipher, or the
    instance has no crypto key. *)
Definition no_cipher (s : State) : Prop := sjcl host = None \/ cryptoKey_value s = None.

End Notions.

(** * Properties *)

Section Facts.

Variable host : Host.

Ltac munfold :=
  unfold mbind, M_bind, mret, M_ret, gets, modify_this, modify_world, throw, try_catch, _error in *.

Lemma set_supported_same (l : Locker) : set_supported (_supported l) l = l.
Proof. destruct l; reflexivity. Qed.

(** *** Own properties of a storage *)

Lemma own_property_Some (m : gmap string string) (k v : string) :
  m !! k = Some v -> own_property m k = negb (inherited k).
Proof. intros H. unfold own_property. rewrite bool_decide_eq_true_2 by eauto. reflexivity. Qed.

Lemma own_property_None (m : gmap string string) (k : string) :
  m !! k = None -> own_property m k = false.
Proof.
  intros H. unfold own_property.
  rewrite bool_decide_eq_false_2 by (rewrite H; intros [? ?]; discriminate). reflexivity.
Qed.

Lemma own_property_inherited (m : gmap string string) (k : string) :
  inherited k = true -> own_property m k = false.
Proof. intros H. unfold own_property. rewrite H. apply andb_false_r. Qed.

Lemma own_property_seen (s : State) (p : string) :
  own_property (driver_items s) p = bool_decide (is_Some (seen s p)).
Proof.
  unfold own_property, seen. destruct (inherited p).
  - rewrite andb_false_r. symmetry. apply bool_decide_eq_false_2. intros [? ?]; discriminate.
  - apply andb_true_r.
Qed.

Lemma seen_Some (s : State) (p r : string) :
  seen s p = Some r <-> inherited p = false /\ driver_items s !! p = Some r.
Proof.
  unfold seen. destruct (inherited p); split; intros H; try discriminate.
  - destruct H; discriminate.
  - split; [reflexivity|exact H].
  - apply H.
Qed.

Lemma seen_visible (s : State) (p : string) :
  inherited p = false -> seen s p = driver_items s !! p.
Proof. unfold seen. intros ->. reflexivity. Qed.

Lemma present_seen (s : State) (key : data) :
  present s key = bool_decide (is_Some (seen s (_getPrefix (this s) key))).
Proof. apply own_property_seen. Qed.

Lemma checkSupport_spec (s : State) :
  _checkSupport None s = Ok (supportedb s) (probe s).
Proof.
  destruct s as [l w]. unfold _checkSupport, probe, supportedb. munfold. simpl.
  destruct (_supported l) as [b|] eqn:E; simpl.
  - rewrite E. reflexivity.
  - unfold setItem, removeItem. munfold. simpl.
    destruct (fault (localStorage w)) as [name|] eqn:F; simpl.
    + reflexivity.
    + rewrite delete_insert_eq. reflexivity.
Qed.

Lemma assert_supported_spec (s : State) :
  assert_supported s =
  if supportedb s then Ok tt (probe s) else Err UnsupportedBackend (probe s).
Proof.
  unfold assert_supported. munfold. rewrite checkSupport_spec.
  destruct (supportedb s); reflexivity.
Qed.

Lemma probe_ready (s : State) : ready s -> probe s = s.
Proof. unfold ready, probe. intros ->. reflexivity. Qed.

Lemma supportedb_ready (s : State) : ready s -> supportedb s = true.
Proof. unfold ready, supportedb. intros ->. reflexivity. Qed.

Lemma ready_probe (s : State) : supportedb s = true -> ready (probe s).
Proof.
  unfold ready, probe, supportedb. destruct (_supported (this s)) as [b|] eqn:E.
  - intros ->. exact E.
  - intros ->. reflexivity.
Qed.

Lemma assert_supported_ready (s : State) : ready s -> assert_supported s = Ok tt s.
Proof.
  intros H. rewrite assert_supported_spec, supportedb_ready, probe_ready; auto.
Qed.


Lemma state_eta (s : State) : {| this := this s; world := world s |} = s.
Proof. destruct s; reflexivity. Qed.

Lemma event_spec name payload s : _event name payload s = Ok tt (announce name payload s).
Proof.
  unfold _event, announce, emit, tagged. munfold. cbn beta.
  destruct (_eventsEnabled (this s)); reflexivity.
Qed.

Lemma exists_ready key s :
  ready s -> _exists key s = Ok (present s (_value key Undefined)) s.
Proof.
  intros H. unfold _exists, hasOwnProperty. munfold. cbn beta.
  rewrite assert_supported_ready by exact H. reflexivity.
Qed.

Lemma getItem_ready key encrypted s :
  ready s ->
  _getItem host key encrypted s =
  match decrypt_item host s encrypted (raw s key) with
  | Ret item => Ok (_unserialize host item) s
  | Throw e => Err e s
  end.
Proof.
  intros H. unfold _getItem, getItem, decrypt_item, raw, driver_items. munfold. cbn beta.
  rewrite assert_supported_ready by exact H. cbn beta iota.
  destruct (sjcl host) as [cipher|]; [|reflexivity].
  destruct (cryptoKey_value s) as [k|] eqn:Ek; [|reflexivity].
  match goal with |- context [if ?b then _ else _] => destruct b end; [|reflexivity].
  match goal with |- context [sjcl_decrypt ?c ?k ?x] => destruct (sjcl_decrypt c k x) end;
    reflexivity.
Qed.

Lemma decrypt_item_plain s v : decrypt_item host s false v = Ret v.
Proof.
  unfold decrypt_item. destruct (sjcl host); [|reflexivity].
  destruct (cryptoKey_value s) eqn:E; reflexivity.
Qed.

Lemma getItem_plain key s :
  ready s -> _getItem host key false s = Ok (_unserialize host (raw s key)) s.
Proof. intros H. rewrite getItem_ready, decrypt_item_plain by exact H. reflexivity. Qed.

Lemma storage_set_storage b st w : storage b (set_storage b st w) = st.
Proof. destruct b; reflexivity. Qed.

Lemma driver_items_written key v s :
  driver_items (written key v s) = <[_getPrefix (this s) key := v]> (driver_items s).
Proof. unfold driver_items, written. simpl. rewrite storage_set_storage. reflexivity. Qed.

Lemma driver_items_removed key s :
  driver_items (removed key s) = delete (_getPrefix (this s) key) (driver_items s).
Proof. unfold driver_items, removed. simpl. rewrite storage_set_storage. reflexivity. Qed.

Lemma present_written key v s :
  present (written key v s) key = negb (inherited (_getPrefix (this s) key)).
Proof.
  unfold present. rewrite driver_items_written.
  apply (own_property_Some _ _ v), lookup_insert_eq.
Qed.

Lemma ready_written key v s : ready s -> ready (written key v s).
Proof. intros H; exact H. Qed.

Lemma setItem_ready key value encrypted s :
  ready s ->
  _setItem host key value encrypted s =
  match fault (storage (_driver (this s)) (world s)) with
  | Some name => Err (write_error name key) s
  | None =>
      Ok tt (write_event host s key value encrypted
               (written key (ToString (encrypt_item host s encrypted (_serialize host value))) s))
  end.
Proof.
  intros H. unfold _setItem. munfold. cbn beta.
  rewrite assert_supported_ready by exact H. cbn beta iota.
  rewrite getItem_plain by exact H. cbn beta iota.
  fold (encrypt_item host s encrypted (_serialize host value)).
  set (fv := encrypt_item host s encrypted (_serialize host value)).
  unfold setItem at 1.
  destruct (fault (storage (_driver (this s)) (world s))) as [name|] eqn:F.
  - cbn beta iota. unfold write_error. simpl.
    destruct (bool_decide (name ∈ quota_names)); reflexivity.
  - cbn beta iota. fold (driver_items s). fold (written key (ToString fv) s).
    rewrite exists_ready by (apply ready_written; exact H).
    cbn beta iota. change (_value (Val key) Undefined) with key. rewrite present_written.
    unfold write_event. fold fv.
    destruct (negb (inherited (_getPrefix (this s) key)) &&
              negb (equals (_unserialize host (raw s key)) fv));
      rewrite event_spec; reflexivity.
Qed.

Lemma removeItem_ready key s :
  ready s ->
  _removeItem key s =
  if present s key
  then Ok true (announce "locker.item.forgotten" [("key", key)] (removed key s))
  else Ok false s.
Proof.
  intros H. unfold _removeItem. munfold. cbn beta.
  rewrite assert_supported_ready by exact H. cbn beta iota.
  rewrite exists_ready by exact H. cbn beta iota.
  change (_value (Val key) Undefined) with key.
  destruct (present s key); cbn [negb]; cbn beta iota; [|reflexivity].
  unfold removeItem. munfold. cbn beta iota.
  fold (driver_items s). fold (removed key s).
  rewrite event_spec. reflexivity.
Qed.

Lemma guarded_assert {A : Type} (rest : M A) : guarded (assert_supported;; rest).
Proof.
  intros s. munfold. rewrite assert_supported_spec.
  destruct (supportedb s) eqn:E; [|reflexivity].
  rewrite assert_supported_ready by (apply ready_probe; exact E). reflexivity.
Qed.

Lemma guarded_bind {A B : Type} (m : M A) (f : A -> M B) :
  guarded m -> guarded (m ≫= f).
Proof.
  intros H s. munfold. rewrite (H s). destruct (supportedb s); reflexivity.
Qed.

Lemma guarded_exists key : guarded (_exists key).
Proof. apply guarded_assert. Qed.

Lemma guarded_getItem key encrypted : guarded (_getItem host key encrypted).
Proof. apply guarded_assert. Qed.

Lemma guarded_setItem key value encrypted : guarded (_setItem host key value encrypted).
Proof. apply guarded_assert. Qed.

Lemma guarded_removeItem key : guarded (_removeItem key).
Proof. apply guarded_assert. Qed.

Lemma guarded_forEach {A : Type} (x : A) (l : list A) (f : A -> M unit) :
  guarded (f x) -> guarded (forEach (x :: l) f).
Proof. intros H. simpl. apply guarded_bind, H. Qed.

Lemma guarded_foldM {A B : Type} (f : B -> A -> M B) (x : A) (l : list A) (acc : B) :
  guarded (f acc x) -> guarded (foldM f (x :: l) acc).
Proof. intros H. simpl. apply guarded_bind, H. Qed.

Lemma guarded_has key : guarded (has key).
Proof. apply guarded_exists. Qed.

Lemma guarded_get argc key def encrypted :
  key <> Arr [] -> guarded (get host argc key def encrypted).
Proof.
  intros H. unfold get.
  destruct key as [| | | | |ks|]; try (apply guarded_bind, guarded_has).
  destruct ks as [|k ks]; [congruence|].
  apply guarded_bind, guarded_foldM, guarded_bind, guarded_has.
Qed.

Lemma guarded_forget key :
  _value key Undefined <> Arr [] -> guarded (forget key).
Proof.
  intros H. unfold forget.
  destruct (_value key Undefined) as [| | | | |ks|]; try (apply guarded_bind, guarded_removeItem).
  destruct ks as [|k ks]; [congruence|].
  apply guarded_forEach, guarded_bind, guarded_removeItem.
Qed.

Lemma guarded_pull key def encrypted :
  key <> Arr [] -> guarded (pull host key def encrypted).
Proof. intros H. apply guarded_bind, guarded_get, H. Qed.

Lemma guarded_add key value encrypted : guarded (add host key value encrypted).
Proof. apply guarded_bind, guarded_has. Qed.

Lemma guarded_put key value encrypted :
  truthy_value key = true ->
  (if isObject (_value key Undefined)
   then exists kv l, entries (_value key Undefined) = Ret (kv :: l)
   else isDefined_value value = true) ->
  guarded (put host key value encrypted).
Proof.
  intros H1 H2. unfold put. rewrite H1. cbn [negb].
  destruct (isObject (_value key Undefined)).
  - destruct H2 as (kv & l & ->).
    apply guarded_bind, guarded_forEach, guarded_setItem.
  - rewrite H2. cbn [negb]. apply guarded_bind, guarded_getItem.
Qed.

Lemma all_unfold s :
  all host s =
  match visits (driver_items s) with
  | Throw e => Err e s
  | Ret keys => foldM (all_step host) keys empty_object s
  end.
Proof.
  unfold all, driver_items. munfold. cbn beta.
  destruct (visits (items (storage (_driver (this s)) (world s)))); reflexivity.
Qed.

(** *** What the probe leaves alone *)

Lemma probe_this (s : State) :
  this (probe s) = set_supported (Some (supportedb s)) (this s).
Proof.
  unfold probe, supportedb. destruct (_supported (this s)) as [b|] eqn:E.
  - rewrite <- E. symmetry. apply set_supported_same.
  - destruct (bool_decide (fault (localStorage (world s)) = None)); reflexivity.
Qed.

Lemma getPrefix_set_supported b l key : _getPrefix (set_supported b l) key = _getPrefix l key.
Proof. reflexivity. Qed.

Lemma probe_getPrefix s key : _getPrefix (this (probe s)) key = _getPrefix (this s) key.
Proof. rewrite probe_this. reflexivity. Qed.

Lemma probe_driver s : _driver (this (probe s)) = _driver (this s).
Proof. rewrite probe_this. reflexivity. Qed.

Lemma probe_eventsEnabled s : _eventsEnabled (this (probe s)) = _eventsEnabled (this s).
Proof. rewrite probe_this. reflexivity. Qed.

Lemma probe_emitted s : emitted (world (probe s)) = emitted (world s).
Proof.
  unfold probe. destruct (_supported (this s)); [reflexivity|].
  destruct (supportedb s); reflexivity.
Qed.

Lemma probe_slots s : slots (world (probe s)) = slots (world s).
Proof.
  unfold probe. destruct (_supported (this s)); [reflexivity|].
  destruct (supportedb s); reflexivity.
Qed.

Lemma probe_cryptoKey_value s : cryptoKey_value (probe s) = cryptoKey_value s.
Proof. unfold cryptoKey_value. rewrite probe_slots, probe_this. reflexivity. Qed.

Lemma probe_fault s b : fault (storage b (world (probe s))) = fault (storage b (world s)).
Proof.
  unfold probe. destruct (_supported (this s)); [reflexivity|].
  destruct (supportedb s); [|reflexivity]. destruct b; reflexivity.
Qed.

Lemma probe_items s b p :
  items (storage b (world (probe s))) !! p =
  if bool_decide (_supported (this s) = None) && supportedb s
     && backend_eqb b Local && String.eqb p "l"
  then None
  else items (storage b (world s)) !! p.
Proof.
  unfold probe. destruct (_supported (this s)) as [x|] eqn:E; [reflexivity|].
  cbn [bool_decide andb]. rewrite bool_decide_eq_true_2 by reflexivity. cbn [andb].
  destruct (supportedb s); [|reflexivity]. cbn [andb].
  destruct b; [|reflexivity]. cbn [backend_eqb andb world storage set_storage localStorage set_items items].
  destruct (String.eqb p "l") eqn:P.
  - apply String.eqb_eq in P. subst p. apply lookup_delete_eq.
  - apply String.eqb_neq in P. apply lookup_delete_ne. congruence.
Qed.

Lemma probe_driver_items s p :
  driver_items (probe s) !! p =
  if bool_decide (_supported (this s) = None) && supportedb s
     && backend_eqb (_driver (this s)) Local && String.eqb p "l"
  then None
  else driver_items s !! p.
Proof. unfold driver_items. rewrite probe_driver. apply probe_items. Qed.

Lemma probe_driver_items_None s p :
  driver_items s !! p = None -> driver_items (probe s) !! p = None.
Proof.
  intros H. rewrite probe_driver_items, H.
  match goal with |- (if ?b then _ else _) = _ => destruct b end; reflexivity.
Qed.

Lemma probe_driver_items_ne s p :
  p <> "l" -> driver_items (probe s) !! p = driver_items s !! p.
Proof.
  intros H. rewrite probe_driver_items.
  apply String.eqb_neq in H. rewrite H, andb_false_r. reflexivity.
Qed.

(** *** [get] on one key *)

Lemma get_ready argc key def encrypted s :
  ready s -> isArray key = false ->
  get host argc key def encrypted s =
  if present s key
  then match decrypt_item host s encrypted (raw s key) with
       | Ret item => Ok (Single (_unserialize host item)) s
       | Throw e => Err e s
       end
  else Ok (Single (get_default argc def)) s.
Proof.
  intros H Hk.
  assert (E : get host argc key def encrypted s =
              (present ← has (Val key);
               if negb present then mret (Single (get_default argc def))
               else v ← _getItem host key encrypted; mret (Single v)) s)
    by (destruct key; try reflexivity; discriminate).
  rewrite E. unfold has. munfold. cbn beta.
  rewrite exists_ready by exact H. cbn beta iota.
  change (_value (Val key) Undefined) with key.
  destruct (present s key); cbn [negb]; cbn beta iota; [|reflexivity].
  rewrite getItem_ready by exact H.
  destruct (decrypt_item host s encrypted (raw s key)); reflexivity.
Qed.

Lemma present_probe_absent s key :
  driver_items s !! _getPrefix (this s) key = None -> present (probe s) key = false.
Proof.
  intros H. unfold present. rewrite probe_getPrefix.
  apply own_property_None, probe_driver_items_None, H.
Qed.

Lemma get_absent argc key def encrypted s :
  supportedb s = true -> isArray key = false ->
  driver_items s !! _getPrefix (this s) key = None ->
  get host argc key def encrypted s = Ok (Single (get_default argc def)) (probe s).
Proof.
  intros Hs Hk Ha.
  rewrite guarded_get by (destruct key; discriminate || congruence).
  rewrite Hs. rewrite get_ready by (auto using ready_probe).
  rewrite present_probe_absent by exact Ha. reflexivity.
Qed.

(** *** Assignment to the object under construction *)

Lemma own_assign (k k' : string) (v : data) (o : object) :
  k <> "__proto__" -> own (assign k' v o) !! k = <[k' := v]> (own o) !! k.
Proof.
  intros Hk. unfold assign.
  destruct (String.eqb k' "__proto__" && reaches_setter o) eqn:E; [|reflexivity].
  apply andb_true_iff in E as [E _]. apply String.eqb_eq in E. subst k'.
  rewrite lookup_insert_ne by congruence. destruct v; reflexivity.
Qed.

Lemma own_assign_proto (k' : string) (v : data) (o : object) :
  own (assign k' v o) !! "__proto__" = own o !! "__proto__" \/
  (k' = "__proto__" /\ own (assign k' v o) !! "__proto__" = Some v).
Proof.
  unfold assign.
  destruct (String.eqb k' "__proto__" && reaches_setter o) eqn:E.
  - left. destruct v; reflexivity.
  - cbn [own]. destruct (decide (k' = "__proto__")) as [->|N].
    + right. split; [reflexivity|apply lookup_insert_eq].
    + left. apply lookup_insert_ne. exact N.
Qed.

Lemma own_assign_other (k : string) (v : data) (o : object) :
  k <> "__proto__" -> own (assign k v o) = <[k := v]> (own o).
Proof.
  intros Hk. unfold assign. apply String.eqb_neq in Hk. rewrite Hk. reflexivity.
Qed.

(** *** Collecting the existing keys of a list *)

Lemma collect_lookup s names acc k :
  k <> "__proto__" ->
  own (collect host s names acc) !! k =
  match (if decide (k ∈ names) then decoded host s k else None) with
  | Some v => Some v
  | None => own acc !! k
  end.
Proof.
  intros Hk. revert acc. induction names as [|n names IH]; intros acc; cbn [collect].
  - rewrite decide_False by apply not_elem_of_nil. reflexivity.
  - rewrite IH. destruct (decide (k = n)) as [->|Hne].
    + rewrite (decide_True (P := n ∈ n :: names)) by apply list_elem_of_here.
      destruct (decoded host s n) as [v|] eqn:D.
      * rewrite own_assign by exact Hk. rewrite lookup_insert_eq.
        destruct (decide (n ∈ names)); reflexivity.
      * destruct (decide (n ∈ names)); reflexivity.
    + destruct (decide (k ∈ names)) as [Hin|Hnin].
      * rewrite (decide_True (P := k ∈ n :: names)) by (apply list_elem_of_further; exact Hin).
        destruct (decoded host s k); [reflexivity|].
        destruct (decoded host s n); [|reflexivity].
        rewrite own_assign by exact Hk. apply lookup_insert_ne; congruence.
      * rewrite (decide_False (P := k ∈ n :: names))
          by (intros [?|?]%elem_of_cons; [congruence|contradiction]).
        destruct (decoded host s n); [|reflexivity].
        rewrite own_assign by exact Hk. apply lookup_insert_ne; congruence.
Qed.

Lemma collect_lookup_empty s names k :
  k <> "__proto__" ->
  own (collect host s names empty_object) !! k =
  if decide (k ∈ names) then decoded host s k else None.
Proof.
  intros Hk. rewrite collect_lookup by exact Hk. cbn [own empty_object]. rewrite lookup_empty.
  destruct (if decide (k ∈ names) then decoded host s k else None); reflexivity.
Qed.

(** Every own property of the collected object is an own property of
    the object it started from, or a listed key with its decoded value. *)
Lemma collect_only s names acc k v :
  own (collect host s names acc) !! k = Some v ->
  own acc !! k = Some v \/ (k ∈ names /\ decoded host s k = Some v).
Proof.
  revert acc. induction names as [|n names IH]; intros acc; cbn [collect]; [auto|].
  intros H. destruct (IH _ H) as [H'|[Hin D]].
  - destruct (decoded host s n) as [x|] eqn:D; [|auto].
    destruct (decide (k = "__proto__")) as [->|Hk].
    + destruct (own_assign_proto n x acc) as [E|[-> E]]; rewrite E in H'.
      * auto.
      * right. split; [apply list_elem_of_here|]. congruence.
    + rewrite own_assign in H' by exact Hk.
      destruct (decide (n = k)) as [->|Hne].
      * rewrite lookup_insert_eq in H'. right. split; [apply list_elem_of_here|]. congruence.
      * rewrite lookup_insert_ne in H' by exact Hne. auto.
  - right. split; [apply list_elem_of_further, Hin|exact D].
Qed.

Lemma present_decoded s key :
  present s key = bool_decide (is_Some (decoded host s (ToString key))).
Proof.
  rewrite present_seen. unfold decoded. change (_getPrefix (this s) (Str (ToString key)))
    with (_getPrefix (this s) key).
  apply bool_decide_ext. rewrite fmap_is_Some. reflexivity.
Qed.

Lemma raw_seen s key r :
  seen s (_getPrefix (this s) key) = Some r -> raw s key = Str r.
Proof. intros H. apply seen_Some in H as [_ H]. unfold raw. rewrite H. reflexivity. Qed.

Lemma getItem_decoded s key v :
  ready s -> decoded host s (ToString key) = Some v ->
  _getItem host key false s = Ok v s.
Proof.
  intros H D. rewrite getItem_plain by exact H. unfold decoded in D.
  change (_getPrefix (this s) (Str (ToString key))) with (_getPrefix (this s) key) in D.
  destruct (seen s (_getPrefix (this s) key)) as [r|] eqn:E; simpl in D; [|discriminate].
  rewrite (raw_seen _ _ _ E). congruence.
Qed.

Lemma decoded_as_present s e key :
  present s key = bool_decide (is_Some (decoded_as host s e (ToString key))).
Proof.
  rewrite present_seen. unfold decoded_as. change (_getPrefix (this s) (Str (ToString key)))
    with (_getPrefix (this s) key).
  apply bool_decide_ext. rewrite fmap_is_Some. reflexivity.
Qed.

Lemma get_step_ready (e : bool) (acc : object) (k : data) s :
  ready s ->
  (present ← has (Val k);
   if (present : bool)
   then v ← _getItem host k e; mret (assign (ToString k) v acc)
   else mret acc) s =
  match decoded_as host s e (ToString k) with
  | None => Ok acc s
  | Some (Ret v) => Ok (assign (ToString k) v acc) s
  | Some (Throw x) => Err x s
  end.
Proof.
  intros H. unfold has. munfold. cbn beta.
  rewrite exists_ready by exact H. cbn beta iota.
  change (_value (Val k) Undefined) with k. rewrite (decoded_as_present s e).
  unfold decoded_as. change (_getPrefix (this s) (Str (ToString k)))
    with (_getPrefix (this s) k).
  destruct (seen s (_getPrefix (this s) k)) as [r|] eqn:D; cbn [fmap option_fmap option_map].
  - rewrite bool_decide_eq_true_2 by eauto. cbn iota beta.
    rewrite getItem_ready by exact H. rewrite (raw_seen _ _ _ D).
    destruct (decrypt_item host s e (Str r)); reflexivity.
  - rewrite bool_decide_eq_false_2 by (intros [? ?]; discriminate). reflexivity.
Qed.

Lemma get_fold_ready (e : bool) (ks : list data) (acc : object) s :
  ready s ->
  foldM (fun (items : object) (k : data) =>
           present ← has (Val k);
           if (present : bool)
           then v ← _getItem host k e; mret (assign (ToString k) v items)
           else mret items) ks acc s =
  match collect_as host s e (ToString <$> ks) acc with
  | Ret m => Ok m s
  | Throw x => Err x s
  end.
Proof.
  intros H. revert acc. induction ks as [|k ks IH]; intros acc; [reflexivity|].
  cbn [foldM fmap list_fmap collect_as]. unfold mbind at 1, M_bind at 1.
  rewrite get_step_ready by exact H.
  destruct (decoded_as host s e (ToString k)) as [[v|x]|]; cbn iota beta;
    [apply IH|reflexivity|apply IH].
Qed.

Lemma collect_as_lookup s e names acc m k :
  k <> "__proto__" ->
  collect_as host s e names acc = Ret m ->
  own m !! k = match (if decide (k ∈ names) then decoded_as host s e k else None) with
               | Some (Ret v) => Some v
               | _ => own acc !! k
               end.
Proof.
  intros Hk. revert acc. induction names as [|n names IH]; intros acc; cbn [collect_as].
  - intros [= <-]. rewrite decide_False by apply not_elem_of_nil. reflexivity.
  - destruct (decoded_as host s e n) as [[v|x]|] eqn:D; [| discriminate |]; intros E;
      rewrite (IH _ E); clear IH E.
    + rewrite own_assign by exact Hk. destruct (decide (k = n)) as [->|Hne].
      * rewrite (decide_True (P := n ∈ n :: names)) by apply list_elem_of_here.
        rewrite D, lookup_insert_eq. destruct (decide (n ∈ names)); reflexivity.
      * rewrite lookup_insert_ne by congruence.
        destruct (decide (k ∈ names)) as [Hin|Hnin].
        -- rewrite (decide_True (P := k ∈ n :: names))
             by (apply list_elem_of_further; exact Hin). reflexivity.
        -- rewrite (decide_False (P := k ∈ n :: names))
             by (intros [?|?]%elem_of_cons; [congruence|contradiction]). reflexivity.
    + destruct (decide (k = n)) as [->|Hne].
      * rewrite (decide_True (P := n ∈ n :: names)) by apply list_elem_of_here.
        rewrite D. destruct (decide (n ∈ names)); reflexivity.
      * destruct (decide (k ∈ names)) as [Hin|Hnin].
        -- rewrite (decide_True (P := k ∈ n :: names))
             by (apply list_elem_of_further; exact Hin). reflexivity.
        -- rewrite (decide_False (P := k ∈ n :: names))
             by (intros [?|?]%elem_of_cons; [congruence|contradiction]). reflexivity.
Qed.

(** Every own property of the object [get] builds is an own property of
    the object it started from, or a listed key that exists, with its
    decoded value. *)
Lemma collect_as_only s e names acc m k v :
  collect_as host s e names acc = Ret m ->
  own m !! k = Some v ->
  own acc !! k = Some v \/ (k ∈ names /\ decoded_as host s e k = Some (Ret v)).
Proof.
  revert acc. induction names as [|n names IH]; intros acc; cbn [collect_as].
  - intros [= <-]. auto.
  - destruct (decoded_as host s e n) as [[x|y]|] eqn:D; [| discriminate |]; intros E H;
      destruct (IH _ E H) as [H'|[Hin D']];
      try (right; split; [apply list_elem_of_further, Hin|exact D']); [|auto].
    destruct (decide (k = "__proto__")) as [->|Hk].
    + destruct (own_assign_proto n x acc) as [E'|[-> E']]; rewrite E' in H'.
      * auto.
      * right. split; [apply list_elem_of_here|]. congruence.
    + rewrite own_assign in H' by exact Hk.
      destruct (decide (n = k)) as [->|Hne].
      * rewrite lookup_insert_eq in H'. right. split; [apply list_elem_of_here|]. congruence.
      * rewrite lookup_insert_ne in H' by exact Hne. auto.
Qed.

Lemma collect_as_throw s e names acc x :
  collect_as host s e names acc = Throw x ->
  exists k, k ∈ names /\ decoded_as host s e k = Some (Throw x).
Proof.
  revert acc. induction names as [|n names IH]; intros acc; cbn [collect_as];
    [discriminate|].
  destruct (decoded_as host s e n) as [[v|y]|] eqn:D.
  - intros E. destruct (IH _ E) as (k & Hk & Dk). exists k.
    split; [apply list_elem_of_further, Hk|exact Dk].
  - intros [= ->]. exists n. split; [apply list_elem_of_here|exact D].
  - intros E. destruct (IH _ E) as (k & Hk & Dk). exists k.
    split; [apply list_elem_of_further, Hk|exact Dk].
Qed.

Lemma decoded_as_plain s k :
  decoded_as host s false k = Ret <$> decoded host s k.
Proof.
  unfold decoded_as, decoded.
  destruct (seen s (_getPrefix (this s) (Str k))); [|reflexivity].
  cbn [fmap option_fmap option_map]. rewrite decrypt_item_plain. reflexivity.
Qed.

Lemma get_sequence argc ks def e s :
  supportedb s = true ->
  let s' := match ks with [] => s | _ => probe s end in
  get host argc (Arr ks) def e s =
  match collect_as host s' e (ToString <$> ks) empty_object with
  | Ret m => Ok (Items m) s'
  | Throw x => Err x s'
  end.
Proof.
  intros Hs. destruct ks as [|k ks]; [reflexivity|]. cbn zeta.
  rewrite guarded_get by discriminate. rewrite Hs.
  unfold get. unfold mbind at 1, M_bind at 1.
  rewrite get_fold_ready by (apply ready_probe, Hs).
  destruct (collect_as host (probe s) e (ToString <$> k :: ks) empty_object); reflexivity.
Qed.

(** What [get] does for an absent key and for a sequence of keys, the
    key [__proto__] apart.  On a supported backend, [get] of a key that
    is absent from the storage returns undefined when called with the key alone, and the
    default when called with two or three arguments, whatever the
    default is (undefined included): the answer depends on the number of
    arguments, not on the value of the default.  For a sequence of keys
    [get] returns an object whose properties are listed keys that exist
    (own properties of the storage), each with its decoded value: a
    missing key is left out, not defaulted.  Every listed key that
    exists is a property of that object, except [__proto__], which
    assignment to a plain object does not create.  [get] of a sequence
    throws only when the cipher raises on one of the existing keys; a
    read without decryption always returns. *)
Theorem get_absent_or_sequence (argc : nat) (key def : data) (encrypted : bool)
    (ks : list data) (s : State) :
  supportedb s = true ->
  isArray key = false ->
  driver_items s !! _getPrefix (this s) key = None ->
  get host 1 key Undefined encrypted s = Ok (Single Undefined) (probe s) /\
  get host 2 key def encrypted s = Ok (Single def) (probe s) /\
  get host 3 key def encrypted s = Ok (Single def) (probe s) /\
  get host argc key def encrypted s =
    Ok (Single (if bool_decide (argc ∈ [2; 3]%nat) then def else Undefined)) (probe s) /\
  let s' := match ks with [] => s | _ => probe s end in
  match get host argc (Arr ks) def encrypted s with
  | Ok g s1 =>
      s1 = s' /\
      exists o, g = Items o /\
        (forall k v, own o !! k = Some v ->
                     k ∈ ToString <$> ks /\ decoded_as host s' encrypted k = Some (Ret v)) /\
        (forall k, k <> "__proto__" ->
                   own o !! k =
                   if decide (k ∈ ToString <$> ks)
                   then match decoded_as host s' encrypted k with
                        | Some (Ret v) => Some v
                        | _ => None
                        end
                   else None)
  | Err x s1 =>
      s1 = s' /\ encrypted = true /\
      exists k, k ∈ ToString <$> ks /\ decoded_as host s' encrypted k = Some (Throw x)
  end.
Proof.
  intros Hs Hk Ha. repeat split; try (apply get_absent; assumption).
  cbn zeta. rewrite get_sequence by exact Hs.
  set (s' := match ks with [] => s | _ => probe s end).
  destruct (collect_as host s' encrypted (ToString <$> ks) empty_object) as [m|x] eqn:E.
  - split; [reflexivity|]. exists m. split; [reflexivity|]. split.
    + intros k v Hv. destruct (collect_as_only _ _ _ _ _ _ _ E Hv) as [H|H]; [|exact H].
      cbn [own empty_object] in H. rewrite lookup_empty in H. discriminate.
    + intros k Hne. rewrite (collect_as_lookup _ _ _ _ _ k Hne E).
      cbn [own empty_object]. rewrite lookup_empty.
      destruct (decide (k ∈ ToString <$> ks)); [|reflexivity].
      destruct (decoded_as host s' encrypted k) as [[v|y]|]; reflexivity.
  - split; [reflexivity|]. destruct (collect_as_throw _ _ _ _ _ E) as (k & Hin & D).
    split; [|eauto]. destruct encrypted; [reflexivity|].
    rewrite decoded_as_plain in D. destruct (decoded host s' k); discriminate.
Qed.

Lemma encrypt_item_plain s v : encrypt_item host s false v = v.
Proof.
  unfold encrypt_item. destruct (sjcl host); [|reflexivity].
  destruct (cryptoKey_value s) eqn:E; reflexivity.
Qed.

Lemma put_ready (key value : data) s :
  ready s -> truthy key = true -> isObject key = false -> value <> Undefined ->
  put host (Val key) (Val value) false s =
  match fault (storage (_driver (this s)) (world s)) with
  | Some name => Err (write_error name key) s
  | None =>
      Ok true (write_event host s key value false
                 (written key (ToString (_serialize host value)) s))
  end.
Proof.
  intros H Ht Ho Hv. unfold put. cbn [truthy_value _value]. rewrite Ht, Ho. cbn [negb].
  replace (isDefined_value (Val value)) with true by (destruct value; congruence || reflexivity).
  cbn [negb]. munfold. cbn beta.
  rewrite getItem_plain by exact H. cbn beta iota.
  rewrite setItem_ready by exact H. rewrite encrypt_item_plain.
  destruct (fault (storage (_driver (this s)) (world s))); reflexivity.
Qed.

Lemma put_single (key value : data) s :
  supportedb s = true ->
  truthy key = true -> isObject key = false -> value <> Undefined ->
  fault (storage (_driver (this s)) (world s)) = None ->
  put host (Val key) (Val value) false s =
  Ok true (write_event host (probe s) key value false
             (written key (ToString (_serialize host value)) (probe s))).
Proof.
  intros Hs Ht Ho Hv Hf.
  rewrite guarded_put; cbn [truthy_value _value]; try assumption.
  - rewrite Hs. rewrite put_ready by (auto using ready_probe).
    rewrite probe_driver, probe_fault, Hf. reflexivity.
  - rewrite Ho. destruct value; congruence || reflexivity.
Qed.

Lemma this_announce name payload s : this (announce name payload s) = this s.
Proof. unfold announce. destruct (_eventsEnabled (this s)); reflexivity. Qed.

Lemma driver_items_announce name payload s :
  driver_items (announce name payload s) = driver_items s.
Proof.
  unfold announce, driver_items. destruct (_eventsEnabled (this s)); [|reflexivity].
  simpl. destruct (_driver (this s)); reflexivity.
Qed.

Lemma this_write_event s0 key value e s : this (write_event host s0 key value e s) = this s.
Proof.
  unfold write_event.
  match goal with |- context [if ?b then _ else _] => destruct b end; apply this_announce.
Qed.

Lemma driver_items_write_event s0 key value e s :
  driver_items (write_event host s0 key value e s) = driver_items s.
Proof.
  unfold write_event.
  match goal with |- context [if ?b then _ else _] => destruct b end;
    apply driver_items_announce.
Qed.

Lemma not_object_not_array (k : data) : isObject k = false -> isArray k = false.
Proof. destruct k; try reflexivity; discriminate. Qed.

(** C4 (amended): for every truthy key that is not an object or an
    array and whose physical key is not a name the storage inherits,
    and every JSON-safe value, on a supported backend whose storage
    accepts the write, [put(k, v)] returns the instance and [get(k)]
    then returns [v]. *)
Theorem get_after_put (k v : data) (s : State) :
  truthy k = true ->
  isObject k = false ->
  inherited (_getPrefix (this s) k) = false ->
  json_safe host v ->
  supportedb s = true ->
  fault (storage (_driver (this s)) (world s)) = None ->
  exists s1 s2,
    put host (Val k) (Val v) false s = Ok true s1 /\
    get host 1 k Undefined false s1 = Ok (Single v) s2.
Proof.
  intros Hk Ho Hin [Hv [text [Ht Hf]]] Hs Hfault.
  eexists _, _. split; [apply put_single; auto|].
  set (s1 := write_event host _ _ _ _ _).
  assert (Hthis : this s1 = this (probe s)).
  { unfold s1. rewrite this_write_event. reflexivity. }
  assert (Hr : ready s1).
  { unfold ready. rewrite Hthis. apply (ready_probe s Hs). }
  rewrite get_ready by (exact Hr || apply not_object_not_array, Ho).
  assert (Hit : driver_items s1 !! _getPrefix (this s) k = Some text).
  { unfold s1. rewrite driver_items_write_event, driver_items_written, probe_getPrefix.
    rewrite lookup_insert_eq. unfold _serialize. rewrite Ht. reflexivity. }
  unfold present, raw. rewrite Hthis, probe_getPrefix, Hit.
  rewrite (own_property_Some _ _ _ Hit), Hin. cbn [negb].
  rewrite decrypt_item_plain. unfold _unserialize, angular_fromJson. rewrite Hf. reflexivity.
Qed.

Lemma falsy_spec (d : data) : truthy d = false <-> In d falsy.
Proof.
  unfold falsy. split.
  - destruct d as [| |b|n|s|l|l]; simpl; try discriminate; auto.
    + destruct b; [discriminate|auto 10].
    + destruct n as [|z]; [auto 10|].
      intros H. apply negb_false_iff, Z.eqb_eq in H. subst. auto 10.
    + intros H. apply negb_false_iff, String.eqb_eq in H. subst. auto.
  - simpl. intros H. repeat (destruct H as [<-|H]; [reflexivity|]). destruct H.
Qed.

(** C10: [put] with a falsy key (the empty string, null, undefined, 0,
    false, NaN) returns false and leaves the whole state as it was: the
    support flag is not probed, the storages are not written, no event is
    emitted.  The same holds for a key that is not an object or an array
    when the value is undefined. *)
Theorem put_falsy_or_omitted (key value : value) (encrypted : bool) (s : State) :
  truthy_value key = false \/
  (isObject (_value key Undefined) = false /\ value = Val Undefined) ->
  put host key value encrypted s = Ok false s /\
  (forall d, truthy_value (Val d) = false <-> In d falsy).
Proof.
  intros H. split; [|intros d; apply falsy_spec].
  unfold put. destruct H as [H|[H1 H2]].
  - rewrite H. reflexivity.
  - destruct (truthy_value key); [|reflexivity]. simpl.
    rewrite H1, H2. reflexivity.
Qed.





(** *** Splitting on a one-character separator *)

Lemma append_cons (a : ascii) (s t : string) : String a s ++ t = String a (s ++ t).
Proof. reflexivity. Qed.

Lemma append_nil_right (s : string) : s ++ "" = s.
Proof. induction s as [|a s IH]; [reflexivity|]. rewrite append_cons, IH. reflexivity. Qed.

Lemma append_assoc' (a b c : string) : (a ++ b) ++ c = a ++ b ++ c.
Proof.
  induction a as [|x a IH]; [reflexivity|]. rewrite !append_cons, IH. reflexivity.
Qed.

Lemma split_from_nonempty sep skip cur s : split_from sep skip cur s <> [].
Proof.
  revert skip cur. induction s as [|a s IH]; intros skip cur; cbn [split_from];
    [discriminate|].
  destruct skip; [|apply IH].
  destruct (String.prefix sep (String a s)); [discriminate|apply IH].
Qed.

Lemma prefix_char (c a : ascii) (k : string) :
  String.prefix (String c "") (String a k) = bool_decide (c = a).
Proof.
  cbn [String.prefix]. destruct (ascii_dec c a) as [E|N].
  - rewrite bool_decide_eq_true_2 by exact E. destruct k; reflexivity.
  - rewrite bool_decide_eq_false_2 by exact N. reflexivity.
Qed.

Lemma split_from_prefixed (c : ascii) (ns cur k : string) :
  forallb (fun x => negb (Ascii.eqb x c)) (list_ascii_of_string ns) = true ->
  split_from (String c "") 0 cur (ns ++ String c k) =
  (cur ++ ns) :: split_from (String c "") 0 "" k.
Proof.
  revert cur. induction ns as [|a ns IH]; intros cur H.
  - change ("" ++ String c k) with (String c k). cbn [split_from].
    rewrite prefix_char, bool_decide_eq_true_2 by reflexivity.
    rewrite append_nil_right. reflexivity.
  - cbn [list_ascii_of_string forallb] in H. apply andb_true_iff in H as [Ha H].
    apply negb_true_iff, Ascii.eqb_neq in Ha.
    rewrite append_cons. cbn [split_from].
    rewrite prefix_char, bool_decide_eq_false_2 by congruence.
    rewrite IH by exact H. rewrite append_assoc'. reflexivity.
Qed.

Lemma join_cons (sep x : string) (l : list string) :
  l <> [] -> join sep (x :: l) = x ++ sep ++ join sep l.
Proof. destruct l; [congruence|reflexivity]. Qed.

Lemma join_split_from (c : ascii) (cur k : string) :
  join (String c "") (split_from (String c "") 0 cur k) = cur ++ k.
Proof.
  revert cur. induction k as [|a k IH]; intros cur.
  - cbn [split_from join]. rewrite append_nil_right. reflexivity.
  - cbn [split_from]. rewrite prefix_char. destruct (decide (c = a)) as [<-|N].
    + rewrite bool_decide_eq_true_2 by reflexivity.
      cbn [String.length Nat.sub].
      rewrite join_cons by apply split_from_nonempty.
      rewrite IH. reflexivity.
    + rewrite bool_decide_eq_false_2 by exact N.
      rewrite IH. rewrite append_assoc'. reflexivity.
Qed.

Lemma unprefix_prefixed (l : Locker) (k : string) :
  namespace_ok l = true -> unprefix l (_getPrefix l (Str k)) = k.
Proof.
  unfold namespace_ok, unprefix, _getPrefix. intros H.
  destruct (_separator l) as [|c [|? ?]]; try discriminate.
  apply andb_true_iff in H as [Hn Hc]. apply negb_true_iff in Hn. rewrite Hn.
  cbn [ToString split]. rewrite append_cons.
  change ("" ++ k) with k.
  rewrite split_from_prefixed by exact Hc. cbn [hd tl length].
  change ("" ++ _namespace l) with (_namespace l).
  rewrite String.eqb_refl.
  destruct (split_from (String c "") 0 "" k) as [|x r] eqn:E.
  { exfalso. exact (split_from_nonempty _ _ _ _ E). }
  cbn [length]. change (1 <? S (S (length r)))%nat with true. cbn [andb].
  rewrite <- E. apply join_split_from.
Qed.


(** *** [all] *)

Lemma physical_keys_spec s p : p ∈ physical_keys s <-> is_Some (seen s p).
Proof.
  unfold physical_keys. rewrite list_elem_of_In, filter_In, <- list_elem_of_In.
  rewrite list_elem_of_fmap, own_property_seen, bool_decide_eq_true. split.
  - intros [_ H]. exact H.
  - intros H. split; [|exact H]. destruct H as [v H]. apply seen_Some in H as [_ H].
    exists (p, v). split; [reflexivity|]. apply elem_of_map_to_list, H.
Qed.

Lemma visits_enumerable (s : State) :
  enumerable (driver_items s) = true ->
  visits (driver_items s) = Ret (Str <$> physical_keys s).
Proof.
  unfold enumerable, visits. intros H. apply andb_true_iff in H as [H1 H2].
  apply negb_true_iff in H1. rewrite H1.
  destruct (driver_items s !! "forEach") as [[|c v]|]; reflexivity || discriminate.
Qed.

Lemma arrayLike_visits (m : gmap string string) :
  arrayLike m = true ->
  exists i l, List.filter (fun i => in_storage m (pretty i)) (seqZ 0 (Z.of_nat (size m)))
              = i :: l.
Proof.
  intros H.
  assert (Hn : size m <> 0%nat).
  { intros E. apply map_size_empty_iff in E. subst m. discriminate H. }
  assert (Hin : In (Z.of_nat (size m) - 1)
                  (List.filter (fun i => in_storage m (pretty i))
                     (seqZ 0 (Z.of_nat (size m))))).
  { apply filter_In. split; [|exact H]. apply list_elem_of_In, elem_of_seqZ. lia. }
  destruct (List.filter _ _) as [|i l]; [destruct Hin|eauto].
Qed.

(** On a storage that [angular.forEach] does not visit by name, [all]
    throws a TypeError before anything else happens. *)
Lemma all_not_enumerable (s : State) :
  enumerable (driver_items s) = false -> all host s = Err TypeError s.
Proof.
  intros H. rewrite all_unfold. unfold enumerable in H. unfold visits.
  destruct (arrayLike (driver_items s)) eqn:A.
  - destruct (arrayLike_visits _ A) as (i & l & ->). reflexivity.
  - cbn [negb andb] in H.
    destruct (driver_items s !! "forEach") as [[|c v]|]; discriminate || reflexivity.
Qed.

Lemma all_step_ready (acc : object) (key : string) s :
  ready s ->
  all_step host acc (Str key) s =
  Ok (match decoded host s (unprefix (this s) key) with
      | Some v => assign (unprefix (this s) key) v acc
      | None => acc
      end) s.
Proof.
  intros H. unfold all_step, has. munfold. cbn beta zeta.
  rewrite exists_ready by exact H. cbn beta iota.
  set (k := unprefix (this s) key).
  change (_value (Val (Str k)) Undefined) with (Str k).
  rewrite present_decoded. cbn [ToString].
  destruct (decoded host s k) as [v|] eqn:D.
  - rewrite bool_decide_eq_true_2 by eauto. cbn iota beta.
    rewrite get_ready by (exact H || reflexivity).
    rewrite present_decoded. cbn [ToString]. rewrite D.
    rewrite bool_decide_eq_true_2 by eauto. rewrite decrypt_item_plain.
    assert (E := getItem_decoded s (Str k) v H D).
    rewrite getItem_plain in E by exact H. injection E as ->. reflexivity.
  - rewrite bool_decide_eq_false_2 by (intros [? ?]; discriminate). reflexivity.
Qed.

Lemma all_fold_ready (keys : list string) (acc : object) s :
  ready s ->
  foldM (all_step host) (Str <$> keys) acc s =
  Ok (collect host s (unprefix (this s) <$> keys) acc) s.
Proof.
  intros H. revert acc. induction keys as [|k keys IH]; intros acc; [reflexivity|].
  cbn [foldM fmap list_fmap]. unfold mbind at 1, M_bind at 1.
  rewrite all_step_ready by exact H. cbn iota beta. rewrite IH. reflexivity.
Qed.

Lemma all_step_guarded (acc : object) (key : string) :
  guarded (all_step host acc (Str key)).
Proof.
  intros s. unfold all_step. unfold mbind at 1 3, M_bind at 1 3, gets. cbn beta zeta.
  rewrite (guarded_bind _ _ (guarded_has _) s).
  destruct (supportedb s) eqn:E; [|reflexivity].
  unfold mbind, M_bind. cbn beta. rewrite probe_this. reflexivity.
Qed.

Lemma all_supported s :
  supportedb s = true ->
  enumerable (driver_items s) = true ->
  let s' := match physical_keys s with [] => s | _ => probe s end in
  all host s = Ok (collect host s' (unprefix (this s) <$> physical_keys s) empty_object) s'.
Proof.
  intros Hs He. rewrite all_unfold, visits_enumerable by exact He.
  destruct (physical_keys s) as [|k keys]; [reflexivity|]. cbn zeta.
  change (Str <$> k :: keys) with (Str k :: (Str <$> keys)).
  rewrite (guarded_foldM _ _ _ _ (all_step_guarded empty_object k)). rewrite Hs.
  change (Str k :: (Str <$> keys)) with (Str <$> k :: keys).
  rewrite all_fold_ready by (apply ready_probe, Hs).
  rewrite probe_this. reflexivity.
Qed.

Lemma getPrefix_length (l : Locker) (k : string) :
  namespace_ok l = true -> _getPrefix l (Str k) <> "l".
Proof.
  unfold namespace_ok, _getPrefix. intros H.
  destruct (_separator l) as [|c [|? ?]]; try discriminate.
  apply andb_true_iff in H as [Hn _]. apply negb_true_iff in Hn. rewrite Hn.
  apply String.eqb_neq in Hn.
  destruct (_namespace l) as [|a [|b r]]; [congruence| |]; discriminate.
Qed.

Lemma decoded_probe s k :
  namespace_ok (this s) = true -> decoded host (probe s) k = decoded host s k.
Proof.
  intros H. unfold decoded, seen. rewrite probe_getPrefix.
  rewrite probe_driver_items_ne by (apply getPrefix_length, H). reflexivity.
Qed.

(** On a supported backend whose storage [angular.forEach] visits by
    name, when the namespace is not empty and the separator is one
    character that the namespace does not contain, [all] returns the
    object that holds, for every logical key other than [__proto__], the
    decoded value of the entry the namespace has under that key, and
    [count] is the number of its own properties. *)
Lemma all_lists_namespace (s : State) :
  supportedb s = true ->
  enumerable (driver_items s) = true ->
  namespace_ok (this s) = true ->
  exists m s',
    all host s = Ok m s' /\
    (forall k, k <> "__proto__" -> own m !! k = decoded host s k) /\
    count host s = Ok (size (own m)) s'.
Proof.
  intros Hs He Hn. eexists _, _. split; [apply all_supported; assumption|]. split.
  - intros k Hk. rewrite collect_lookup_empty by exact Hk.
    assert (Hd : decoded host (match physical_keys s with [] => s | _ => probe s end) k
                 = decoded host s k).
    { destruct (physical_keys s); [reflexivity|apply decoded_probe, Hn]. }
    rewrite Hd.
    destruct (decide (k ∈ unprefix (this s) <$> physical_keys s)) as [Hin|Hnin];
      [reflexivity|].
    destruct (decoded host s k) as [v|] eqn:D; [|reflexivity].
    exfalso. apply Hnin. apply list_elem_of_fmap.
    exists (_getPrefix (this s) (Str k)). split.
    + symmetry. apply unprefix_prefixed, Hn.
    + apply physical_keys_spec. unfold decoded in D.
      destruct (seen s (_getPrefix (this s) (Str k))); [eauto|discriminate].
  - unfold count. unfold mbind, M_bind. rewrite all_supported by assumption.
    unfold mret, M_ret, Object_keys. rewrite length_fmap, length_map_to_list. reflexivity.
Qed.

(** *** [forget] and [clean] *)

Lemma prefix_append (a b : string) : String.prefix a (a ++ b) = true.
Proof.
  induction a as [|x a IH]; [destruct b; reflexivity|].
  rewrite append_cons. cbn [String.prefix].
  destruct (ascii_dec x x) as [_|N]; [exact IH|contradiction].
Qed.

Lemma prefix_split (a p : string) :
  String.prefix a p = true -> exists k, p = a ++ k.
Proof.
  revert p. induction a as [|x a IH]; intros p H.
  - exists p. reflexivity.
  - destruct p as [|y p]; [discriminate|]. cbn [String.prefix] in H.
    destruct (ascii_dec x y) as [<-|N]; [|discriminate].
    destruct (IH p H) as [k ->]. exists k. reflexivity.
Qed.

Lemma owned_getPrefix (l : Locker) (k : data) : owned l (_getPrefix l k) = true.
Proof.
  unfold owned, _getPrefix. destruct (String.eqb (_namespace l) ""); [reflexivity|].
  rewrite <- append_assoc'. apply prefix_append.
Qed.

Lemma owned_split (l : Locker) (p : string) :
  namespace_ok l = true -> owned l p = true -> exists k, p = _getPrefix l (Str k).
Proof.
  unfold namespace_ok, owned, _getPrefix. intros H.
  destruct (_separator l) as [|c [|? ?]] eqn:Es; try discriminate.
  apply andb_true_iff in H as [Hn _]. apply negb_true_iff in Hn. rewrite Hn.
  intros Hp. apply prefix_split in Hp as [k ->]. exists k.
  rewrite append_assoc'. reflexivity.
Qed.

Lemma this_removed key s : this (removed key s) = this s.
Proof. reflexivity. Qed.

Lemma own_property_false (m : gmap string string) (k : string) :
  own_property m k = false -> inherited k = false -> m !! k = None.
Proof.
  unfold own_property. intros H Hi. rewrite Hi, andb_true_r in H.
  apply bool_decide_eq_false_1 in H. destruct (m !! k); [exfalso; eauto|reflexivity].
Qed.

Lemma own_property_true (m : gmap string string) (k : string) :
  own_property m k = true -> inherited k = false /\ is_Some (m !! k).
Proof.
  unfold own_property. intros H. apply andb_true_iff in H as [H1 H2].
  apply negb_true_iff in H2. apply bool_decide_eq_true_1 in H1. auto.
Qed.

(** *** Frame reasoning: what a computation keeps *)

Lemma keeps_ret {A X : Type} (proj : State -> X) (a : A) : keeps proj (mret a).
Proof. intros s. reflexivity. Qed.

Lemma keeps_gets {A X : Type} (proj : State -> X) (f : State -> A) : keeps proj (gets f).
Proof. intros s. reflexivity. Qed.

Lemma keeps_throw {A X : Type} (proj : State -> X) (e : exn) : keeps proj (@throw A e).
Proof. intros s. reflexivity. Qed.

Lemma keeps_bind {A B X : Type} (proj : State -> X) (m : M A) (f : A -> M B) :
  keeps proj m -> (forall a, keeps proj (f a)) -> keeps proj (m ≫= f).
Proof.
  intros Hm Hf s. unfold mbind, M_bind. specialize (Hm s).
  destruct (m s) as [a s'|e s']; cbn [final] in *; [|exact Hm].
  rewrite (Hf a s'). exact Hm.
Qed.

Lemma keeps_try_catch {A X : Type} (proj : State -> X) (m : M A) (h : exn -> M A) :
  keeps proj m -> (forall e, keeps proj (h e)) -> keeps proj (try_catch m h).
Proof.
  intros Hm Hh s. unfold try_catch. specialize (Hm s).
  destruct (m s) as [a s'|e s']; cbn [final] in *; [exact Hm|].
  rewrite (Hh e s'). exact Hm.
Qed.

Lemma keeps_forEach {A X : Type} (proj : State -> X) (l : list A) (f : A -> M unit) :
  (forall x, keeps proj (f x)) -> keeps proj (forEach l f).
Proof.
  intros Hf. induction l as [|x l IH]; [apply keeps_ret|].
  cbn [forEach]. apply keeps_bind; [apply Hf|intros _; exact IH].
Qed.

Lemma keeps_foldM {A B X : Type} (proj : State -> X) (f : B -> A -> M B) (l : list A)
    (acc : B) :
  (forall b x, keeps proj (f b x)) -> keeps proj (foldM f l acc).
Proof.
  intros Hf. revert acc. induction l as [|x l IH]; intros acc; [apply keeps_ret|].
  cbn [foldM]. apply keeps_bind; [apply Hf|intros b; apply IH].
Qed.

Lemma keeps_modify_world {X : Type} (proj : State -> X) (f : World -> World) :
  (forall s, proj {| this := this s; world := f (world s) |} = proj s) ->
  keeps proj (modify_world f).
Proof. intros H s. apply H. Qed.

Lemma keeps_modify_this {X : Type} (proj : State -> X) (f : Locker -> Locker) :
  (forall s, proj {| this := f (this s); world := world s |} = proj s) ->
  keeps proj (modify_this f).
Proof. intros H s. apply H. Qed.

Lemma keeps_setItem {X : Type} (proj : State -> X) (b : backend) (k v : string) :
  (forall s st, proj {| this := this s; world := set_storage b st (world s) |} = proj s) ->
  keeps proj (setItem b k v).
Proof.
  intros H s. unfold setItem. destruct (fault (storage b (world s))); [reflexivity|apply H].
Qed.

Lemma keeps_proj {A X Y : Type} (proj : State -> X) (g : X -> Y) (m : M A) :
  keeps proj m -> keeps (fun s => g (proj s)) m.
Proof. intros H s. cbn beta. rewrite (H s). reflexivity. Qed.

Create HintDb keeps.

Ltac keeps_step :=
  lazymatch goal with |- keeps _ _ => idtac end;
  first
    [ solve [auto with keeps nocore]
    | apply keeps_ret
    | apply keeps_gets
    | apply keeps_throw
    | apply keeps_bind; [|intros ?]
    | apply keeps_try_catch; [|intros ?]
    | apply keeps_forEach; intros ?
    | apply keeps_foldM; intros ? ?
    | apply keeps_setItem; intros ? ?
    | apply keeps_modify_world; intros ?
    | apply keeps_modify_this; intros ?
    | match goal with
      | |- keeps _ (if ?b then _ else _) => destruct b
      | |- keeps _ (match ?x with _ => _ end) => destruct x
      | |- keeps _ (let _ := _ in _) => cbn zeta
      end ].

Ltac keeps_storage :=
  repeat keeps_step;
  try (unfold beyond_storage; cbn [this world];
       repeat match goal with
              | |- context [set_storage ?b _ _] =>
                  lazymatch b with Local => fail | Session => fail | _ => destruct b end
              end;
       reflexivity).

Lemma keeps_checkSupport d : keeps beyond_storage (_checkSupport d).
Proof. unfold _checkSupport, _resolveDriver, removeItem, _error. keeps_storage. Qed.
#[local] Hint Resolve keeps_checkSupport : keeps.

Lemma keeps_assert_supported : keeps beyond_storage assert_supported.
Proof. unfold assert_supported, _error. keeps_storage. Qed.
#[local] Hint Resolve keeps_assert_supported : keeps.

Lemma keeps_event name payload : keeps beyond_storage (_event name payload).
Proof. unfold _event, emit. keeps_storage. Qed.
#[local] Hint Resolve keeps_event : keeps.

Lemma keeps_exists key : keeps beyond_storage (_exists key).
Proof. unfold _exists, hasOwnProperty. keeps_storage. Qed.
#[local] Hint Resolve keeps_exists : keeps.

Lemma keeps_getItem key e : keeps beyond_storage (_getItem host key e).
Proof. unfold _getItem, getItem. keeps_storage. Qed.
#[local] Hint Resolve keeps_getItem : keeps.

Lemma keeps_setItem_ key value e : keeps beyond_storage (_setItem host key value e).
Proof. unfold _setItem, _error. keeps_storage. Qed.
#[local] Hint Resolve keeps_setItem_ : keeps.

Lemma keeps_removeItem key : keeps beyond_storage (_removeItem key).
Proof. unfold _removeItem, removeItem. keeps_storage. Qed.
#[local] Hint Resolve keeps_removeItem : keeps.

Lemma keeps_put key value e : keeps beyond_storage (put host key value e).
Proof. unfold put. keeps_storage. Qed.
#[local] Hint Resolve keeps_put : keeps.

Lemma keeps_has key : keeps beyond_storage (has key).
Proof. unfold has. keeps_storage. Qed.
#[local] Hint Resolve keeps_has : keeps.

Lemma keeps_add key value e : keeps beyond_storage (add host key value e).
Proof. unfold add. keeps_storage. Qed.
#[local] Hint Resolve keeps_add : keeps.

Lemma keeps_get argc key def e : keeps beyond_storage (get host argc key def e).
Proof. unfold get. keeps_storage. Qed.
#[local] Hint Resolve keeps_get : keeps.

Lemma keeps_forget key : keeps beyond_storage (forget key).
Proof. unfold forget. keeps_storage. Qed.
#[local] Hint Resolve keeps_forget : keeps.

Lemma keeps_pull key def e : keeps beyond_storage (pull host key def e).
Proof. unfold pull. keeps_storage. Qed.
#[local] Hint Resolve keeps_pull : keeps.

Lemma keeps_all_step acc key : keeps beyond_storage (all_step host acc key).
Proof. unfold all_step. keeps_storage. Qed.
#[local] Hint Resolve keeps_all_step : keeps.

Lemma keeps_all : keeps beyond_storage (all host).
Proof. unfold all. keeps_storage. Qed.
#[local] Hint Resolve keeps_all : keeps.

Lemma keeps_clean : keeps beyond_storage (clean host).
Proof. unfold clean. keeps_storage. Qed.
#[local] Hint Resolve keeps_clean : keeps.

Lemma keeps_empty : keeps beyond_storage empty.
Proof. unfold empty, clear. keeps_storage. Qed.
#[local] Hint Resolve keeps_empty : keeps.

Lemma keeps_count : keeps beyond_storage (count host).
Proof. unfold count. keeps_storage. Qed.
#[local] Hint Resolve keeps_count : keeps.

(** *** The crypto-key slots *)

Lemma keeps_slots_of_storage {A : Type} (m : M A) :
  keeps beyond_storage m -> keeps slots_of m.
Proof.
  intros H s. specialize (H s). unfold beyond_storage in H. unfold slots_of. congruence.
Qed.

Ltac keeps_slots :=
  repeat keeps_step;
  try (unfold slots_of; cbn [this world];
       repeat match goal with
              | |- context [set_storage ?b _ _] =>
                  lazymatch b with Local => fail | Session => fail | _ => destruct b end
              end;
       reflexivity).

Lemma keeps_slots_bind_with e scope key def attr :
  keeps slots_of (bind_with host e scope key def attr).
Proof.
  unfold bind_with, scope_eval, scope_watch, scope_assign.
  pose proof (fun argc k d b => keeps_slots_of_storage _ (keeps_get argc k d b)) as Hget.
  keeps_slots.
Qed.

Lemma keeps_slots_unbind scope key attr dontForget :
  keeps slots_of (unbind scope key attr dontForget).
Proof.
  unfold unbind, scope_assign, dispose.
  pose proof (fun k => keeps_slots_of_storage _ (keeps_forget k)) as Hforget.
  keeps_slots.
Qed.

Lemma keeps_slots_clearWatchers : keeps slots_of clearWatchers.
Proof. unfold clearWatchers, dispose. keeps_slots. Qed.

Lemma strip_spaces_blank (k : string) :
  (String.length (strip_spaces k) =? 0)%nat = blank k.
Proof.
  unfold blank. induction k as [|c k IH]; [reflexivity|].
  cbn [strip_spaces list_ascii_of_string forallb].
  destruct (is_space c); [exact IH|reflexivity].
Qed.

Lemma setCryptoKey_spec (key : data) (s : State) :
  setCryptoKey key s =
  Ok tt (match key with
         | Str k =>
             if blank k then s
             else {| this := this s;
                     world := set_slots (<[_cryptoKey (this s) := Some k]> (slots (world s)))
                                (world s) |}
         | _ => s
         end).
Proof.
  unfold setCryptoKey. destruct key as [| | | |k| |]; try reflexivity.
  rewrite strip_spaces_blank.
  destruct k as [|c k]; [reflexivity|]. cbn [String.length Nat.eqb orb].
  destruct (blank (String c k)); reflexivity.
Qed.

Lemma setCryptoKey_rejected (key : data) (s : State) :
  rejected_key key = true -> setCryptoKey key s = Ok tt s.
Proof.
  intros H. rewrite setCryptoKey_spec. destruct key; try reflexivity.
  cbn [rejected_key] in H. rewrite H. reflexivity.
Qed.

Lemma slots_ok_setCryptoKey (key : data) (s : State) :
  slots_ok (world s) -> slots_ok (world (final (setCryptoKey key s))).
Proof.
  intros H. rewrite setCryptoKey_spec. cbn [final].
  destruct key as [| | | |k| |]; try exact H.
  destruct (blank k) eqn:B; [exact H|].
  unfold slots_ok. cbn [world set_slots slots]. apply Forall_insert; [exact H|exact B].
Qed.

Lemma slots_ok_instance (d ns : string) (s : State) :
  slots_ok (world s) -> slots_ok (world (final (instance d ns s))).
Proof.
  intros H. unfold instance, new_Locker, _resolveDriver, _error.
  unfold mbind, M_bind, mret, M_ret, gets, modify_world, throw, call_on. cbn beta.
  destruct (assoc d _registeredDrivers) as [b|]; [|exact H]. cbn iota beta.
  match goal with |- context [setCryptoKey ?k ?st] =>
    pose proof (slots_ok_setCryptoKey k st) as Hk; destruct (setCryptoKey k st) as [[] s1|e s1]
  end; cbn [final world] in *; apply Hk;
    unfold slots_ok; cbn [world set_slots slots];
    (apply Forall_app; split; [exact H|repeat constructor]).
Qed.

Lemma slots_ok_keeps {A : Type} (m : M A) (s : State) :
  keeps slots_of m -> slots_ok (world s) -> slots_ok (world (final (m s))).
Proof. intros Hk H. specialize (Hk s). unfold slots_of in Hk. unfold slots_ok. rewrite Hk. exact H. Qed.

(** C8: every call of the public API preserves the invariant that each
    crypto-key slot holds null or a non-blank string, and [setCryptoKey]
    with a non-string, the empty string or a string of white space
    leaves the state as it was. *)
Theorem cryptoKey_slot_invariant (c : call) (key : data) (s : State) :
  slots_ok (world s) ->
  slots_ok (world (final (exec host c s))) /\
  (rejected_key key = true -> setCryptoKey key s = Ok tt s).
Proof.
  intros H. split; [|apply setCryptoKey_rejected].
  assert (Hb : forall {A B : Type} (m : M A) (f : A -> B) s0,
             final ((x ← m; mret (f x)) s0) = final (m s0)).
  { intros A B m f s0. unfold mbind, M_bind, mret, M_ret. destruct (m s0); reflexivity. }
  destruct c; cbn [exec]; try rewrite Hb.
  all: try solve [apply slots_ok_keeps;
                  [apply keeps_slots_of_storage; auto with keeps nocore|exact H]].
  - apply slots_ok_keeps; [|exact H]. apply keeps_slots_bind_with.
  - apply slots_ok_keeps; [|exact H]. apply keeps_slots_bind_with.
  - apply slots_ok_keeps; [|exact H]. apply keeps_slots_unbind.
  - unfold driver. unfold mbind at 1, M_bind at 1, gets. apply slots_ok_instance, H.
  - apply slots_ok_keeps; [|exact H]. unfold getDriver. apply keeps_gets.
  - unfold namespace. unfold mbind at 1, M_bind at 1, gets. apply slots_ok_instance, H.
  - apply slots_ok_keeps; [|exact H]. unfold getNamespace. apply keeps_gets.
  - apply slots_ok_setCryptoKey, H.
  - apply slots_ok_keeps; [|exact H]. apply keeps_slots_clearWatchers.
  - apply slots_ok_instance, H.
Qed.

(** *** Derived instances *)


Lemma decrypt_item_ext (s s' : State) (e : bool) (v : data) :
  cryptoKey_value s = cryptoKey_value s' ->
  decrypt_item host s e v = decrypt_item host s' e v.
Proof. unfold decrypt_item. intros ->. reflexivity. Qed.

Lemma encrypt_item_ext (s s' : State) (e : bool) (v : data) :
  cryptoKey_value s = cryptoKey_value s' ->
  encrypt_item host s e v = encrypt_item host s' e v.
Proof. unfold encrypt_item. intros ->. reflexivity. Qed.





(** *** Bindings *)





(** ** Further properties of the engine *)

(** *** One write *)

Lemma put_one_ready (key value : value) (enc : bool) (s : State) :
  ready s ->
  truthy_value key = true ->
  isObject (_value key Undefined) = false ->
  isDefined_value value = true ->
  put host key value enc s =
  match decrypt_item host s enc (raw s (_value key Undefined)) with
  | Throw e => Err e s
  | Ret item =>
      let v := _value value (_unserialize host item) in
      match fault (storage (_driver (this s)) (world s)) with
      | Some name => Err (write_error name (_value key Undefined)) s
      | None =>
          Ok true (write_event host s (_value key Undefined) v enc
                     (written (_value key Undefined)
                        (ToString (encrypt_item host s enc (_serialize host v))) s))
      end
  end.
Proof.
  intros H Ht Ho Hd. unfold put. rewrite Ht, Ho, Hd. cbn [negb]. munfold. cbn beta.
  rewrite getItem_ready by exact H.
  destruct (decrypt_item host s enc (raw s (_value key Undefined))) as [item|e];
    [|reflexivity].
  cbn beta iota zeta. rewrite setItem_ready by exact H.
  destruct (fault (storage (_driver (this s)) (world s))); reflexivity.
Qed.

Lemma put_one (key value : value) (enc : bool) (s : State) :
  supportedb s = true ->
  truthy_value key = true ->
  isObject (_value key Undefined) = false ->
  isDefined_value value = true ->
  put host key value enc s =
  match decrypt_item host (probe s) enc (raw (probe s) (_value key Undefined)) with
  | Throw e => Err e (probe s)
  | Ret item =>
      let v := _value value (_unserialize host item) in
      match fault (storage (_driver (this s)) (world s)) with
      | Some name => Err (write_error name (_value key Undefined)) (probe s)
      | None =>
          Ok true (write_event host (probe s) (_value key Undefined) v enc
                     (written (_value key Undefined)
                        (ToString (encrypt_item host (probe s) enc (_serialize host v)))
                        (probe s)))
      end
  end.
Proof.
  intros Hs Ht Ho Hd. rewrite guarded_put; [|exact Ht|rewrite Ho; exact Hd].
  rewrite Hs. rewrite put_one_ready by (auto using ready_probe).
  rewrite probe_driver, probe_fault. reflexivity.
Qed.

Lemma beyond_storage_probe (s : State) : beyond_storage (probe s) = beyond_storage s.
Proof.
  unfold probe. destruct (_supported (this s)) eqn:E.
  - reflexivity.
  - destruct (supportedb s); unfold beyond_storage; cbn [this world set_storage slots scopes
      next_watch defaults set_supported _driver _namespace _eventsEnabled _separator _watchers
      _cryptoKey]; reflexivity.
Qed.

Lemma beyond_storage_written key text s :
  beyond_storage (written key text s) = beyond_storage s.
Proof. unfold beyond_storage, written. cbn [this world]. destruct (_driver (this s)); reflexivity. Qed.

Lemma beyond_storage_announce name payload s :
  beyond_storage (announce name payload s) = beyond_storage s.
Proof. unfold announce. destruct (_eventsEnabled (this s)); reflexivity. Qed.

Lemma beyond_storage_write_event s0 key value e s :
  beyond_storage (write_event host s0 key value e s) = beyond_storage s.
Proof.
  unfold write_event.
  match goal with |- context [if ?b then _ else _] => destruct b end;
    apply beyond_storage_announce.
Qed.

Lemma items_announce name payload b s :
  items (storage b (world (announce name payload s))) = items (storage b (world s)).
Proof. unfold announce. destruct (_eventsEnabled (this s)); [|reflexivity]. destruct b; reflexivity. Qed.

Lemma items_write_event s0 key value e b s :
  items (storage b (world (write_event host s0 key value e s))) = items (storage b (world s)).
Proof.
  unfold write_event.
  match goal with |- context [if ?c then _ else _] => destruct c end; apply items_announce.
Qed.

Lemma items_written_other key text b s :
  b <> _driver (this s) ->
  items (storage b (world (written key text s))) = items (storage b (world s)).
Proof.
  unfold written. cbn [world]. destruct b, (_driver (this s)); intros H;
    try congruence; reflexivity.
Qed.

Lemma unserialize_null : _unserialize host Null = Null.
Proof. reflexivity. Qed.

(** X1: a [put] of one key with a defined value, on a supported backend
    whose storage accepts the write, returns the instance and writes
    exactly one entry: under the prefixed key it stores the text of the
    value, every other entry of the storage and the whole other storage
    stay as the support probe left them, and nothing beyond the storages
    changes.  A function given as the value is applied to the current
    decoded value, which is null for a key that does not exist.  [has]
    is true afterwards, unless the prefixed key is a name the storage
    inherits: then the entry is stored but [has] is false. *)
Theorem put_writes_one_entry (key value : value) (s : State) :
  truthy_value key = true ->
  isObject (_value key Undefined) = false ->
  isDefined_value value = true ->
  supportedb s = true ->
  fault (storage (_driver (this s)) (world s)) = None ->
  let k := _value key Undefined in
  let current := _unserialize host (raw (probe s) k) in
  let text := ToString (_serialize host (_value value current)) in
  exists s1,
    put host key value false s = Ok true s1 /\
    driver_items s1 = <[_getPrefix (this s) k := text]> (driver_items (probe s)) /\
    (forall b, b <> _driver (this s) ->
               items (storage b (world s1)) = items (storage b (world (probe s)))) /\
    beyond_storage s1 = beyond_storage s /\
    (driver_items s !! _getPrefix (this s) k = None -> current = Null) /\
    has key s1 = Ok (negb (inherited (_getPrefix (this s) k))) s1.
Proof.
  intros Ht Ho Hd Hs Hf k current text.
  rewrite put_one by assumption. rewrite decrypt_item_plain. cbn zeta.
  rewrite Hf, encrypt_item_plain. fold k. fold current. fold text.
  eexists. split; [reflexivity|].
  set (s1 := write_event host (probe s) k (_value value current) false
               (written k text (probe s))).
  assert (Hthis : this s1 = this (probe s)).
  { unfold s1. rewrite this_write_event. reflexivity. }
  assert (Hitems : driver_items s1 = <[_getPrefix (this s) k := text]> (driver_items (probe s))).
  { unfold s1. rewrite driver_items_write_event, driver_items_written, probe_getPrefix.
    reflexivity. }
  split; [exact Hitems|]. split; [|split; [|split]].
  - intros b Hb. unfold s1. rewrite items_write_event.
    apply items_written_other. rewrite probe_driver. exact Hb.
  - unfold s1. rewrite beyond_storage_write_event, beyond_storage_written.
    apply beyond_storage_probe.
  - intros Ha. unfold current, raw. rewrite probe_getPrefix.
    rewrite probe_driver_items_None by exact Ha. reflexivity.
  - unfold has. rewrite exists_ready.
    + fold k. unfold present. rewrite Hthis, probe_getPrefix, Hitems.
      rewrite (own_property_Some _ _ text) by apply lookup_insert_eq. reflexivity.
    + unfold ready. rewrite Hthis. apply (ready_probe s Hs).
Qed.

Lemma driver_items_probe_faulty (s : State) (name : string) :
  supportedb s = true ->
  fault (storage (_driver (this s)) (world s)) = Some name ->
  driver_items (probe s) = driver_items s.
Proof.
  intros Hs Hf. unfold probe. destruct (_supported (this s)) as [b|] eqn:E; [reflexivity|].
  rewrite Hs. unfold supportedb in Hs. rewrite E in Hs. apply bool_decide_eq_true_1 in Hs.
  unfold driver_items. cbn [this world set_supported _driver].
  destruct (_driver (this s)); cbn [storage] in *; [congruence|reflexivity].
Qed.

Lemma fold_left_ext' {A B : Type} (f g : A -> B -> A) (l : list B) (a : A) :
  (forall x y, f x y = g x y) -> fold_left f l a = fold_left g l a.
Proof.
  intros H. revert a. induction l as [|y l IH]; intros a; [reflexivity|].
  cbn [fold_left]. rewrite H. apply IH.
Qed.

(** X2: when the storage refuses the write, [put] throws and writes
    nothing: the error is QuotaExceeded when the name of the storage's
    exception is one of the three quota names, and WriteFailed with the
    key otherwise; the entries of the storage are as before and no event
    is emitted. *)
Theorem put_write_failure (key value : value) (name : string) (s : State) :
  truthy_value key = true ->
  isObject (_value key Undefined) = false ->
  isDefined_value value = true ->
  supportedb s = true ->
  fault (storage (_driver (this s)) (world s)) = Some name ->
  exists s1,
    put host key value false s =
      Err (if bool_decide (name ∈ ["QUOTA_EXCEEDED_ERR"; "NS_ERROR_DOM_QUOTA_REACHED";
                                   "QuotaExceededError"])
           then QuotaExceeded else WriteFailed (_value key Undefined)) s1 /\
    driver_items s1 = driver_items s /\
    emitted (world s1) = emitted (world s) /\
    beyond_storage s1 = beyond_storage s.
Proof.
  intros Ht Ho Hd Hs Hf. rewrite put_one by assumption.
  rewrite decrypt_item_plain. cbn zeta. rewrite Hf.
  exists (probe s). split; [reflexivity|]. split; [|split].
  - eapply driver_items_probe_faulty; eassumption.
  - apply probe_emitted.
  - apply beyond_storage_probe.
Qed.

(** *** Events of the closed forms *)

Lemma emitted_announce name payload s :
  emitted (world (announce name payload s)) =
  (emitted (world s) ++
   (if _eventsEnabled (this s)
    then [{| ev_name := name; ev_payload := tagged (this s) payload |}] else []))%list.
Proof.
  unfold announce. destruct (_eventsEnabled (this s)); [reflexivity|].
  rewrite app_nil_r. reflexivity.
Qed.

Lemma emitted_written key text s : emitted (world (written key text s)) = emitted (world s).
Proof. unfold written. cbn [world]. destruct (_driver (this s)); reflexivity. Qed.

Lemma emitted_removed key s : emitted (world (removed key s)) = emitted (world s).
Proof. unfold removed. cbn [world]. destruct (_driver (this s)); reflexivity. Qed.

Lemma beyond_storage_removed key s : beyond_storage (removed key s) = beyond_storage s.
Proof. unfold beyond_storage, removed. cbn [this world]. destruct (_driver (this s)); reflexivity. Qed.

Lemma fault_written key text b s :
  fault (storage b (world (written key text s))) = fault (storage b (world s)).
Proof. unfold written. cbn [world]. destruct b, (_driver (this s)); reflexivity. Qed.

Lemma fault_announce name payload b s :
  fault (storage b (world (announce name payload s))) = fault (storage b (world s)).
Proof. unfold announce. destruct (_eventsEnabled (this s)); [|reflexivity]. destruct b; reflexivity. Qed.

Lemma cryptoKey_value_beyond (s s' : State) :
  beyond_storage s' = beyond_storage s -> cryptoKey_value s' = cryptoKey_value s.
Proof.
  intros H. unfold beyond_storage in H. unfold cryptoKey_value.
  pose proof (f_equal (fun t => _cryptoKey (t.1.1.1.1)) H) as Hc.
  pose proof (f_equal (fun t => t.1.1.1.2) H) as Hsl.
  cbn [fst snd _cryptoKey set_supported] in Hc, Hsl. rewrite Hc, Hsl. reflexivity.
Qed.

Lemma emitted_write_event_length s0 key value e s :
  length (emitted (world (write_event host s0 key value e s))) =
  (length (emitted (world s)) + (if _eventsEnabled (this s) then 1 else 0))%nat.
Proof.
  unfold write_event.
  match goal with |- context [if ?b then _ else _] => destruct b end;
    rewrite emitted_announce, length_app; destruct (_eventsEnabled (this s)); reflexivity.
Qed.

(** *** A batch of writes *)

Lemma setItem_fold_ready (l : list (data * data)) (enc : bool) (s : State) :
  ready s ->
  fault (storage (_driver (this s)) (world s)) = None ->
  exists s1,
    forEach l (fun kv => _setItem host (fst kv) (snd kv) enc) s = Ok tt s1 /\
    this s1 = this s /\
    driver_items s1 =
      fold_left (fun m kv => <[_getPrefix (this s) (fst kv) :=
                                 ToString (encrypt_item host s enc (_serialize host (snd kv)))]> m)
                l (driver_items s) /\
    beyond_storage s1 = beyond_storage s /\
    length (emitted (world s1)) =
      (length (emitted (world s)) + (if _eventsEnabled (this s) then length l else 0))%nat.
Proof.
  revert s. induction l as [|[k v] l IH]; intros s H Hf.
  - exists s. repeat split. cbn [length]. destruct (_eventsEnabled (this s)); lia.
  - cbn [forEach fst snd fold_left]. unfold mbind at 1, M_bind at 1.
    rewrite setItem_ready by exact H. rewrite Hf.
    set (text := ToString (encrypt_item host s enc (_serialize host v))).
    set (s' := write_event host s k v enc (written k text s)).
    assert (Ht : this s' = this s) by (unfold s'; rewrite this_write_event; reflexivity).
    assert (Hb : beyond_storage s' = beyond_storage s).
    { unfold s'. rewrite beyond_storage_write_event. apply beyond_storage_written. }
    assert (Hr : ready s') by (unfold ready; rewrite Ht; exact H).
    assert (Hf' : fault (storage (_driver (this s')) (world s')) = None).
    { rewrite Ht. unfold s', write_event.
      match goal with |- context [if ?b then _ else _] => destruct b end;
        rewrite fault_announce, fault_written; exact Hf. }
    destruct (IH s' Hr Hf') as (s1 & E & T1 & I1 & B1 & L1).
    exists s1. split; [exact E|]. split; [congruence|]. split; [|split].
    + rewrite I1, Ht. unfold s' at 2. rewrite driver_items_write_event, driver_items_written.
      fold text. apply fold_left_ext'. intros m kv.
      rewrite (encrypt_item_ext s' s) by (apply cryptoKey_value_beyond, Hb). reflexivity.
    + congruence.
    + rewrite L1, Ht. unfold s'. rewrite emitted_write_event_length, emitted_written.
      change (this (written k text s)) with (this s).
      cbn [length]. destruct (_eventsEnabled (this s)); lia.
Qed.

Lemma prop_absent (k : string) (l : list (string * data)) :
  has_prop k l = false -> prop k l = Undefined.
Proof.
  induction l as [|[k' v] l IH]; [reflexivity|]. cbn [has_prop existsb fst prop].
  destruct (String.eqb k' k); [discriminate|exact IH].
Qed.

Lemma entries_plain_object (l : list (string * data)) :
  has_prop "length" l = false -> truthy (prop "forEach" l) = false ->
  entries (Obj l) = Ret (List.map (fun kv => (Str (fst kv), snd kv)) l).
Proof.
  intros Hl Hf. unfold entries, arrayLike_length. rewrite (prop_absent _ _ Hl), Hf.
  reflexivity.
Qed.

(** X3: [put] of an object or an array makes one write per pair that
    [angular.forEach] visits, whatever the second argument is.  On a
    supported backend whose storage accepts the writes it returns the
    instance, the storage holds the entries it held with each text
    written in turn, one event is emitted per write when events are
    enabled, and nothing beyond the storages changes.  The pairs are
    the elements of an array under their indices, and the own
    properties of an object that has no [length] property and no truthy
    [forEach] property.  When [angular.forEach] calls the [forEach]
    property of the object, [put] throws the TypeError and does
    nothing. *)
Theorem put_batch (key : data) (value : value) (enc : bool) (s : State) :
  isObject key = true ->
  supportedb s = true ->
  fault (storage (_driver (this s)) (world s)) = None ->
  (forall l, key = Arr l -> entries key = Ret (imap (fun i x => (Num (Int (Z.of_nat i)), x)) l)) /\
  (forall l, key = Obj l -> has_prop "length" l = false -> truthy (prop "forEach" l) = false ->
             entries key = Ret (List.map (fun kv => (Str (fst kv), snd kv)) l)) /\
  match entries key with
  | Ret l =>
      let s0 := match l with [] => s | _ => probe s end in
      exists s1,
        put host (Val key) value enc s = Ok true s1 /\
        driver_items s1 =
          fold_left (fun m kv => <[_getPrefix (this s) (fst kv) :=
                                     ToString (encrypt_item host s enc (_serialize host (snd kv)))]> m)
                    l (driver_items s0) /\
        beyond_storage s1 = beyond_storage s /\
        length (emitted (world s1)) =
          (length (emitted (world s)) + (if _eventsEnabled (this s) then length l else 0))%nat
  | Throw e => e = TypeError /\ put host (Val key) value enc s = Err e s
  end.
Proof.
  intros Ho Hs Hf.
  split; [intros l ->; reflexivity|]. split; [intros l ->; apply entries_plain_object|].
  assert (Ht : truthy key = true) by (destruct key; try discriminate; reflexivity).
  destruct (entries key) as [[|kv l]|e] eqn:El.
  - exists s. unfold put. cbn [truthy_value _value]. rewrite Ht, Ho, El. cbn [negb forEach].
    repeat split. destruct (_eventsEnabled (this s)); cbn [length]; lia.
  - cbn zeta. rewrite guarded_put; [|exact Ht|cbn [_value]; rewrite Ho, El; eauto].
    rewrite Hs. unfold put. cbn [truthy_value _value]. rewrite Ht, Ho, El. cbn [negb].
    destruct (setItem_fold_ready (kv :: l) enc (probe s)) as (s1 & E & T1 & I1 & B1 & L1).
    { apply ready_probe, Hs. }
    { rewrite probe_driver, probe_fault. exact Hf. }
    exists s1. unfold mbind, M_bind. rewrite E. split; [reflexivity|]. split; [|split].
    + rewrite I1. apply fold_left_ext'. intros m x. rewrite probe_getPrefix.
      rewrite (encrypt_item_ext (probe s) s) by apply probe_cryptoKey_value. reflexivity.
    + rewrite B1. apply beyond_storage_probe.
    + rewrite L1, probe_emitted, probe_eventsEnabled. reflexivity.
  - split.
    + destruct key as [| | | | |l|l]; try discriminate.
      unfold entries in El. destruct (arrayLike_length l); [discriminate|].
      destruct (truthy (prop "forEach" l)); congruence.
    + unfold put. cbn [truthy_value _value]. rewrite Ht, Ho, El. reflexivity.
Qed.

(** *** Removing *)

Lemma forget_one_ready (key : value) (s : State) :
  ready s -> isArray (_value key Undefined) = false ->
  forget key s =
  if present s (_value key Undefined)
  then Ok tt (announce "locker.item.forgotten" [("key", _value key Undefined)]
                (removed (_value key Undefined) s))
  else Ok tt s.
Proof.
  intros H Hk. unfold forget.
  assert (E : (match _value key Undefined with
               | Arr ks => forEach ks (fun k => _removeItem k;; mret tt)
               | _ => _removeItem (_value key Undefined);; mret tt
               end) s = (_removeItem (_value key Undefined);; mret tt) s)
    by (destruct (_value key Undefined); try reflexivity; discriminate).
  rewrite E. munfold. rewrite removeItem_ready by exact H.
  destruct (present s (_value key Undefined)); reflexivity.
Qed.

Lemma not_array_ne (k : data) : isArray k = false -> k <> Arr [].
Proof. intros H ->. discriminate. Qed.

(** X4: on a supported backend [forget] of one key returns the
    instance.  When the prefixed key is an own property of the storage
    (what [has] tests), its entry is removed and, with events enabled,
    exactly one [locker.item.forgotten] event is emitted, carrying the
    key, the driver name and the namespace.  Otherwise nothing is
    removed and nothing is emitted: this is the case of a key that does
    not exist, and of an entry stored under a name the storage
    inherits, which stays.  Every other entry is as the support probe
    left it.  A function given as the key is called to obtain it.
    [has] is false afterwards. *)
Theorem forget_removes_key (key : value) (s : State) :
  isArray (_value key Undefined) = false ->
  supportedb s = true ->
  let k := _value key Undefined in
  let p := _getPrefix (this s) k in
  let existed := own_property (driver_items (probe s)) p in
  exists s1,
    forget key s = Ok tt s1 /\
    driver_items s1 =
      (if existed then delete p (driver_items (probe s)) else driver_items (probe s)) /\
    emitted (world s1) =
      (emitted (world s) ++
       if existed && _eventsEnabled (this s)
       then [{| ev_name := "locker.item.forgotten";
                ev_payload := [("key", k);
                               ("driver", opt_str (_deriveDriver (_driver (this s))));
                               ("namespace", Str (_namespace (this s)))] |}]
       else [])%list /\
    beyond_storage s1 = beyond_storage s /\
    has key s1 = Ok false s1.
Proof.
  intros Hk Hs k p existed. rewrite guarded_forget by (apply not_array_ne, Hk). rewrite Hs.
  assert (Hr := ready_probe s Hs).
  rewrite forget_one_ready by assumption. fold k. unfold present.
  rewrite probe_getPrefix. fold p. fold existed.
  destruct existed eqn:E.
  - cbn [andb].
    set (s1 := announce _ _ _).
    assert (Ht : this s1 = this (probe s)) by (unfold s1; rewrite this_announce; reflexivity).
    assert (Hi : driver_items s1 = delete p (driver_items (probe s))).
    { unfold s1. rewrite driver_items_announce, driver_items_removed, probe_getPrefix.
      reflexivity. }
    exists s1. split; [reflexivity|]. split; [exact Hi|]. split; [|split].
    + unfold s1. rewrite emitted_announce, emitted_removed, probe_emitted.
      change (this (removed k (probe s))) with (this (probe s)).
      rewrite probe_eventsEnabled. destruct (_eventsEnabled (this s)); [|reflexivity].
      rewrite probe_this. reflexivity.
    + unfold s1. rewrite beyond_storage_announce, beyond_storage_removed.
      apply beyond_storage_probe.
    + unfold has. rewrite exists_ready by (unfold ready; rewrite Ht; exact Hr).
      fold k. unfold present. rewrite Ht, probe_getPrefix, Hi. fold p.
      rewrite own_property_None by apply lookup_delete_eq. reflexivity.
  - cbn [andb].
    exists (probe s). split; [reflexivity|]. split; [reflexivity|]. split; [|split].
    + rewrite app_nil_r. apply probe_emitted.
    + apply beyond_storage_probe.
    + unfold has. rewrite exists_ready by exact Hr. fold k. unfold present.
      rewrite probe_getPrefix. fold p. fold existed. rewrite E. reflexivity.
Qed.

Lemma forget_fold_data (ks : list data) (s : State) :
  ready s ->
  exists s' evs,
    forEach ks (fun k => _removeItem k;; mret tt) s = Ok tt s' /\
    this s' = this s /\
    (forall p, driver_items s' !! p =
               if bool_decide (p ∈ _getPrefix (this s) <$> ks) && negb (inherited p)
               then None else driver_items s !! p) /\
    beyond_storage s' = beyond_storage s /\
    emitted (world s') = (emitted (world s) ++ evs)%list /\
    Forall (fun e => ev_name e = "locker.item.forgotten") evs /\
    (length evs <= length ks)%nat.
Proof.
  revert s. induction ks as [|k ks IH]; intros s H.
  - exists s, []. split; [reflexivity|]. split; [reflexivity|]. split.
    { intros p. rewrite bool_decide_eq_false_2 by apply not_elem_of_nil. reflexivity. }
    split; [reflexivity|]. split; [rewrite app_nil_r; reflexivity|]. split; [constructor|].
    cbn [length]. lia.
  - cbn [forEach]. unfold mbind, M_bind. cbn beta. rewrite removeItem_ready by exact H.
    unfold present.
    destruct (own_property (driver_items s) (_getPrefix (this s) k)) eqn:E.
    + apply own_property_true in E as [Hinh _]. unfold mret at 1, M_ret at 1.
      set (s1 := announce _ _ _).
      assert (Ht : this s1 = this s) by (unfold s1; rewrite this_announce; reflexivity).
      destruct (IH s1) as (s' & evs & E' & T' & L' & B' & M' & F' & N').
      { unfold ready. rewrite Ht. exact H. }
      exists s'. eexists. split; [exact E'|]. split; [congruence|]. split; [|split; [|split]].
      * intros p. rewrite L', Ht. unfold s1.
        rewrite driver_items_announce, driver_items_removed. cbn [fmap list_fmap].
        destruct (decide (p = _getPrefix (this s) k)) as [->|N].
        -- rewrite (bool_decide_eq_true_2 (_ ∈ _ :: _)) by apply list_elem_of_here.
           rewrite lookup_delete_eq, Hinh. cbn [negb]. rewrite andb_true_r.
           destruct (bool_decide _); reflexivity.
        -- rewrite lookup_delete_ne by congruence.
           destruct (decide (p ∈ _getPrefix (this s) <$> ks)) as [Hin|Hnin].
           ++ rewrite !bool_decide_eq_true_2
                by (exact Hin || (apply list_elem_of_further; exact Hin)). reflexivity.
           ++ rewrite !bool_decide_eq_false_2; [reflexivity| |exact Hnin].
              intros [?|?]%elem_of_cons; [congruence|contradiction].
      * rewrite B'. unfold s1. rewrite beyond_storage_announce. apply beyond_storage_removed.
      * rewrite M'. unfold s1. rewrite emitted_announce, emitted_removed, <- app_assoc.
        reflexivity.
      * split.
        -- apply Forall_app. split; [|exact F'].
           destruct (_eventsEnabled (this (removed k s))); repeat constructor.
        -- rewrite length_app. destruct (_eventsEnabled (this (removed k s)));
             cbn [length]; lia.
    + unfold mret at 1, M_ret at 1.
      destruct (IH s H) as (s' & evs & E' & T' & L' & B' & M' & F' & N').
      exists s', evs. split; [exact E'|]. split; [exact T'|]. split; [|split; [|split; [|split]]];
        try assumption.
      * intros p. rewrite L'. cbn [fmap list_fmap].
        destruct (decide (p = _getPrefix (this s) k)) as [->|N].
        -- rewrite (bool_decide_eq_true_2 (_ ∈ _ :: _)) by apply list_elem_of_here.
           destruct (inherited (_getPrefix (this s) k)) eqn:Hinh;
             [rewrite !andb_false_r; reflexivity|].
           cbn [negb]. rewrite !andb_true_r.
           rewrite (own_property_false _ _ E Hinh). destruct (bool_decide _); reflexivity.
        -- destruct (decide (p ∈ _getPrefix (this s) <$> ks)) as [Hin|Hnin].
           ++ rewrite !bool_decide_eq_true_2
                by (exact Hin || (apply list_elem_of_further; exact Hin)). reflexivity.
           ++ rewrite !bool_decide_eq_false_2; [reflexivity| |exact Hnin].
              intros [?|?]%elem_of_cons; [congruence|contradiction].
      * cbn [length]. lia.
Qed.

(** X5: on a supported backend [forget] of a sequence of keys returns
    the instance and removes the entries of the listed keys (a key that
    does not exist, or is listed twice, is passed over, and so is an
    entry stored under a name the storage inherits, which stays); every
    other entry is as before.  The events it emits are
    [locker.item.forgotten] events, at most one per listed key.  An
    empty sequence does not even probe support. *)
Theorem forget_sequence (key : value) (ks : list data) (s : State) :
  _value key Undefined = Arr ks ->
  supportedb s = true ->
  let s0 := match ks with [] => s | _ => probe s end in
  exists s1 evs,
    forget key s = Ok tt s1 /\
    (forall p, driver_items s1 !! p =
               if bool_decide (p ∈ _getPrefix (this s) <$> ks) && negb (inherited p)
               then None
               else driver_items s0 !! p) /\
    this s1 = this s0 /\
    beyond_storage s1 = beyond_storage s /\
    emitted (world s1) = (emitted (world s) ++ evs)%list /\
    Forall (fun e => ev_name e = "locker.item.forgotten") evs /\
    (length evs <= length ks)%nat.
Proof.
  intros Hk Hs s0. destruct ks as [|k ks].
  - exists s, []. unfold forget. rewrite Hk. split; [reflexivity|]. split.
    { intros p. rewrite bool_decide_eq_false_2 by apply not_elem_of_nil. reflexivity. }
    split; [reflexivity|]. split; [reflexivity|]. split; [rewrite app_nil_r; reflexivity|].
    split; [constructor|]. cbn [length]. lia.
  - rewrite guarded_forget by (rewrite Hk; discriminate). rewrite Hs.
    unfold forget. rewrite Hk.
    destruct (forget_fold_data (k :: ks) (probe s) (ready_probe s Hs))
      as (s1 & evs & E & T & L & B & M' & F & N).
    exists s1, evs. split; [exact E|]. split; [|split; [|split; [|split; [|split]]]];
      try assumption.
    + intros p. rewrite L.
      replace (_getPrefix (this (probe s)) <$> k :: ks) with (_getPrefix (this s) <$> k :: ks);
        [reflexivity|].
      apply list_fmap_ext. intros ? x _. symmetry. apply probe_getPrefix.
    + rewrite B. apply beyond_storage_probe.
    + rewrite M', probe_emitted. reflexivity.
Qed.

(** X6: on a supported backend [pull] of one key returns what [get]
    with a default returns and then forgets the key: when the prefixed
    key is an own property of the storage its entry is removed,
    otherwise (a key that does not exist, or an entry stored under a
    name the storage inherits) the default is returned and nothing is
    removed; the other entries are as before.  When the read throws
    (the cipher rejects the entry), [pull] throws the same exception
    and removes nothing. *)
Theorem pull_reads_then_forgets (key def : data) (enc : bool) (s : State) :
  isArray key = false ->
  supportedb s = true ->
  let p := _getPrefix (this s) key in
  match pull host key def enc s with
  | Ok g s1 =>
      returned (get host 3 key def enc s) = Ret g /\
      driver_items s1 =
        (if own_property (driver_items (probe s)) p
         then delete p (driver_items (probe s)) else driver_items (probe s)) /\
      (own_property (driver_items (probe s)) p = false -> g = Single def) /\
      beyond_storage s1 = beyond_storage s
  | Err e s1 =>
      returned (get host 3 key def enc s) = Throw e /\
      s1 = probe s
  end.
Proof.
  intros Hk Hs p. assert (Hr := ready_probe s Hs).
  rewrite guarded_pull, guarded_get by (apply not_array_ne, Hk). rewrite Hs.
  unfold pull. unfold mbind at 1, M_bind at 1.
  rewrite get_ready by assumption.
  assert (Hp : present (probe s) key = own_property (driver_items (probe s)) p).
  { unfold present. rewrite probe_getPrefix. reflexivity. }
  rewrite <- Hp.
  destruct (present (probe s) key) eqn:P.
  - destruct (decrypt_item host (probe s) enc (raw (probe s) key)) as [item|e];
      [|split; reflexivity].
    unfold mbind, M_bind.
    rewrite (forget_one_ready (Val key)) by assumption. cbn [_value]. rewrite P.
    cbn [mret M_ret]. unfold mret, M_ret. split; [reflexivity|]. split; [|split].
    + rewrite driver_items_announce, driver_items_removed, probe_getPrefix. reflexivity.
    + discriminate.
    + rewrite beyond_storage_announce, beyond_storage_removed. apply beyond_storage_probe.
  - unfold mbind, M_bind.
    rewrite (forget_one_ready (Val key)) by assumption. cbn [_value]. rewrite P.
    unfold mret, M_ret. split; [reflexivity|]. split; [reflexivity|].
    split; [reflexivity|apply beyond_storage_probe].
Qed.

(** X7: on a supported backend [add] answers whether [has] did not
    find the key, that is, whether the prefixed key was not an own
    property of the storage.  For a key that [has] finds it returns
    false and changes nothing.  Otherwise it returns true: with a
    truthy key and a defined value the entry is written as by [put]
    (over the entry that is there, when the prefixed key is a name the
    storage inherits); and the answer is still true when the [put] it
    delegates to declines to write (a falsy key, or an undefined value
    for a key that is not an object), in which case nothing is stored
    and no event is emitted. *)
Theorem add_answers_absence (key value : value) (enc : bool) (s : State) :
  supportedb s = true ->
  let k := _value key Undefined in
  let p := _getPrefix (this s) k in
  let existed := own_property (driver_items (probe s)) p in
  (existed = true -> add host key value enc s = Ok false (probe s)) /\
  (existed = false ->
   truthy_value key = false \/
   (isObject k = false /\ isDefined_value value = false) ->
   add host key value enc s = Ok true (probe s)) /\
  (existed = false ->
   truthy_value key = true -> isObject k = false ->
   isDefined_value value = true ->
   fault (storage (_driver (this s)) (world s)) = None ->
   exists s1,
     add host key value false s = Ok true s1 /\
     driver_items s1 =
       <[p := ToString (_serialize host
                          (_value value (_unserialize host (raw (probe s) k))))]>
         (driver_items (probe s))).
Proof.
  intros Hs k p existed. assert (Hr := ready_probe s Hs).
  assert (E : forall e, add host key value e s =
              if existed then Ok false (probe s)
              else (put host key value e;; mret true) (probe s)).
  { intros e. rewrite guarded_add, Hs. unfold add, has. unfold mbind at 1, M_bind at 1.
    rewrite exists_ready by exact Hr. unfold present. rewrite probe_getPrefix.
    fold k. fold p. fold existed. destruct existed; reflexivity. }
  rewrite !E. split; [|split].
  - intros ->. reflexivity.
  - intros -> Hput.
    unfold mbind, M_bind, put. destruct Hput as [Ht|[Ho Hd]].
    + rewrite Ht. reflexivity.
    + destruct (truthy_value key); [|reflexivity]. cbn [negb]. fold k. rewrite Ho, Hd.
      reflexivity.
  - intros -> Ht Ho Hd Hf.
    unfold mbind, M_bind. rewrite put_one_ready by assumption.
    rewrite decrypt_item_plain. cbn zeta. rewrite probe_driver, probe_fault, Hf.
    rewrite encrypt_item_plain. eexists. split; [reflexivity|].
    rewrite driver_items_write_event, driver_items_written, probe_getPrefix. reflexivity.
Qed.

(** X8: an entry whose text the JSON parser rejects is returned as it
    is stored: on a supported backend [get] of such a key returns the
    raw text as a string, provided the prefixed key is not a name the
    storage inherits (for which [has] is false). *)
Theorem get_returns_undecodable_text (key : data) (r : string) (e : exn) (s : State) :
  isArray key = false ->
  supportedb s = true ->
  inherited (_getPrefix (this s) key) = false ->
  driver_items (probe s) !! _getPrefix (this s) key = Some r ->
  fromJson host r = Throw e ->
  get host 1 key Undefined false s = Ok (Single (Str r)) (probe s).
Proof.
  intros Hk Hs Hi Hr He. rewrite guarded_get by (apply not_array_ne, Hk). rewrite Hs.
  rewrite get_ready by (auto using ready_probe).
  unfold present, raw. rewrite probe_getPrefix, Hr.
  rewrite (own_property_Some _ _ _ Hr), Hi. cbn [negb]. rewrite decrypt_item_plain.
  unfold _unserialize, angular_fromJson. rewrite He. reflexivity.
Qed.

(** *** Reading *)

Lemma final_bind_ret {A B : Type} (m : M A) (f : A -> B) (s : State) :
  final ((x ← m; mret (f x)) s) = final (m s).
Proof. unfold mbind, M_bind, mret, M_ret. destruct (m s); reflexivity. Qed.

Lemma final_get (argc : nat) (key def : data) (enc : bool) (s : State) :
  final (get host argc key def enc s) = s \/ final (get host argc key def enc s) = probe s.
Proof.
  destruct (supportedb s) eqn:Hs.
  - destruct (isArray key) eqn:Hk.
    + destruct key as [| | | | |ks|]; try discriminate.
      pose proof (get_sequence argc ks def enc s Hs) as E. cbn zeta in E. rewrite E.
      destruct ks as [|k ks]; [left|right];
        match goal with |- context [collect_as ?a ?b ?c ?d ?e] =>
          destruct (collect_as a b c d e) end; reflexivity.
    + right. rewrite guarded_get by (apply not_array_ne, Hk). rewrite Hs.
      rewrite get_ready by (auto using ready_probe).
      destruct (present (probe s) key); [|reflexivity].
      destruct (decrypt_item host (probe s) enc (raw (probe s) key)); reflexivity.
  - assert (N : key = Arr [] \/ key <> Arr []).
    { destruct key as [| | | | |[|k ks]|]; (left; reflexivity) || (right; discriminate). }
    destruct N as [->|N]; [left; reflexivity|].
    right. rewrite guarded_get by exact N. rewrite Hs. reflexivity.
Qed.

Lemma final_all (s : State) : final (all host s) = s \/ final (all host s) = probe s.
Proof.
  destruct (enumerable (driver_items s)) eqn:He.
  - destruct (supportedb s) eqn:Hs.
    + pose proof (all_supported s Hs He) as E. cbn zeta in E. rewrite E.
      destruct (physical_keys s); [left|right]; reflexivity.
    + rewrite all_unfold, visits_enumerable by exact He.
      destruct (physical_keys s) as [|k l] eqn:El; [left; reflexivity|right].
      change (Str <$> k :: l) with (Str k :: (Str <$> l)).
      rewrite (guarded_foldM _ _ _ _ (all_step_guarded empty_object k)), Hs. reflexivity.
  - left. rewrite all_not_enumerable by exact He. reflexivity.
Qed.

(** X9: the reading calls ([get], [has], [all], [count], [getDriver],
    [getNamespace]) write nothing and emit nothing, whether they return
    or throw: the state they end in is the state they started in, or
    that state after the support probe of an instance that had not been
    probed yet. *)
Theorem reads_change_nothing (c : call) (s : State) :
  reads c = true ->
  (final (exec host c s) = s \/ final (exec host c s) = probe s) /\
  (_supported (this s) <> None -> final (exec host c s) = s).
Proof.
  intros Hc.
  assert (H : final (exec host c s) = s \/ final (exec host c s) = probe s).
  { destruct c; try discriminate; cbn [exec]; rewrite ?final_bind_ret.
    - apply final_get.
    - right. unfold has. rewrite guarded_exists.
      destruct (supportedb s) eqn:Hs; [|reflexivity].
      rewrite exists_ready by (apply ready_probe, Hs). reflexivity.
    - apply final_all.
    - unfold count. rewrite final_bind_ret. apply final_all.
    - left. reflexivity.
    - left. reflexivity. }
  split; [exact H|]. intros Hp. destruct H as [H|H]; [exact H|]. rewrite H.
  unfold probe. destruct (_supported (this s)); [reflexivity|congruence].
Qed.

(** *** Events switched off *)

Ltac keeps_quiet :=
  repeat keeps_step;
  try (unfold silenced; cbn [this world];
       repeat match goal with
              | |- context [set_storage ?b _ _] =>
                  lazymatch b with Local => fail | Session => fail | _ => destruct b end
              end;
       reflexivity).

Lemma quiet_checkSupport d : keeps silenced (_checkSupport d).
Proof. unfold _checkSupport, _resolveDriver, removeItem, _error. keeps_quiet. Qed.
#[local] Hint Resolve quiet_checkSupport : keeps.

Lemma quiet_assert_supported : keeps silenced assert_supported.
Proof. unfold assert_supported, _error. keeps_quiet. Qed.
#[local] Hint Resolve quiet_assert_supported : keeps.

Lemma quiet_event name payload : keeps silenced (_event name payload).
Proof.
  intros s. rewrite event_spec. unfold announce, silenced. cbn [final].
  destruct (_eventsEnabled (this s)) eqn:E; cbn [this world]; rewrite E; reflexivity.
Qed.
#[local] Hint Resolve quiet_event : keeps.

Lemma quiet_exists key : keeps silenced (_exists key).
Proof. unfold _exists, hasOwnProperty. keeps_quiet. Qed.
#[local] Hint Resolve quiet_exists : keeps.

Lemma quiet_getItem key e : keeps silenced (_getItem host key e).
Proof. unfold _getItem, getItem. keeps_quiet. Qed.
#[local] Hint Resolve quiet_getItem : keeps.

Lemma quiet_setItem key value e : keeps silenced (_setItem host key value e).
Proof. unfold _setItem, _error. keeps_quiet. Qed.
#[local] Hint Resolve quiet_setItem : keeps.

Lemma quiet_removeItem key : keeps silenced (_removeItem key).
Proof. unfold _removeItem, removeItem. keeps_quiet. Qed.
#[local] Hint Resolve quiet_removeItem : keeps.

Lemma quiet_put key value e : keeps silenced (put host key value e).
Proof. unfold put. keeps_quiet. Qed.
#[local] Hint Resolve quiet_put : keeps.

Lemma quiet_has key : keeps silenced (has key).
Proof. unfold has. keeps_quiet. Qed.
#[local] Hint Resolve quiet_has : keeps.

Lemma quiet_get argc key def e : keeps silenced (get host argc key def e).
Proof. unfold get. keeps_quiet. Qed.
#[local] Hint Resolve quiet_get : keeps.

Lemma quiet_forget key : keeps silenced (forget key).
Proof. unfold forget. keeps_quiet. Qed.
#[local] Hint Resolve quiet_forget : keeps.

Lemma quiet_all_step acc key : keeps silenced (all_step host acc key).
Proof. unfold all_step. keeps_quiet. Qed.
#[local] Hint Resolve quiet_all_step : keeps.

Lemma quiet_all : keeps silenced (all host).
Proof. unfold all. keeps_quiet. Qed.
#[local] Hint Resolve quiet_all : keeps.

Lemma quiet_instance d ns : keeps silenced (instance d ns).
Proof.
  intros s. unfold instance, new_Locker, _resolveDriver, _error.
  unfold mbind, M_bind, mret, M_ret, gets, modify_world, throw, call_on. cbn beta.
  destruct (assoc d _registeredDrivers) as [b|]; [|reflexivity]. cbn iota beta.
  rewrite setCryptoKey_spec. cbn [this world snd fst final].
  destruct (cryptoKey_value _) as [k|]; [|reflexivity].
  destruct (blank k); reflexivity.
Qed.
#[local] Hint Resolve quiet_instance : keeps.

Lemma quiet_exec (c : call) : keeps silenced (exec host c).
Proof.
  destruct c; cbn [exec];
    unfold add, pull, clean, empty, clear, count, bind, bindEncrypted, bind_with, unbind,
      scope_eval, scope_watch, scope_assign, dispose, driver, namespace, getDriver,
      getNamespace, supported, setCryptoKey, clearWatchers;
    keeps_quiet.
Qed.

(** X10: an instance whose events are disabled emits nothing, whatever
    is called on it and whether the call returns or throws; the flag
    itself is never changed by a call. *)
Theorem disabled_events_emit_nothing (c : call) (s : State) :
  _eventsEnabled (this s) = false ->
  emitted (world (final (exec host c s))) = emitted (world s) /\
  _eventsEnabled (this (final (exec host c s))) = false.
Proof.
  intros H. pose proof (quiet_exec c s) as Hq. unfold silenced in Hq.
  rewrite H in Hq. injection Hq as H1 H2. rewrite H1 in H2. split; [exact H2|exact H1].
Qed.

(** *** Emptying the storage *)

Lemma visits_empty : visits ∅ = Ret [].
Proof. vm_compute. reflexivity. Qed.

(** X11: [empty] clears the whole storage the instance is bound to, the
    entries of every namespace included, without asserting support and
    without emitting an event; it never throws, and the other storage,
    the events and the instance are as before.  Afterwards [all] is
    empty and [count] is 0. *)
Theorem empty_clears_storage (s : State) :
  exists s1,
    empty s = Ok tt s1 /\
    driver_items s1 = ∅ /\
    this s1 = this s /\
    (forall b, b <> _driver (this s) -> storage b (world s1) = storage b (world s)) /\
    emitted (world s1) = emitted (world s) /\
    all host s1 = Ok empty_object s1 /\
    count host s1 = Ok 0%nat s1.
Proof.
  eexists. split; [reflexivity|]. cbn [this world].
  assert (Hi : driver_items
                 {| this := this s;
                    world := set_storage (_driver (this s))
                               (set_items ∅ (storage (_driver (this s)) (world s))) (world s) |}
               = ∅).
  { unfold driver_items. cbn [this world]. rewrite storage_set_storage. reflexivity. }
  split; [exact Hi|]. split; [reflexivity|]. split; [|split; [|split]].
  - intros b Hb. destruct b, (_driver (this s)); try congruence; reflexivity.
  - destruct (_driver (this s)); reflexivity.
  - rewrite all_unfold, Hi, visits_empty. reflexivity.
  - unfold count. unfold mbind, M_bind. rewrite all_unfold, Hi, visits_empty.
    reflexivity.
Qed.

(** *** Physical keys *)

Lemma append_char_inj (c : ascii) (a b x y : string) :
  forallb (fun z => negb (Ascii.eqb z c)) (list_ascii_of_string a) = true ->
  forallb (fun z => negb (Ascii.eqb z c)) (list_ascii_of_string b) = true ->
  a ++ String c x = b ++ String c y -> a = b.
Proof.
  revert b. induction a as [|p a IH]; intros [|q b] Ha Hb E.
  - reflexivity.
  - exfalso. rewrite append_cons in E. change ("" ++ String c x) with (String c x) in E.
    injection E as E1 _. cbn [list_ascii_of_string forallb] in Hb.
    apply andb_true_iff in Hb as [Hq _]. apply negb_true_iff, Ascii.eqb_neq in Hq. congruence.
  - exfalso. rewrite append_cons in E. change ("" ++ String c y) with (String c y) in E.
    injection E as E1 _. cbn [list_ascii_of_string forallb] in Ha.
    apply andb_true_iff in Ha as [Hp _]. apply negb_true_iff, Ascii.eqb_neq in Hp. congruence.
  - rewrite !append_cons in E. injection E as E1 E2.
    cbn [list_ascii_of_string forallb] in Ha, Hb.
    apply andb_true_iff in Ha as [_ Ha]. apply andb_true_iff in Hb as [_ Hb].
    rewrite (IH b Ha Hb E2), E1. reflexivity.
Qed.

Lemma append_cancel_l (a x y : string) : a ++ x = a ++ y -> x = y.
Proof.
  induction a as [|c a IH]; [auto|]. rewrite !append_cons. intros E. injection E as E.
  exact (IH E).
Qed.

(** X12: the prefixed key keeps the logical keys of one instance apart
    (two keys with the same prefixed key have the same string form),
    and it keeps namespaces apart: two instances with the same
    one-character separator and different non-empty namespaces that do
    not contain the separator never address the same entry. *)
Theorem namespaces_do_not_collide (l1 l2 : Locker) (k1 k2 : data) :
  (_getPrefix l1 k1 = _getPrefix l1 k2 -> ToString k1 = ToString k2) /\
  (namespace_ok l1 = true -> namespace_ok l2 = true ->
   _separator l1 = _separator l2 -> _namespace l1 <> _namespace l2 ->
   _getPrefix l1 k1 <> _getPrefix l2 k2).
Proof.
  split.
  - unfold _getPrefix. destruct (String.eqb (_namespace l1) ""); [auto|].
    intros E. apply append_cancel_l in E. apply append_cancel_l in E. exact E.
  - unfold namespace_ok, _getPrefix. intros H1 H2 Hsep Hns E.
    rewrite <- Hsep in H2, E.
    destruct (_separator l1) as [|c [|? ?]]; try discriminate.
    apply andb_true_iff in H1 as [N1 C1]. apply andb_true_iff in H2 as [N2 C2].
    apply negb_true_iff in N1, N2. rewrite N1, N2 in E.
    rewrite !append_cons in E. change ("" ++ ToString k1) with (ToString k1) in E.
    change ("" ++ ToString k2) with (ToString k2) in E.
    apply Hns. eapply append_char_inj; eassumption.
Qed.

(** *** Drivers and the support probe *)

(** X13: the registry of drivers holds the names [local] and [session]:
    every storage has a name that resolves back to it, a name that
    resolves is the name derived from the storage it resolves to, and
    any other name makes [_resolveDriver] throw DriverNotFound, which
    names the driver, with the state unchanged. *)
Theorem driver_names_round_trip (b : backend) (name : string) (s : State) :
  (exists n, _deriveDriver b = Some n /\ _resolveDriver n s = Ok b s) /\
  match _resolveDriver name s with
  | Ok b' s' => s' = s /\ _deriveDriver b' = Some name
  | Err e s' =>
      s' = s /\ name <> "local" /\ name <> "session" /\
      e = Error ("[angular-locker] The driver " ++ dquote ++ name ++ dquote ++ " was not found.")
  end.
Proof.
  split.
  - destruct b; eexists; split; reflexivity.
  - unfold _resolveDriver, _registeredDrivers. cbn [assoc].
    destruct (String.eqb "local" name) eqn:E1.
    { apply String.eqb_eq in E1. subst name. split; reflexivity. }
    destruct (String.eqb "session" name) eqn:E2.
    { apply String.eqb_eq in E2. subst name. split; reflexivity. }
    apply String.eqb_neq in E1, E2. repeat split; congruence.
Qed.

(** X14: [supported] never throws and its answer is cached.  On an
    instance that has not been probed it answers whether the named
    storage ([local] when none is named) is registered and accepts a
    write; from then on every call, whichever driver it names, returns
    the cached answer and changes nothing.  The probe leaves every
    entry other than the key [l] as it was, and emits nothing. *)
Theorem supported_is_cached (d d' : option string) (s : State) :
  exists b s1,
    supported d s = Ok b s1 /\
    _supported (this s1) = Some b /\
    supported d' s1 = Ok b s1 /\
    (_supported (this s) = None ->
     b = match assoc (or_local d) _registeredDrivers with
         | Some bk => bool_decide (fault (storage bk (world s)) = None)
         | None => false
         end) /\
    (_supported (this s) <> None -> s1 = s) /\
    (forall bk p, p <> "l" ->
                  items (storage bk (world s1)) !! p = items (storage bk (world s)) !! p) /\
    emitted (world s1) = emitted (world s).
Proof.
  assert (Hc : forall b0 s0, _supported (this s0) = Some b0 -> supported d' s0 = Ok b0 s0).
  { intros b0 s0 E. unfold supported, _checkSupport. munfold. cbn beta. rewrite E.
    cbn beta iota. rewrite E. reflexivity. }
  destruct (_supported (this s)) as [b0|] eqn:E.
  - exists b0, s. split; [|split; [exact E|split; [apply Hc, E|]]].
    + unfold supported, _checkSupport. munfold. cbn beta. rewrite E. cbn beta iota.
      rewrite E. reflexivity.
    + repeat split; congruence.
  - destruct (assoc (or_local d) _registeredDrivers) as [bk|] eqn:A;
      [destruct (fault (storage bk (world s))) as [name|] eqn:F|];
      (eexists _, _; split;
       [unfold supported, _checkSupport, _resolveDriver, setItem, removeItem; munfold;
        cbn beta; rewrite E; cbn beta iota; rewrite A; cbn beta iota;
        try (rewrite F; cbn beta iota); reflexivity|]);
      cbn [this world set_supported _supported default];
      (split; [reflexivity|]); (split; [apply Hc; reflexivity|]).
    + split; [intros _; rewrite bool_decide_eq_false_2 by congruence; reflexivity|].
      split; [congruence|]. split; reflexivity.
    + split; [intros _; rewrite bool_decide_eq_true_2 by reflexivity; reflexivity|].
      split; [congruence|]. split.
      * intros b' p Hp. destruct bk, b'; cbn [storage set_storage localStorage
          sessionStorage set_items items]; try reflexivity;
          rewrite lookup_delete_ne by congruence; apply lookup_insert_ne; congruence.
      * destruct bk; reflexivity.
    + split; [intros _; reflexivity|]. split; [congruence|]. split; reflexivity.
Qed.

(** X15: probing an unregistered driver does not throw DriverNotFound:
    on an instance that has not been probed, [supported] with a name
    that is not registered returns false and touches no storage, and
    the negative answer sticks: from then on [supported] returns false
    for every driver and [has] fails with UnsupportedBackend, whatever
    the state of the storages. *)
Theorem unknown_driver_probe_disables (d : option string) (s : State) :
  _supported (this s) = None ->
  assoc (or_local d) _registeredDrivers = None ->
  exists s1,
    supported d s = Ok false s1 /\
    world s1 = world s /\
    (forall d', supported d' s1 = Ok false s1) /\
    (forall key, has key s1 = Err UnsupportedBackend s1).
Proof.
  intros E A.
  exists {| this := set_supported (Some false) (this s); world := world s |}.
  split; [|split; [reflexivity|split]].
  - unfold supported, _checkSupport, _resolveDriver. munfold. cbn beta. rewrite E.
    cbn beta iota. rewrite A. reflexivity.
  - intros d'. unfold supported, _checkSupport. munfold. reflexivity.
  - intros key. unfold has. rewrite guarded_exists. reflexivity.
Qed.

(** *** Derived instances *)

(** X16: [instance], [driver] and [namespace] leave the receiver and
    the storages as they are and return a new instance: it is bound to
    the named storage ([namespace] keeps the receiver's) and has the
    given namespace ([driver] keeps the receiver's); its events flag and
    separator are the provider's defaults, not the receiver's; it has no
    watchers and its support has not been probed.  The call fails only
    for a driver name that is not registered, so [namespace] never
    fails. *)
Theorem derived_instance_shape (d : derivation) (s : State) :
  match derive d s with
  | Ok child s1 =>
      match d with
      | ByInstance dr ns =>
          assoc dr _registeredDrivers = Some (_driver child) /\ _namespace child = ns
      | ByDriver dr =>
          assoc dr _registeredDrivers = Some (_driver child) /\
          _namespace child = _namespace (this s)
      | ByNamespace ns => _driver child = _driver (this s) /\ _namespace child = ns
      end /\
      _eventsEnabled child = d_eventsEnabled (defaults (world s)) /\
      _separator child = d_separator (defaults (world s)) /\
      _watchers child = ∅ /\
      _supported child = None /\
      this s1 = this s /\
      localStorage (world s1) = localStorage (world s) /\
      sessionStorage (world s1) = sessionStorage (world s) /\
      emitted (world s1) = emitted (world s)
  | Err e s1 =>
      s1 = s /\
      match d with
      | ByInstance dr _ | ByDriver dr => assoc dr _registeredDrivers = None
      | ByNamespace _ => False
      end
  end.
Proof.
  assert (H : forall dr ns,
             match instance dr ns s with
             | Ok child s1 =>
                 (assoc dr _registeredDrivers = Some (_driver child) /\ _namespace child = ns) /\
                 _eventsEnabled child = d_eventsEnabled (defaults (world s)) /\
                 _separator child = d_separator (defaults (world s)) /\
                 _watchers child = ∅ /\
                 _supported child = None /\
                 this s1 = this s /\
                 localStorage (world s1) = localStorage (world s) /\
                 sessionStorage (world s1) = sessionStorage (world s) /\
                 emitted (world s1) = emitted (world s)
             | Err e s1 => s1 = s /\ assoc dr _registeredDrivers = None
             end).
  { intros dr ns. unfold instance, new_Locker, _resolveDriver, _error.
    unfold mbind, M_bind, mret, M_ret, gets, modify_world, throw, call_on. cbn beta.
    destruct (assoc dr _registeredDrivers) as [b|]; [|split; reflexivity]. cbn iota beta.
    rewrite setCryptoKey_spec. cbn [this world snd fst].
    destruct (cryptoKey_value _) as [k|]; [destruct (blank k)|]; repeat split. }
  destruct d as [dr ns|dr|ns]; cbn [derive].
  - apply H.
  - unfold driver. unfold mbind at 1, M_bind at 1, gets. apply H.
  - unfold namespace. unfold mbind at 1, M_bind at 1, gets.
    specialize (H (ToString (opt_str (_deriveDriver (_driver (this s))))) ns).
    destruct (instance _ ns s) as [child s1|e s1].
    + destruct H as [[Hd Hn] H]. split; [|exact H]. split; [|exact Hn].
      destruct (_driver (this s)); cbn in Hd; congruence.
    + destruct H as [_ H]. destruct (_driver (this s)); discriminate H.
Qed.

(** *** What no call changes *)

Lemma keeps_configuration_of_storage {A : Type} (m : M A) :
  keeps beyond_storage m -> keeps configuration m.
Proof.
  intros H s. specialize (H s). unfold beyond_storage in H. unfold configuration.
  pose proof (f_equal (fun t => t.1.1.1.1) H) as Ht. cbn [fst] in Ht.
  pose proof (f_equal _driver Ht) as H1. pose proof (f_equal _namespace Ht) as H2.
  pose proof (f_equal _eventsEnabled Ht) as H3. pose proof (f_equal _separator Ht) as H4.
  pose proof (f_equal _cryptoKey Ht) as H5.
  cbn [set_supported _driver _namespace _eventsEnabled _separator _cryptoKey] in *.
  congruence.
Qed.

Ltac keeps_config :=
  repeat keeps_step;
  try (unfold configuration; cbn [this world]; reflexivity).

Lemma configuration_instance d ns : keeps configuration (instance d ns).
Proof.
  intros s. unfold instance, new_Locker, _resolveDriver, _error.
  unfold mbind, M_bind, mret, M_ret, gets, modify_world, throw, call_on. cbn beta.
  destruct (assoc d _registeredDrivers) as [b|]; [|reflexivity]. cbn iota beta.
  rewrite setCryptoKey_spec. cbn [this world snd fst final].
  destruct (cryptoKey_value _) as [k|]; [|reflexivity].
  destruct (blank k); reflexivity.
Qed.

(** X17: no call of the public API re-targets the instance it is called
    on: the storage it is bound to, its namespace, its events flag, its
    separator and its crypto-key slot (the slot object; [setCryptoKey]
    changes what the slot holds) are the same after the call as before,
    whether the call returns or throws.  [driver] and [namespace]
    return a new instance instead. *)
Theorem calls_keep_configuration (c : call) (s : State) :
  configuration (final (exec host c s)) = configuration s.
Proof.
  revert s. change (keeps configuration (exec host c)).
  pose proof (fun argc k d b => keeps_configuration_of_storage _ (keeps_get argc k d b)) as Hget.
  pose proof (fun k => keeps_configuration_of_storage _ (keeps_forget k)) as Hforget.
  pose proof configuration_instance as Hinst.
  destruct c; cbn [exec];
    try solve [apply keeps_bind; [|intros ?; apply keeps_ret];
               apply keeps_configuration_of_storage; auto with keeps nocore];
    unfold bind, bindEncrypted, bind_with, unbind, scope_eval, scope_watch, scope_assign,
      dispose, driver, namespace, getDriver, getNamespace, supported, setCryptoKey,
      clearWatchers;
    keeps_config.
Qed.

(** *** The cipher *)

Lemma decrypt_item_stored (s : State) (c : Sjcl) (ck r : string) :
  sjcl host = Some c -> cryptoKey_value s = Some ck -> ck <> "" -> r <> "" ->
  decrypt_item host s true (Str r) =
  match sjcl_decrypt c ck r with
  | Ret plain => Ret (Str plain)
  | Throw e => Throw e
  end.
Proof.
  intros Hc Hk Hck Hr. unfold decrypt_item. rewrite Hc, Hk. cbn [truthy_key truthy andb ToString].
  apply String.eqb_neq in Hck, Hr. rewrite Hck, Hr. reflexivity.
Qed.

Lemma encrypt_item_text (s : State) (c : Sjcl) (ck text : string) :
  sjcl host = Some c -> cryptoKey_value s = Some ck -> ck <> "" ->
  encrypt_item host s true (Str text) =
  Str (if String.eqb text "" then "" else sjcl_encrypt c ck text).
Proof.
  intros Hc Hk Hck. unfold encrypt_item. rewrite Hc, Hk. cbn [truthy_key truthy andb ToString].
  apply String.eqb_neq in Hck. rewrite Hck. cbn [negb andb].
  destruct (String.eqb text "") eqn:E; [|reflexivity].
  apply String.eqb_eq in E. subst. reflexivity.
Qed.

(** X18: with a cipher whose [decrypt] inverts [encrypt] and whose
    ciphertexts are not empty, and a crypto key set, an encrypted [put]
    of a JSON-safe value under a non-empty string key whose prefixed
    key is not a name the storage inherits stores the ciphertext of the
    value's JSON text, and an encrypted [get] then returns the value.
    The entry the key held before must be one the cipher accepts, since
    [put] reads it first. *)
Theorem encrypted_round_trip (k : string) (v : data) (c : Sjcl) (ck : string) (s : State) :
  sjcl host = Some c ->
  cryptoKey_value s = Some ck ->
  ck <> "" ->
  (forall text, sjcl_decrypt c ck (sjcl_encrypt c ck text) = Ret text) ->
  (forall text, sjcl_encrypt c ck text <> "") ->
  k <> "" ->
  inherited (_getPrefix (this s) (Str k)) = false ->
  json_safe host v ->
  supportedb s = true ->
  fault (storage (_driver (this s)) (world s)) = None ->
  (driver_items (probe s) !! _getPrefix (this s) (Str k) = None \/
   exists r t, driver_items (probe s) !! _getPrefix (this s) (Str k) = Some r /\
               sjcl_decrypt c ck r = Ret t) ->
  exists s1 s2 text,
    toJson host v = Ret (Some text) /\
    put host (Val (Str k)) (Val v) true s = Ok true s1 /\
    driver_items s1 !! _getPrefix (this s) (Str k) =
      Some (if String.eqb text "" then "" else sjcl_encrypt c ck text) /\
    get host 3 (Str k) Undefined true s1 = Ok (Single v) s2.
Proof.
  intros Hc Hk Hck Hinv Hne Hkey Hinh [Hv (text & Ht & Hf)] Hs Hfault Hold.
  assert (Hk' : truthy (Str k) = true).
  { cbn. apply negb_true_iff, String.eqb_neq, Hkey. }
  assert (Hd : isDefined_value (Val v) = true) by (destruct v; congruence || reflexivity).
  assert (Hkp : cryptoKey_value (probe s) = Some ck) by (rewrite probe_cryptoKey_value; exact Hk).
  assert (Hread : exists item, decrypt_item host (probe s) true (raw (probe s) (Str k)) = Ret item).
  { unfold raw. rewrite probe_getPrefix. destruct Hold as [Ha|(r & t & Ha & Hdec)]; rewrite Ha.
    - exists Null. unfold decrypt_item. rewrite Hc, Hkp. cbn [truthy andb].
      rewrite andb_false_r. reflexivity.
    - destruct (String.eqb r "") eqn:Er.
      + apply String.eqb_eq in Er. subst r. exists (Str "").
        unfold decrypt_item. rewrite Hc, Hkp. cbn [truthy String.eqb negb andb].
        rewrite andb_false_r. reflexivity.
      + apply String.eqb_neq in Er. exists (Str t).
        rewrite (decrypt_item_stored _ c ck r) by assumption. rewrite Hdec. reflexivity. }
  destruct Hread as [item Hread].
  pose proof (put_one (Val (Str k)) (Val v) true s Hs Hk' eq_refl Hd) as Hp.
  cbn [_value] in Hp. rewrite Hread in Hp. cbn zeta in Hp. rewrite Hfault in Hp.
  unfold _serialize in Hp. rewrite Ht in Hp.
  rewrite (encrypt_item_text _ c ck text) in Hp by assumption.
  set (stored := if String.eqb text "" then "" else sjcl_encrypt c ck text) in *.
  cbn [ToString] in Hp.
  set (s1 := write_event host (probe s) (Str k) v true (written (Str k) stored (probe s))) in *.
  assert (Hthis : this s1 = this (probe s)).
  { unfold s1. rewrite this_write_event. reflexivity. }
  assert (Hi : driver_items s1 !! _getPrefix (this s) (Str k) = Some stored).
  { unfold s1. rewrite driver_items_write_event, driver_items_written, probe_getPrefix.
    apply lookup_insert_eq. }
  assert (Hk1 : cryptoKey_value s1 = Some ck).
  { rewrite <- Hkp. apply cryptoKey_value_beyond. unfold s1.
    rewrite beyond_storage_write_event. apply beyond_storage_written. }
  exists s1, s1, text. split; [exact Ht|]. split; [exact Hp|]. split; [exact Hi|].
  rewrite get_ready; [|unfold ready; rewrite Hthis; apply (ready_probe s Hs)|reflexivity].
  unfold present, raw. rewrite Hthis, probe_getPrefix, Hi.
  rewrite (own_property_Some _ _ _ Hi), Hinh. cbn [negb].
  unfold stored. destruct (String.eqb text "") eqn:Et.
  - unfold decrypt_item. rewrite Hc, Hk1. cbn [truthy String.eqb negb andb].
    rewrite andb_false_r. apply String.eqb_eq in Et. subst text.
    unfold _unserialize, angular_fromJson. rewrite Hf. reflexivity.
  - rewrite (decrypt_item_stored _ c ck) by (assumption || apply Hne).
    rewrite Hinv. unfold _unserialize, angular_fromJson. rewrite Hf. reflexivity.
Qed.

(** X19: an encrypted [put] reads the current entry through the cipher
    before it writes.  When the key holds an entry that the cipher
    rejects under the current crypto key, the [put] throws the cipher's
    exception and the entry stays as it is: nothing is written and no
    event is emitted. *)
Theorem encrypted_put_needs_readable_entry (key value : value) (c : Sjcl) (ck r : string)
    (e : exn) (s : State) :
  truthy_value key = true ->
  isObject (_value key Undefined) = false ->
  isDefined_value value = true ->
  supportedb s = true ->
  sjcl host = Some c ->
  cryptoKey_value s = Some ck ->
  ck <> "" ->
  driver_items (probe s) !! _getPrefix (this s) (_value key Undefined) = Some r ->
  r <> "" ->
  sjcl_decrypt c ck r = Throw e ->
  put host key value true s = Err e (probe s).
Proof.
  intros Ht Ho Hd Hs Hc Hk Hck Hr Hne Hdec. rewrite put_one by assumption.
  unfold raw. rewrite probe_getPrefix, Hr.
  rewrite (decrypt_item_stored _ c ck r);
    [|assumption|rewrite probe_cryptoKey_value; exact Hk|assumption|assumption].
  rewrite Hdec. reflexivity.
Qed.

(** *** Encryption asked for without a cipher or a key *)

Lemma encrypt_item_no_cipher s e v : no_cipher host s -> encrypt_item host s e v = v.
Proof.
  unfold no_cipher, encrypt_item. intros [H|H]; rewrite H; [reflexivity|].
  destruct (sjcl host); reflexivity.
Qed.

Lemma decrypt_item_no_cipher s e v : no_cipher host s -> decrypt_item host s e v = Ret v.
Proof.
  unfold no_cipher, decrypt_item. intros [H|H]; rewrite H; [reflexivity|].
  destruct (sjcl host); reflexivity.
Qed.

Lemma no_cipher_probe s : no_cipher host s -> no_cipher host (probe s).
Proof. unfold no_cipher. rewrite probe_cryptoKey_value. auto. Qed.

Lemma no_cipher_keeps {A : Type} (m : M A) (s : State) :
  keeps beyond_storage m -> no_cipher host s -> no_cipher host (final (m s)).
Proof.
  intros Hk H. unfold no_cipher in *.
  rewrite (cryptoKey_value_beyond s (final (m s)) (Hk s)). exact H.
Qed.

Lemma getItem_no_cipher k s :
  no_cipher host s -> _getItem host k true s = _getItem host k false s.
Proof.
  intros H. rewrite (guarded_getItem k true s), (guarded_getItem k false s).
  destruct (supportedb s) eqn:Hs; [|reflexivity].
  rewrite !getItem_ready by (apply ready_probe, Hs).
  rewrite !decrypt_item_no_cipher by (apply no_cipher_probe, H). reflexivity.
Qed.

Lemma setItem_no_cipher k v s :
  no_cipher host s -> _setItem host k v true s = _setItem host k v false s.
Proof.
  intros H. rewrite (guarded_setItem k v true s), (guarded_setItem k v false s).
  destruct (supportedb s) eqn:Hs; [|reflexivity].
  rewrite !setItem_ready by (apply ready_probe, Hs).
  destruct (fault _); [reflexivity|].
  unfold write_event. rewrite !encrypt_item_no_cipher by (apply no_cipher_probe, H).
  reflexivity.
Qed.

Lemma bind_ext_inv {A B : Type} (P : State -> Prop) (m m' : M A) (f f' : A -> M B) (s : State) :
  P s -> m s = m' s -> P (final (m s)) ->
  (forall a s', P s' -> f a s' = f' a s') ->
  (m ≫= f) s = (m' ≫= f') s.
Proof.
  intros Hs Hm Hp Hf. unfold mbind, M_bind. rewrite <- Hm.
  destruct (m s) as [a s'|e s']; [|reflexivity]. apply Hf. exact Hp.
Qed.

(** X20: asking for encryption does nothing when the host has no
    cipher or the instance has no crypto key: [put] and [get] with the
    encrypted flag set behave exactly as without it, so the value is
    stored as plain JSON text and no error is raised. *)
Theorem encryption_needs_cipher_and_key (key value : value) (argc : nat) (k def : data)
    (s : State) :
  sjcl host = None \/ cryptoKey_value s = None ->
  put host key value true s = put host key value false s /\
  get host argc k def true s = get host argc k def false s.
Proof.
  intros H. change (no_cipher host s) in H. split.
  - unfold put. destruct (negb (truthy_value key)); [reflexivity|]. cbn zeta.
    destruct (isObject (_value key Undefined)).
    + destruct (entries (_value key Undefined)) as [l|e]; [|reflexivity].
      apply bind_ext_inv with (P := no_cipher host); [exact H| |
        apply no_cipher_keeps; [|exact H]; apply keeps_forEach; intros x; apply keeps_setItem_|
        reflexivity].
      revert s H.
      induction l as [|x l IH]; intros s H; [reflexivity|]. cbn [forEach].
      apply bind_ext_inv with (P := no_cipher host); [exact H|apply setItem_no_cipher, H| |].
      * apply no_cipher_keeps; [apply keeps_setItem_|exact H].
      * intros _ s' H'. apply IH, H'.
    + destruct (negb (isDefined_value value)); [reflexivity|].
      apply bind_ext_inv with (P := no_cipher host);
        [exact H|apply getItem_no_cipher, H|apply no_cipher_keeps; [apply keeps_getItem|exact H]|].
      intros current s' H'.
      apply bind_ext_inv with (P := no_cipher host);
        [exact H'|apply setItem_no_cipher, H'| |reflexivity].
      apply no_cipher_keeps; [apply keeps_setItem_|exact H'].
  - unfold get. destruct k as [| | | | |ks|];
      try (apply bind_ext_inv with (P := no_cipher host);
           [exact H|reflexivity|apply no_cipher_keeps; [apply keeps_has|exact H]|];
           intros present s' H'; destruct (negb present); [reflexivity|];
           apply bind_ext_inv with (P := no_cipher host);
           [exact H'|apply getItem_no_cipher, H'|
            apply no_cipher_keeps; [apply keeps_getItem|exact H']|reflexivity]).
    apply bind_ext_inv with (P := no_cipher host); [exact H| | |reflexivity].
    + generalize empty_object. revert s H.
      induction ks as [|x ks IH]; intros s H acc; [reflexivity|]. cbn [foldM].
      apply bind_ext_inv with (P := no_cipher host); [exact H| | |].
      * apply bind_ext_inv with (P := no_cipher host);
          [exact H|reflexivity|apply no_cipher_keeps; [apply keeps_has|exact H]|].
        intros present s' H'. destruct present; [|reflexivity].
        apply bind_ext_inv with (P := no_cipher host);
          [exact H'|apply getItem_no_cipher, H'|
           apply no_cipher_keeps; [apply keeps_getItem|exact H']|reflexivity].
      * apply no_cipher_keeps; [|exact H].
        apply keeps_bind; [apply keeps_has|]. intros present.
        destruct present; [|apply keeps_ret].
        apply keeps_bind; [apply keeps_getItem|intros ?; apply keeps_ret].
      * intros acc' s' H'. apply IH, H'.
    + apply no_cipher_keeps; [|exact H]. apply keeps_foldM. intros acc x.
      apply keeps_bind; [apply keeps_has|]. intros present.
      destruct present; [|apply keeps_ret].
      apply keeps_bind; [apply keeps_getItem|intros ?; apply keeps_ret].
Qed.

(** *** Bindings: the scope and the storage *)

Lemma storage_view_fields (s t : State) :
  storage_view s = storage_view t ->
  _driver (this s) = _driver (this t) /\
  _namespace (this s) = _namespace (this t) /\
  _separator (this s) = _separator (this t) /\
  _cryptoKey (this s) = _cryptoKey (this t) /\
  _supported (this s) = _supported (this t) /\
  localStorage (world s) = localStorage (world t) /\
  sessionStorage (world s) = sessionStorage (world t) /\
  slots (world s) = slots (world t).
Proof.
  intros H. unfold storage_view in H.
  pose proof (f_equal (fun x => x.1.1.1.1) H) as Ht.
  pose proof (f_equal (fun x => x.1.1.1.2) H) as Hl.
  pose proof (f_equal (fun x => x.1.1.2) H) as Hs.
  pose proof (f_equal snd H) as Hk.
  cbn [fst snd] in Ht, Hl, Hs, Hk.
  pose proof (f_equal _driver Ht) as H1. pose proof (f_equal _namespace Ht) as H2.
  pose proof (f_equal _separator Ht) as H3. pose proof (f_equal _cryptoKey Ht) as H4.
  pose proof (f_equal _supported Ht) as H5.
  cbn [set_watchers _driver _namespace _separator _cryptoKey _supported] in H1, H2, H3, H4, H5.
  repeat split; assumption.
Qed.

Lemma get_returned (argc : nat) (key def : data) (e : bool) (s : State) :
  isArray key = false ->
  returned (get host argc key def e s) =
  if supportedb s
  then match seen (probe s) (_getPrefix (this s) key) with
       | Some r =>
           match decrypt_item host s e (Str r) with
           | Ret item => Ret (Single (_unserialize host item))
           | Throw x => Throw x
           end
       | None => Ret (Single (get_default argc def))
       end
  else Throw UnsupportedBackend.
Proof.
  intros Hk. rewrite guarded_get by (apply not_array_ne, Hk).
  destruct (supportedb s) eqn:Es; [|reflexivity].
  rewrite get_ready by (auto using ready_probe). rewrite present_seen.
  rewrite <- (probe_getPrefix s key).
  destruct (seen (probe s) (_getPrefix (this (probe s)) key)) as [r|] eqn:E.
  - rewrite bool_decide_eq_true_2 by eauto. rewrite (raw_seen _ _ _ E).
    rewrite (decrypt_item_ext (probe s) s) by apply probe_cryptoKey_value.
    destruct (decrypt_item host s e (Str r)); reflexivity.
  - rewrite bool_decide_eq_false_2 by (intros [? ?]; discriminate). reflexivity.
Qed.

Lemma returned_get_view (argc : nat) (key def : data) (e : bool) (s t : State) :
  isArray key = false ->
  storage_view s = storage_view t ->
  returned (get host argc key def e s) = returned (get host argc key def e t).
Proof.
  intros Hk Hv.
  destruct (storage_view_fields s t Hv) as (H1 & H2 & H3 & H4 & H5 & Hl & Hs & Hsl).
  rewrite !get_returned by exact Hk.
  assert (Hsup : supportedb s = supportedb t).
  { unfold supportedb. rewrite H5, Hl. reflexivity. }
  assert (Hpre : _getPrefix (this s) key = _getPrefix (this t) key).
  { unfold _getPrefix. rewrite H2, H3. reflexivity. }
  assert (Hit : seen (probe s) (_getPrefix (this s) key) =
                seen (probe t) (_getPrefix (this t) key)).
  { unfold seen. rewrite Hpre. destruct (inherited (_getPrefix (this t) key)); [reflexivity|].
    rewrite !probe_driver_items, Hsup, H5, H1. unfold driver_items.
    rewrite H1. destruct (_driver (this t)); cbn [storage]; rewrite ?Hl, ?Hs; reflexivity. }
  rewrite Hsup, Hit. destruct (supportedb t); [|reflexivity].
  destruct (seen (probe t) (_getPrefix (this t) key)) as [r|]; [|reflexivity].
  rewrite (decrypt_item_ext s t); [reflexivity|].
  unfold cryptoKey_value. rewrite H4, Hsl. reflexivity.
Qed.

Lemma emitted_probe_or (s t : State) :
  t = s \/ t = probe s -> emitted (world t) = emitted (world s).
Proof. intros [->| ->]; [reflexivity|apply probe_emitted]. Qed.

Lemma first_bound_ext (w w' : World) (chain : list string) (index : string) :
  (forall id, props (scope_of w' id) = props (scope_of w id)) ->
  first_bound w' chain index = first_bound w chain index.
Proof.
  intros H. induction chain as [|id chain IH]; [reflexivity|].
  cbn [first_bound]. rewrite H, IH. reflexivity.
Qed.

Lemma lookup_chain_ext (w w' : World) (scope index : string) :
  (forall id, props (scope_of w' id) = props (scope_of w id)) ->
  ancestors (scope_of w' scope) = ancestors (scope_of w scope) ->
  lookup_chain w' scope index = lookup_chain w scope index.
Proof.
  intros Hp Ha. unfold lookup_chain. rewrite Ha, (first_bound_ext w w') by exact Hp.
  reflexivity.
Qed.

(** Subscribing leaves the properties and the ancestors of every scope
    as they are. *)
Lemma scope_watch_props (scope index : string) (deep : bool) (key : string) (e : bool)
    (s : State) :
  exists d s1,
    scope_watch scope index deep key e s = Ok d s1 /\
    d = (scope, next_watch (world s)) /\
    this s1 = this s /\
    storage_view s1 = storage_view s /\
    (forall sc, props (scope_of (world s1) sc) = props (scope_of (world s) sc)) /\
    (forall sc, ancestors (scope_of (world s1) sc) = ancestors (scope_of (world s) sc)).
Proof.
  eexists _, _. split; [reflexivity|]. cbn [this world].
  split; [reflexivity|]. split; [reflexivity|]. split; [reflexivity|].
  split; intros sc; unfold scope_of; cbn [scopes set_next_watch set_scopes];
    (destruct (decide (scope = sc)) as [->|N];
     [rewrite lookup_insert_eq|rewrite lookup_insert_ne by exact N]; reflexivity).
Qed.

(** X21: [bind] and [bindEncrypted] initialise the scope from the
    storage, never the other way round, and emit nothing.  The bound
    expression is a plain property name, looked up on the scope along
    its prototype chain.  When the name is defined there (on the scope,
    on one of its ancestors, or as a member of [Object.prototype]), the
    scopes are left as they are and the storage is not even read.  When
    it is undefined, the scope is assigned what [get] returns for the
    key and the default (the stored value, or the default for a key
    that [has] does not find).  When that read throws, [bind] throws
    the same exception after the watcher has been registered. *)
Theorem bind_initialises_scope (e : bool) (scope key : string) (def : data) (attr : string)
    (s : State) :
  plain_name (attr_or attr key) = true ->
  let index := attr_or attr key in
  let current := lookup_chain (world s) scope index in
  let read := returned (get host (if e then 3 else 2) (Str key) def e s) in
  match bind_with host e scope key def attr s with
  | Ok _ s1 =>
      emitted (world s1) = emitted (world s) /\
      (isUndefined_denoted current = false ->
       (forall sc, props (scope_of (world s1) sc) = props (scope_of (world s) sc)) /\
       storage_view s1 = storage_view s) /\
      (isUndefined_denoted current = true ->
       exists g, read = Ret g /\ props (scope_of (world s1) scope) !! index = Some (got_data g))
  | Err x s1 =>
      isUndefined_denoted current = true /\ read = Throw x /\
      _watchers (this s1) !! (index ++ scope) = Some (scope, next_watch (world s))
  end.
Proof.
  intros _ index current read.
  unfold bind_with. fold index.
  unfold mbind at 1, M_bind at 1, scope_eval at 1, gets at 1. cbn beta iota.
  destruct (scope_watch_props scope index
              (isObject_denoted (lookup_chain (world s) scope index)) key e s)
    as (d & s0 & E0 & -> & T0 & V0 & P0 & A0).
  unfold mbind at 1, M_bind at 1. rewrite E0.
  unfold mbind at 1, M_bind at 1, modify_this at 1. cbn beta iota.
  set (sA := {| this := _; world := world s0 |}).
  assert (Hview : storage_view sA = storage_view s) by (rewrite <- V0; reflexivity).
  unfold mbind at 1, M_bind at 1, scope_eval, gets. cbn beta iota.
  change (world sA) with (world s0).
  rewrite (lookup_chain_ext (world s) (world s0)) by (intros; apply P0 || apply A0).
  fold current.
  destruct (isUndefined_denoted current) eqn:Ec.
  - assert (Hread : returned (get host (if e then 3 else 2) (Str key) def e sA) = read).
    { apply returned_get_view; [reflexivity|exact Hview]. }
    assert (Hfin := final_get (if e then 3 else 2)%nat (Str key) def e sA).
    assert (Hget : (if e then get host 3 (Str key) def true else get host 2 (Str key) def false)
                   = get host (if e then 3 else 2) (Str key) def e) by (destruct e; reflexivity).
    rewrite Hget. unfold mbind, M_bind.
    destruct (get host (if e then 3 else 2) (Str key) def e sA) as [g s'|x s'] eqn:Eg;
      cbn [returned final] in Hread, Hfin.
    + unfold scope_assign, modify_world. cbn [world this set_scopes emitted].
      split.
      { rewrite (emitted_probe_or sA s' Hfin).
        apply (f_equal (fun v => v.1.2) Hview). }
      split; [discriminate|].
      intros _. exists g. split; [symmetry; exact Hread|].
      unfold scope_of. cbn [scopes set_scopes]. rewrite lookup_insert_eq. cbn [props default].
      apply lookup_insert_eq.
    + split; [reflexivity|]. split; [symmetry; exact Hread|].
      assert (Hw : _watchers (this s') = _watchers (this sA)).
      { destruct Hfin as [->| ->]; [reflexivity|]. rewrite probe_this. reflexivity. }
      rewrite Hw. unfold sA. cbn [this set_watchers _watchers]. rewrite T0.
      apply lookup_insert_eq.
  - unfold mret, M_ret. split; [exact (f_equal (fun v => v.1.2) Hview)|].
    split; [|discriminate]. intros _. split; [exact P0|exact Hview].
Qed.

(** *** Unbinding *)

Lemma scope_assign_effect (scope index : string) (v : data) (s : State) :
  exists s1,
    scope_assign scope index v s = Ok tt s1 /\
    this s1 = this s /\
    storage_view s1 = storage_view s /\
    props (scope_of (world s1) scope) !! index = Some v /\
    (forall sc, watchers (scope_of (world s1) sc) = watchers (scope_of (world s) sc)).
Proof.
  eexists. split; [reflexivity|]. cbn [this world].
  split; [reflexivity|]. split; [reflexivity|]. split.
  - unfold scope_of. cbn [scopes set_scopes]. rewrite lookup_insert_eq. cbn [default props].
    apply lookup_insert_eq.
  - intros sc. unfold scope_of. cbn [scopes set_scopes].
    destruct (decide (scope = sc)) as [->|N].
    + rewrite lookup_insert_eq. reflexivity.
    + rewrite lookup_insert_ne by exact N. reflexivity.
Qed.

Lemma dispose_effect (d : disposer) (s : State) :
  exists s1,
    dispose d s = Ok tt s1 /\
    this s1 = this s /\
    storage_view s1 = storage_view s /\
    (forall sc, props (scope_of (world s1) sc) = props (scope_of (world s) sc)) /\
    (forall sc, watchers (scope_of (world s1) sc) =
                if decide (sc = fst d)
                then List.filter (fun x => negb (w_id x =? snd d)%nat)
                       (watchers (scope_of (world s) sc))
                else watchers (scope_of (world s) sc)).
Proof.
  eexists. split; [reflexivity|]. cbn [this world].
  split; [reflexivity|]. split; [reflexivity|]. split.
  - intros sc. unfold scope_of. cbn [scopes set_scopes].
    destruct (decide (fst d = sc)) as [->|N].
    + rewrite lookup_insert_eq. reflexivity.
    + rewrite lookup_insert_ne by exact N. reflexivity.
  - intros sc. unfold scope_of. cbn [scopes set_scopes].
    destruct (decide (sc = fst d)) as [->|N].
    + rewrite lookup_insert_eq. reflexivity.
    + rewrite lookup_insert_ne by congruence. reflexivity.
Qed.

Lemma driver_items_view (s t : State) :
  storage_view s = storage_view t -> driver_items s = driver_items t.
Proof.
  intros H. destruct (storage_view_fields s t H) as (H1 & _ & _ & _ & _ & Hl & Hs & _).
  unfold driver_items. rewrite H1. destruct (_driver (this t)); cbn [storage]; congruence.
Qed.

Lemma getPrefix_view (s t : State) (k : data) :
  storage_view s = storage_view t -> _getPrefix (this s) k = _getPrefix (this t) k.
Proof.
  intros H. destruct (storage_view_fields s t H) as (_ & H2 & H3 & _).
  unfold _getPrefix. rewrite H2, H3. reflexivity.
Qed.

Lemma supportedb_view (s t : State) :
  storage_view s = storage_view t -> supportedb s = supportedb t.
Proof.
  intros H. destruct (storage_view_fields s t H) as (_ & _ & _ & _ & H5 & Hl & _).
  unfold supportedb. rewrite H5, Hl. reflexivity.
Qed.

Lemma beyond_storage_fields (s t : State) :
  beyond_storage s = beyond_storage t ->
  _watchers (this s) = _watchers (this t) /\
  scopes (world s) = scopes (world t) /\
  _namespace (this s) = _namespace (this t) /\
  _separator (this s) = _separator (this t).
Proof.
  intros H. unfold beyond_storage in H.
  pose proof (f_equal (fun x => x.1.1.1.1) H) as Ht.
  pose proof (f_equal (fun x => x.1.1.2) H) as Hsc.
  cbn [fst snd] in Ht, Hsc.
  pose proof (f_equal _watchers Ht) as H1. pose proof (f_equal _namespace Ht) as H2.
  pose proof (f_equal _separator Ht) as H3.
  cbn [set_supported _watchers _namespace _separator] in H1, H2, H3.
  repeat split; assumption.
Qed.

(** Forgetting one key: it succeeds exactly on a supported backend, the
    key is no own property of the storage afterwards, and nothing
    beyond the storages changes. *)
Lemma forget_one_effect (key : data) (s : State) :
  isArray key = false ->
  beyond_storage (final (forget (Val key) s)) = beyond_storage s /\
  match forget (Val key) s with
  | Ok _ s1 =>
      supportedb s = true /\ own_property (driver_items s1) (_getPrefix (this s) key) = false
  | Err x s1 => supportedb s = false /\ x = UnsupportedBackend
  end.
Proof.
  intros Hk. split; [apply keeps_forget|].
  rewrite guarded_forget by (apply not_array_ne, Hk).
  destruct (supportedb s) eqn:Hs; [|split; reflexivity].
  rewrite forget_one_ready by (exact Hk || apply ready_probe, Hs). cbn [_value].
  unfold present. rewrite probe_getPrefix.
  destruct (own_property (driver_items (probe s)) (_getPrefix (this s) key)) eqn:E.
  - split; [reflexivity|].
    rewrite driver_items_announce, driver_items_removed, probe_getPrefix.
    apply own_property_None, lookup_delete_eq.
  - split; [reflexivity|exact E].
Qed.

(** X22: [unbind] of a binding whose expression is a plain property
    name sets that property of the scope to null, then forgets the key
    unless told not to, then calls the disposer tracked under the
    watcher id, if there is one, and drops it from the registry: the
    subscription it names is removed from its scope and every other
    subscription stays.  With [dontForget] the storages are not
    touched.  Without it the prefixed key is no own property of the
    storage afterwards ([has] is false; an entry stored under a name
    the storage inherits is not seen and stays), and [unbind] needs a
    supported backend: on an unsupported one it throws
    UnsupportedBackend after the property has been set to null and
    before the watcher is disposed, which stays tracked and
    subscribed. *)
Theorem unbind_effects (scope key attr : string) (dontForget : bool) (s : State) :
  plain_name (attr_or attr key) = true ->
  let index := attr_or attr key in
  let id := index ++ scope in
  match unbind scope key attr dontForget s with
  | Ok _ s1 =>
      props (scope_of (world s1) scope) !! index = Some Null /\
      _watchers (this s1) = delete id (_watchers (this s)) /\
      (forall sc, watchers (scope_of (world s1) sc) =
                  match _watchers (this s) !! id with
                  | Some d =>
                      if decide (sc = fst d)
                      then List.filter (fun x => negb (w_id x =? snd d)%nat)
                             (watchers (scope_of (world s) sc))
                      else watchers (scope_of (world s) sc)
                  | None => watchers (scope_of (world s) sc)
                  end) /\
      (if dontForget then storage_view s1 = storage_view s
       else supportedb s = true /\
            own_property (driver_items s1) (_getPrefix (this s) (Str key)) = false)
  | Err x s1 =>
      dontForget = false /\ supportedb s = false /\ x = UnsupportedBackend /\
      props (scope_of (world s1) scope) !! index = Some Null /\
      _watchers (this s1) = _watchers (this s) /\
      (forall sc, watchers (scope_of (world s1) sc) = watchers (scope_of (world s) sc))
  end.
Proof.
  intros _ index id. unfold unbind. fold index. fold id.
  destruct (scope_assign_effect scope index Null s) as (s1 & E1 & T1 & V1 & P1 & W1).
  unfold mbind at 1, M_bind at 1. rewrite E1.
  (* the state after the optional forget *)
  assert (Hmid : match (if negb dontForget then forget (Val (Str key)) else mret tt) s1 with
                 | Ok _ s2 =>
                     _watchers (this s2) = _watchers (this s) /\
                     scopes (world s2) = scopes (world s1) /\
                     (if dontForget then storage_view s2 = storage_view s
                      else supportedb s = true /\
                           own_property (driver_items s2) (_getPrefix (this s) (Str key))
                           = false)
                 | Err x s2 =>
                     dontForget = false /\ supportedb s = false /\ x = UnsupportedBackend /\
                     _watchers (this s2) = _watchers (this s) /\
                     scopes (world s2) = scopes (world s1)
                 end).
  { destruct dontForget; cbn [negb].
    - unfold mret, M_ret. rewrite T1. repeat split. exact V1.
    - destruct (forget_one_effect (Str key) s1 eq_refl) as [Hb Hf].
      rewrite (supportedb_view s1 s V1), (getPrefix_view s1 s _ V1) in Hf.
      destruct (forget (Val (Str key)) s1) as [[] s2|x s2]; cbn [final] in Hb;
        destruct (beyond_storage_fields _ _ Hb) as (Hw & Hsc & _);
        rewrite T1 in Hw; destruct Hf as [Hs Hf]; repeat split; assumption. }
  unfold mbind at 1, M_bind at 1.
  destruct ((if negb dontForget then forget (Val (Str key)) else mret tt) s1)
    as [[] s2|x s2].
  - destruct Hmid as (Hw & Hsc & Hst).
    assert (Hscope : forall sc, scope_of (world s2) sc = scope_of (world s1) sc).
    { intros sc. unfold scope_of. rewrite Hsc. reflexivity. }
    unfold mbind at 1, M_bind at 1, gets. rewrite Hw.
    destruct (_watchers (this s) !! id) as [d|] eqn:Ed.
    + destruct (dispose_effect d s2) as (s3 & E3 & T3 & V3 & P3 & W3).
      unfold mbind, M_bind. rewrite E3. unfold modify_this. cbn [this world _watchers set_watchers].
      split; [rewrite P3, Hscope; exact P1|]. split; [rewrite T3, Hw; reflexivity|]. split.
      * intros sc. rewrite W3, Hscope, W1. reflexivity.
      * destruct dontForget.
        -- rewrite <- Hst, <- V3. unfold storage_view. cbn [this world]. rewrite T3.
           reflexivity.
        -- destruct Hst as [Hs Hi]. split; [exact Hs|]. rewrite <- Hi.
           rewrite <- (driver_items_view s3 s2 V3). unfold driver_items. cbn [this world].
           rewrite T3. reflexivity.
    + unfold mret, M_ret. split; [rewrite Hscope; exact P1|]. split.
      * rewrite Hw. symmetry. apply delete_id. exact Ed.
      * split; [intros sc; rewrite Hscope; apply W1|exact Hst].
  - destruct Hmid as (Hd & Hs & Hx & Hw & Hsc).
    assert (Hscope : forall sc, scope_of (world s2) sc = scope_of (world s1) sc).
    { intros sc. unfold scope_of. rewrite Hsc. reflexivity. }
    repeat split; try assumption.
    + rewrite Hscope. exact P1.
    + intros sc. rewrite Hscope. apply W1.
Qed.

(** *** Disposing every watcher *)

Lemma forEach_dispose (ds : list (string * disposer)) (s : State) :
  exists s1,
    forEach ds (fun kv => dispose (snd kv)) s = Ok tt s1 /\
    this s1 = this s /\
    storage_view s1 = storage_view s /\
    (forall sc, props (scope_of (world s1) sc) = props (scope_of (world s) sc)) /\
    (forall sc x, x ∈ watchers (scope_of (world s1) sc) <->
                  x ∈ watchers (scope_of (world s) sc) /\
                  forall kv, kv ∈ ds -> snd kv <> (sc, w_id x)).
Proof.
  revert s. induction ds as [|[id d] ds IH]; intros s.
  - exists s. split; [reflexivity|]. split; [reflexivity|]. split; [reflexivity|].
    split; [reflexivity|]. intros sc x. split; [|tauto].
    intros H. split; [exact H|]. intros kv Hkv. apply not_elem_of_nil in Hkv. destruct Hkv.
  - destruct (dispose_effect d s) as (s' & E' & T' & V' & P' & W').
    destruct (IH s') as (s1 & E1 & T1 & V1 & P1 & W1).
    exists s1. split; [cbn [forEach snd]; unfold mbind, M_bind; rewrite E'; exact E1|].
    split; [congruence|]. split; [congruence|]. split; [intros sc; rewrite P1; apply P'|].
    intros sc x. rewrite W1, W'.
    assert (Hd : x ∈ (if decide (sc = fst d)
                      then List.filter (fun y => negb (w_id y =? snd d)%nat)
                             (watchers (scope_of (world s) sc))
                      else watchers (scope_of (world s) sc)) <->
                 x ∈ watchers (scope_of (world s) sc) /\ d <> (sc, w_id x)).
    { destruct (decide (sc = fst d)) as [->|N].
      - rewrite list_elem_of_In, filter_In, <- list_elem_of_In.
        rewrite negb_true_iff, Nat.eqb_neq. destruct d as [d1 d2]. cbn [fst snd].
        split; intros [H1 H2]; (split; [exact H1|]); congruence.
      - split; [|tauto]. intros H. split; [exact H|]. intros ->. apply N. reflexivity. }
    rewrite Hd. split.
    + intros [[H1 H2] H3]. split; [exact H1|]. intros kv [->|Hkv]%elem_of_cons;
        [exact H2|apply H3, Hkv].
    + intros [H1 H2]. split; [split; [exact H1|]|].
      * apply (H2 (id, d)). apply list_elem_of_here.
      * intros kv Hkv. apply H2. apply list_elem_of_further, Hkv.
Qed.

(** X23: [clearWatchers] calls every tracked disposer and keeps the
    registry as it is: afterwards a scope holds exactly the
    subscriptions it held that no registry entry names, while every id
    is still tracked (a later [unbind] finds it and calls its disposer
    again).  The properties of the scopes, the storages and the events
    are untouched; the call never throws. *)
Theorem clearWatchers_disposes_all (s : State) :
  exists s1,
    clearWatchers s = Ok tt s1 /\
    _watchers (this s1) = _watchers (this s) /\
    storage_view s1 = storage_view s /\
    (forall sc, props (scope_of (world s1) sc) = props (scope_of (world s) sc)) /\
    (forall sc x, x ∈ watchers (scope_of (world s1) sc) <->
                  x ∈ watchers (scope_of (world s) sc) /\
                  forall id, _watchers (this s) !! id <> Some (sc, w_id x)).
Proof.
  destruct (forEach_dispose (map_to_list (_watchers (this s))) s)
    as (s1 & E & T & V & P & W).
  exists s1. split; [exact E|]. split; [rewrite T; reflexivity|]. split; [exact V|].
  split; [exact P|]. intros sc x. rewrite W. apply and_iff_compat_l. split.
  - intros H id Hid. apply (H (id, (sc, w_id x))); [|reflexivity].
    apply elem_of_map_to_list. exact Hid.
  - intros H [id d] Hkv Hd. cbn [snd] in Hd. subst d.
    apply elem_of_map_to_list in Hkv. exact (H id Hkv).
Qed.

(** *** A bound value comes back *)

(** X24: the listener of a binding ignores an undefined value and
    otherwise stores the value under the bound key.  What it has
    stored is what a later [bind] of the same key assigns to a scope on
    which the bound name is undefined: a JSON-safe value handed to the
    listener comes back on that scope.  The bound expression is a plain
    property name, and the prefixed key is not a name the storage
    inherits. *)
Theorem bound_value_comes_back (scope key attr : string) (v def : data) (s : State) :
  key <> "" ->
  plain_name (attr_or attr key) = true ->
  inherited (_getPrefix (this s) (Str key)) = false ->
  json_safe host v ->
  supportedb s = true ->
  fault (storage (_driver (this s)) (world s)) = None ->
  isUndefined_denoted (lookup_chain (world s) scope (attr_or attr key)) = true ->
  listener host key false Undefined s = Ok tt s /\
  exists s1 s2,
    listener host key false v s = Ok tt s1 /\
    bind host scope key def attr s1 = Ok tt s2 /\
    props (scope_of (world s2) scope) !! attr_or attr key = Some v.
Proof.
  intros Hk _ Hinh [Hv (text & Ht & Hf)] Hs Hfault Hcur. split; [reflexivity|].
  assert (Hk' : truthy (Str key) = true).
  { cbn. apply negb_true_iff, String.eqb_neq, Hk. }
  pose proof (put_single (Str key) v s Hs Hk' eq_refl Hv Hfault) as Hp.
  set (s1 := write_event host (probe s) (Str key) v false
               (written (Str key) (ToString (_serialize host v)) (probe s))) in Hp.
  assert (Hthis : this s1 = this (probe s)).
  { unfold s1. rewrite this_write_event. reflexivity. }
  assert (Hr1 : ready s1) by (unfold ready; rewrite Hthis; apply (ready_probe s Hs)).
  assert (Hi : driver_items s1 !! _getPrefix (this s1) (Str key) = Some text).
  { rewrite Hthis. unfold s1. rewrite driver_items_write_event, driver_items_written.
    rewrite lookup_insert_eq. unfold _serialize. rewrite Ht. reflexivity. }
  assert (Hb : beyond_storage s1 = beyond_storage s).
  { unfold s1. rewrite beyond_storage_write_event, beyond_storage_written.
    apply beyond_storage_probe. }
  assert (Hsc : scopes (world s1) = scopes (world s)).
  { apply (beyond_storage_fields s1 s Hb). }
  set (index := attr_or attr key) in *.
  destruct (scope_watch_props scope index
              (isObject_denoted (lookup_chain (world s1) scope index)) key false s1)
    as (d & s0 & E0 & -> & T0 & V0 & P0 & A0).
  exists s1. eexists. split.
  { unfold listener. replace (isDefined v) with true by (destruct v; congruence || reflexivity).
    unfold mbind, M_bind. rewrite Hp. reflexivity. }
  assert (Hcur1 : lookup_chain (world s1) scope index = lookup_chain (world s) scope index).
  { apply lookup_chain_ext; [intros id|]; unfold scope_of; rewrite Hsc; reflexivity. }
  unfold bind, bind_with. fold index.
  unfold mbind at 1, M_bind at 1, scope_eval at 1, gets at 1. cbn beta iota.
  unfold mbind at 1, M_bind at 1. rewrite E0.
  unfold mbind at 1, M_bind at 1, modify_this at 1. cbn beta iota.
  set (sA := {| this := _; world := world s0 |}).
  assert (Hview : storage_view sA = storage_view s1) by (rewrite <- V0; reflexivity).
  unfold mbind at 1, M_bind at 1, scope_eval, gets. cbn beta iota.
  change (world sA) with (world s0).
  rewrite (lookup_chain_ext (world s1) (world s0)) by (intros; apply P0 || apply A0).
  rewrite Hcur1, Hcur.
  assert (HrA : ready sA).
  { unfold ready, sA. cbn [this set_watchers _supported]. rewrite T0. exact Hr1. }
  unfold mbind, M_bind. rewrite get_ready by (exact HrA || reflexivity).
  assert (HiA : driver_items sA !! _getPrefix (this sA) (Str key) = Some text).
  { rewrite (driver_items_view sA s1 Hview), (getPrefix_view sA s1 _ Hview). exact Hi. }
  assert (HinhA : inherited (_getPrefix (this sA) (Str key)) = false).
  { rewrite (getPrefix_view sA s1 _ Hview), Hthis, probe_getPrefix. exact Hinh. }
  unfold present, raw. rewrite HiA, (own_property_Some _ _ _ HiA), HinhA. cbn [negb].
  rewrite decrypt_item_plain. unfold _unserialize, angular_fromJson. rewrite Hf.
  cbn [got_data]. split; [reflexivity|].
  unfold scope_of. cbn [world scopes set_scopes]. rewrite lookup_insert_eq. cbn [props default].
  apply lookup_insert_eq.
Qed.

(** *** The provider *)

(** X25: the service is built from what the provider was configured
    with.  After the four setters (a function given as an argument is
    called with no parameter and its result stored), [$get] returns an
    instance bound to the configured storage, with the configured
    namespace, events flag and separator, a null crypto key, no
    watchers and an unprobed support flag; when the configured driver
    is not registered [$get] throws DriverNotFound and changes
    nothing. *)
Theorem configured_service (dr ns en sep : value) (w0 : World) (s : State) :
  (w1 ← setDefaultDriver dr w0;
   w2 ← setDefaultNamespace ns w1;
   w3 ← setEventsEnabled en w2;
   setSeparator sep w3) = Some (world s) ->
  _value dr Undefined = Str (getDefaultDriver (world s)) /\
  _value ns Undefined = Str (getDefaultNamespace (world s)) /\
  _value en Undefined = Bool (getEventsEnabled (world s)) /\
  _value sep Undefined = Str (getSeparator (world s)) /\
  match provider_get s with
  | Ok l s1 =>
      assoc (getDefaultDriver (world s)) _registeredDrivers = Some (_driver l) /\
      _namespace l = getDefaultNamespace (world s) /\
      _eventsEnabled l = getEventsEnabled (world s) /\
      _separator l = getSeparator (world s) /\
      cryptoKey_value (at_world l (world s1)) = None /\
      _watchers l = ∅ /\
      _supported l = None /\
      storage_view s1 = (set_watchers ∅ (this s), localStorage (world s),
                         sessionStorage (world s), emitted (world s),
                         (slots (world s) ++ [None])%list)
  | Err e s1 =>
      e = DriverNotFound (getDefaultDriver (world s)) /\ s1 = s /\
      assoc (getDefaultDriver (world s)) _registeredDrivers = None
  end.
Proof.
  intros H.
  unfold setDefaultDriver, setDefaultNamespace, setEventsEnabled, setSeparator in H.
  destruct (_value dr Undefined) as [| | | |d| |]; try discriminate H. cbn in H.
  destruct (_value ns Undefined) as [| | | |n| |]; try discriminate H. cbn in H.
  destruct (_value en Undefined) as [| |b| | | |]; try discriminate H. cbn in H.
  destruct (_value sep Undefined) as [| | | |p| |]; try discriminate H. cbn in H.
  injection H as H.
  assert (Hd : defaults (world s) =
               {| d_driver := d; d_namespace := n; d_eventsEnabled := b; d_separator := p |})
    by (rewrite <- H; reflexivity).
  clear H. unfold getDefaultDriver, getDefaultNamespace, getEventsEnabled, getSeparator.
  rewrite Hd. cbn [d_driver d_namespace d_eventsEnabled d_separator].
  repeat (split; [reflexivity|]).
  unfold provider_get, new_Locker, _resolveDriver, _error.
  unfold mbind, M_bind, mret, M_ret, gets, modify_world, throw. cbn beta.
  rewrite Hd. cbn [d_driver d_namespace d_eventsEnabled d_separator].
  destruct (assoc d _registeredDrivers) as [bk|]; [|repeat split].
  cbn beta iota. rewrite !Hd. cbn [d_driver d_namespace d_eventsEnabled d_separator].
  repeat (split; [reflexivity|]). split.
  - unfold cryptoKey_value, at_world. cbn [this world _cryptoKey set_slots slots].
    rewrite list_lookup_middle by reflexivity. reflexivity.
  - repeat (split; [reflexivity|]). reflexivity.
Qed.

(** *** Edge cases of writing *)

Lemma entries_undefined (k : string) :
  entries (Obj [(k, Undefined)]) = Ret [(Str k, Undefined)].
Proof.
  unfold entries, arrayLike_length. cbn [prop].
  destruct (String.eqb k "length"), (String.eqb k "forEach"); reflexivity.
Qed.

(** X26: a batch [put] does not guard against undefined values as a
    [put] of one key does: with a JSON encoder that gives undefined
    for undefined, a property whose value is undefined is stored as
    the text [undefined], and, that text not being JSON, [get] then
    returns the string ["undefined"], when the prefixed key is not a
    name the storage inherits. *)
Theorem batch_put_stores_undefined_as_text (k : string) (value : value) (e : exn)
    (s : State) :
  toJson host Undefined = Ret None ->
  fromJson host "undefined" = Throw e ->
  inherited (_getPrefix (this s) (Str k)) = false ->
  supportedb s = true ->
  fault (storage (_driver (this s)) (world s)) = None ->
  exists s1,
    put host (Val (Obj [(k, Undefined)])) value false s = Ok true s1 /\
    driver_items s1 !! _getPrefix (this s) (Str k) = Some "undefined" /\
    get host 1 (Str k) Undefined false s1 = Ok (Single (Str "undefined")) s1.
Proof.
  intros Ht Hf Hinh Hs Hfault.
  rewrite guarded_put;
    [|reflexivity|cbn [_value isObject]; rewrite entries_undefined; eauto].
  rewrite Hs.
  unfold put. cbn [truthy_value truthy _value isObject negb]. rewrite entries_undefined.
  cbn [fst snd forEach].
  unfold mbind, M_bind. rewrite setItem_ready by (apply ready_probe, Hs).
  rewrite probe_driver, probe_fault, Hfault. rewrite encrypt_item_plain.
  unfold _serialize. rewrite Ht. cbn [ToString]. unfold mret, M_ret.
  set (s1 := write_event host (probe s) (Str k) Undefined false
               (written (Str k) "undefined" (probe s))).
  assert (Hthis : this s1 = this (probe s)).
  { unfold s1. rewrite this_write_event. reflexivity. }
  assert (Hi : driver_items s1 !! _getPrefix (this s) (Str k) = Some "undefined").
  { unfold s1. rewrite driver_items_write_event, driver_items_written, probe_getPrefix.
    apply lookup_insert_eq. }
  exists s1. split; [reflexivity|]. split; [exact Hi|].
  rewrite get_ready; [|unfold ready; rewrite Hthis; apply (ready_probe s Hs)|reflexivity].
  unfold present, raw. rewrite Hthis, probe_getPrefix, Hi.
  rewrite (own_property_Some _ _ _ Hi), Hinh. cbn [negb]. rewrite decrypt_item_plain.
  unfold _unserialize, angular_fromJson. rewrite Hf. reflexivity.
Qed.

(** X27: the event a [put] of one key emits, encrypted or not, carries,
    besides the driver name and the namespace: for [locker.item.added]
    the key and the value as given; for [locker.item.updated] the key,
    the old value in decoded form and, as the new value, the stored
    text (the ciphertext when the write is encrypted), not the value.
    It is [locker.item.updated] when the prefixed key is not a name the
    storage inherits and the decoded old value differs from the stored
    text, and [locker.item.added] otherwise.  The entry the key held
    before must be one the cipher accepts, since [put] reads it
    first. *)
Theorem put_event_payload (k v item : data) (enc : bool) (s : State) :
  truthy k = true -> isObject k = false -> v <> Undefined ->
  supportedb s = true ->
  fault (storage (_driver (this s)) (world s)) = None ->
  _eventsEnabled (this s) = true ->
  decrypt_item host (probe s) enc (raw (probe s) k) = Ret item ->
  let old := _unserialize host (raw (probe s) k) in
  let stored := encrypt_item host (probe s) enc (_serialize host v) in
  let driver := opt_str (_deriveDriver (_driver (this s))) in
  let ns := Str (_namespace (this s)) in
  exists s1,
    put host (Val k) (Val v) enc s = Ok true s1 /\
    emitted (world s1) =
      (emitted (world s) ++
       [if negb (inherited (_getPrefix (this s) k)) && negb (equals old stored)
        then {| ev_name := "locker.item.updated";
                ev_payload := [("key", k); ("oldValue", old); ("newValue", stored);
                               ("driver", driver); ("namespace", ns)] |}
        else {| ev_name := "locker.item.added";
                ev_payload := [("key", k); ("value", v); ("driver", driver);
                               ("namespace", ns)] |}])%list.
Proof.
  intros Ht Ho Hv Hs Hf He Hread old stored driver ns.
  assert (Hd : isDefined_value (Val v) = true) by (destruct v; congruence || reflexivity).
  pose proof (put_one (Val k) (Val v) enc s Hs Ht Ho Hd) as Hp.
  cbn [_value] in Hp. rewrite Hread in Hp. cbn zeta in Hp. rewrite Hf in Hp.
  rewrite Hp. eexists. split; [reflexivity|].
  unfold write_event. fold old. fold stored. rewrite probe_getPrefix.
  destruct (negb (inherited (_getPrefix (this s) k)) && negb (equals old stored));
    rewrite emitted_announce, emitted_written, probe_emitted;
    change (this (written k (ToString stored) (probe s))) with (this (probe s));
    rewrite probe_eventsEnabled, He, probe_this; reflexivity.
Qed.

(** *** [all] without a namespace *)

Lemma hd_split_from (c : ascii) (cur s : string) :
  exists t rest, split_from (String c "") 0 cur s = (cur ++ t) :: rest.
Proof.
  revert cur. induction s as [|x s IH]; intros cur.
  - exists "", []. cbn [split_from]. rewrite append_nil_right. reflexivity.
  - cbn [split_from]. rewrite prefix_char. destruct (decide (c = x)) as [<-|N].
    + rewrite bool_decide_eq_true_2 by reflexivity. exists "". eexists.
      rewrite append_nil_right. reflexivity.
    + rewrite bool_decide_eq_false_2 by exact N.
      destruct (IH (cur ++ String x "")) as (t & rest & E). rewrite E.
      exists (String x t), rest. rewrite append_assoc'. reflexivity.
Qed.

Lemma unprefix_no_namespace (l : Locker) (c : ascii) (k : string) :
  _namespace l = "" -> _separator l = String c "" ->
  (forall k', k <> String c k') ->
  unprefix l k = k.
Proof.
  intros Hn Hsep Hk. unfold unprefix. rewrite Hn, Hsep. cbn [split].
  destruct k as [|a k]; [reflexivity|].
  cbn [split_from]. rewrite prefix_char.
  rewrite bool_decide_eq_false_2 by (intros ->; exact (Hk k eq_refl)).
  change ("" ++ String a "") with (String a "").
  destruct (hd_split_from c (String a "") k) as (t & rest & E). rewrite E.
  cbn [hd]. rewrite append_cons. cbn [String.eqb]. rewrite andb_false_r. reflexivity.
Qed.

(** X28: with an empty namespace the prefixed key is the key itself.
    On a storage that [angular.forEach] visits by name, [all] lists,
    with its decoded value, every own property of the storage whose key
    does not start with the separator (a key that does is taken for a
    prefixed one, and an entry under a name the storage inherits is no
    own property).  On a storage that [angular.forEach] takes for an
    array, or whose entry [forEach] it calls, [all] throws a
    TypeError. *)
Theorem all_without_namespace (c : ascii) (s : State) :
  _namespace (this s) = "" ->
  _separator (this s) = String c "" ->
  supportedb s = true ->
  (forall k, _getPrefix (this s) (Str k) = k) /\
  if enumerable (driver_items s)
  then exists m s',
         all host s = Ok m s' /\
         (s' = s \/ s' = probe s) /\
         (forall k, (forall k', k <> String c k') ->
                    own m !! k = (fun r => _unserialize host (Str r)) <$> seen s' k)
  else all host s = Err TypeError s.
Proof.
  intros Hn Hsep Hs.
  assert (Hp : forall k st, st = s \/ st = probe s -> _getPrefix (this st) (Str k) = k).
  { intros k st [->| ->]; rewrite ?probe_getPrefix; unfold _getPrefix; rewrite Hn; reflexivity. }
  split; [intros k; apply Hp; auto|].
  destruct (enumerable (driver_items s)) eqn:He; [|apply all_not_enumerable, He].
  eexists _, _. split; [apply all_supported; assumption|].
  set (s' := match physical_keys s with [] => s | _ => probe s end).
  assert (Hs' : s' = s \/ s' = probe s).
  { unfold s'. destruct (physical_keys s); auto. }
  split; [exact Hs'|].
  intros k Hk. destruct (decide (k = "__proto__")) as [->|Hproto].
  - unfold seen. cbn [inherited]. change (inherited "__proto__") with true. cbn [fmap option_fmap option_map].
    destruct (own (collect host s' (unprefix (this s) <$> physical_keys s) empty_object)
                !! "__proto__") as [v|] eqn:E; [|reflexivity].
    apply collect_only in E as [E|[_ E]].
    + cbn [own empty_object] in E. rewrite lookup_empty in E. discriminate.
    + unfold decoded in E. rewrite (Hp _ s' Hs') in E. discriminate.
  - rewrite collect_lookup_empty by exact Hproto. unfold decoded. rewrite (Hp k s' Hs').
    destruct (decide (k ∈ unprefix (this s) <$> physical_keys s)) as [Hin|Hnin]; [reflexivity|].
    destruct (seen s' k) as [r|] eqn:E; [|reflexivity].
    exfalso. apply Hnin. apply list_elem_of_fmap. exists k.
    split; [symmetry; apply (unprefix_no_namespace _ c); assumption|].
    apply physical_keys_spec. apply seen_Some in E as [Hi E].
    destruct (driver_items s !! k) as [r'|] eqn:E0.
    + exists r'. apply seen_Some. auto.
    + destruct Hs' as [H'|H']; rewrite H' in E; [congruence|].
      rewrite (probe_driver_items_None s k E0) in E. discriminate.
Qed.

(** *** Setting the crypto key *)

(** X29: [setCryptoKey] with a string that is not blank stores the
    string as given, surrounding white space included, in the slot of
    the instance it is called on; the keys of the other instances, the
    storages and the events are untouched. *)
Theorem setCryptoKey_stores_key (k : string) (s : State) :
  blank k = false ->
  (_cryptoKey (this s) < length (slots (world s)))%nat ->
  exists s1,
    setCryptoKey (Str k) s = Ok tt s1 /\
    cryptoKey_value s1 = Some k /\
    (forall l, _cryptoKey l <> _cryptoKey (this s) ->
               cryptoKey_value (at_world l (world s1)) = cryptoKey_value (at_world l (world s))) /\
    storage_view s1 =
      (set_watchers ∅ (this s), localStorage (world s), sessionStorage (world s),
       emitted (world s), <[_cryptoKey (this s) := Some k]> (slots (world s))).
Proof.
  intros Hb Hlt. rewrite setCryptoKey_spec, Hb. eexists. split; [reflexivity|].
  split; [|split; [|reflexivity]].
  - unfold cryptoKey_value. cbn [this world set_slots slots].
    rewrite list_lookup_insert_eq by exact Hlt. reflexivity.
  - intros l Hl. unfold cryptoKey_value, at_world. cbn [this world set_slots slots].
    rewrite list_lookup_insert_ne by congruence. reflexivity.
Qed.

(** *** Writing and taking back *)

(** X30: [put] of a JSON-safe value under a key that does not exist
    and whose prefixed key is not a name the storage inherits, followed
    by [pull] of the key, gives the value back and leaves the storage
    with the entries it had before the [put]. *)
Theorem put_then_pull_restores (k : string) (v : data) (s : State) :
  k <> "" ->
  inherited (_getPrefix (this s) (Str k)) = false ->
  json_safe host v ->
  supportedb s = true ->
  fault (storage (_driver (this s)) (world s)) = None ->
  driver_items (probe s) !! _getPrefix (this s) (Str k) = None ->
  exists s1 s2,
    put host (Val (Str k)) (Val v) false s = Ok true s1 /\
    pull host (Str k) Undefined false s1 = Ok (Single v) s2 /\
    driver_items s2 = driver_items (probe s).
Proof.
  intros Hk Hinh [Hv (text & Ht & Hf)] Hs Hfault Ha.
  assert (Hk' : truthy (Str k) = true).
  { cbn. apply negb_true_iff, String.eqb_neq, Hk. }
  rewrite (put_single (Str k) v s Hs Hk' eq_refl Hv Hfault).
  set (s1 := write_event host (probe s) (Str k) v false
               (written (Str k) (ToString (_serialize host v)) (probe s))).
  assert (Hthis : this s1 = this (probe s)).
  { unfold s1. rewrite this_write_event. reflexivity. }
  assert (Hr1 : ready s1) by (unfold ready; rewrite Hthis; apply (ready_probe s Hs)).
  assert (Hitems : driver_items s1 =
                   <[_getPrefix (this s) (Str k) := text]> (driver_items (probe s))).
  { unfold s1. rewrite driver_items_write_event, driver_items_written, probe_getPrefix.
    unfold _serialize. rewrite Ht. reflexivity. }
  assert (Hp : present s1 (Str k) = true).
  { unfold present. rewrite Hthis, probe_getPrefix, Hitems.
    rewrite (own_property_Some _ _ text) by apply lookup_insert_eq.
    rewrite Hinh. reflexivity. }
  exists s1. eexists. split; [reflexivity|].
  unfold pull. unfold mbind at 1, M_bind at 1.
  rewrite get_ready by (exact Hr1 || reflexivity). rewrite Hp, decrypt_item_plain.
  unfold raw. rewrite Hthis, probe_getPrefix, Hitems, lookup_insert_eq.
  unfold _unserialize, angular_fromJson. rewrite Hf.
  unfold mbind, M_bind. rewrite (forget_one_ready (Val (Str k))) by (exact Hr1 || reflexivity).
  cbn [_value]. rewrite Hp. unfold mret, M_ret. split; [reflexivity|].
  rewrite driver_items_announce, driver_items_removed, Hthis, probe_getPrefix, Hitems.
  rewrite delete_insert_eq. apply delete_id, Ha.
Qed.

End Facts.

(** * The JSON host round-trips plain values *)

Module JsonFacts.
Import Json.

(** *** Numerals *)

Lemma pretty_N_char_digit (x : N) :
  (x < 10)%N ->
  is_digit (pretty_N_char x) = true /\
  Z.of_nat (Ascii.nat_of_ascii (pretty_N_char x) - 48) = Z.of_N x.
Proof.
  intros H.
  assert (x = 0 \/ x = 1 \/ x = 2 \/ x = 3 \/ x = 4 \/ x = 5 \/ x = 6 \/ x = 7
          \/ x = 8 \/ x = 9)%N as Hx by lia.
  repeat (destruct Hx as [->|Hx]; [split; reflexivity|]). subst x. split; reflexivity.
Qed.

Lemma digits_pretty_go (x : N) :
  exists p : Z, forall (s rest : string) (acc : Z),
    digits acc (pretty_N_go x s ++ rest) = digits (acc * p + Z.of_N x) (s ++ rest).
Proof.
  induction (N.lt_wf_0 x) as [x _ IH].
  destruct (decide (x = 0)%N) as [->|Hx].
  - exists 1. intros s rest acc. rewrite pretty_N_go_0. f_equal. lia.
  - destruct (IH (x `div` 10)%N) as [p Hp]; [apply N.div_lt; lia|].
    exists (p * 10). intros s rest acc.
    rewrite pretty_N_go_step by lia. rewrite Hp. rewrite append_cons.
    cbn [digits].
    destruct (pretty_N_char_digit (x `mod` 10)%N) as [Hd Hv]; [apply N.mod_lt; lia|].
    rewrite Hd, Hv. f_equal.
    rewrite (N.div_mod x 10) at 3 by lia. lia.
Qed.


Lemma digit_cases (c : ascii) :
  is_digit c = true ->
  In c ["0"; "1"; "2"; "3"; "4"; "5"; "6"; "7"; "8"; "9"]%char.
Proof.
  destruct c as [[] [] [] [] [] [] [] []]; intros H; try discriminate H;
    cbn [In]; auto 12.
Qed.

Lemma digits_stop (acc : Z) (rest : string) :
  stops rest = true -> digits acc rest = (acc, rest).
Proof.
  destruct rest as [|c rest]; [reflexivity|]. cbn [stops digits].
  destruct (is_digit c); [discriminate|reflexivity].
Qed.

Lemma pretty_go_head (x : N) (s : string) :
  (0 < x)%N ->
  exists c t, pretty_N_go x s = String c t /\ is_digit c = true /\ Ascii.eqb c "0" = false.
Proof.
  revert s. induction (N.lt_wf_0 x) as [x _ IH]. intros s Hx.
  rewrite pretty_N_go_step by exact Hx.
  destruct (decide (x `div` 10 = 0)%N) as [E|E].
  - rewrite E, pretty_N_go_0. eexists _, _. split; [reflexivity|].
    assert (x < 10)%N.
    { pose proof (N.div_mod x 10 ltac:(lia)). pose proof (N.mod_lt x 10 ltac:(lia)). lia. }
    rewrite N.mod_small by assumption.
    assert (x = 1 \/ x = 2 \/ x = 3 \/ x = 4 \/ x = 5 \/ x = 6 \/ x = 7
            \/ x = 8 \/ x = 9)%N as Hc by lia.
    repeat (destruct Hc as [->|Hc]; [split; reflexivity|]). subst x. split; reflexivity.
  - apply IH; [apply N.div_lt; lia|]. apply N.neq_0_lt_0, E.
Qed.

Lemma not_more (rest : string) :
  stops rest = true ->
  match rest with
  | String c3 _ => Ascii.eqb c3 "."%char || Ascii.eqb c3 "e"%char || Ascii.eqb c3 "E"%char
  | EmptyString => false
  end = false.
Proof.
  destruct rest as [|c3 r]; [reflexivity|]. cbn [stops].
  destruct (is_digit c3), (Ascii.eqb c3 "."), (Ascii.eqb c3 "e"), (Ascii.eqb c3 "E");
    cbn; intros H; try discriminate H; reflexivity.
Qed.

Lemma unsigned_pretty (x : N) (rest : string) :
  stops rest = true -> unsigned (pretty x ++ rest) = Some (Z.of_N x, rest).
Proof.
  intros H. unfold pretty, pretty_N. destruct (decide (x = 0)%N) as [->|Hx].
  - change ("0" ++ rest) with (String "0" rest). unfold unsigned.
    change (is_digit "0") with true. cbv iota. cbn [digits].
    change (is_digit "0") with true. cbv iota.
    rewrite digits_stop by exact H. cbv beta iota zeta.
    rewrite (not_more rest H), orb_false_r.
    destruct rest as [|c r]; [reflexivity|]. cbn [stops] in H.
    destruct (is_digit c); [discriminate|reflexivity].
  - destruct (pretty_go_head x "" ltac:(lia)) as (c & t & E & Hd & Hz).
    destruct (digits_pretty_go x) as [q Hq].
    specialize (Hq "" rest 0). rewrite E, append_cons in *.
    change ("" ++ rest) with rest in Hq. rewrite (digits_stop _ rest H) in Hq.
    unfold unsigned. rewrite Hd, Hq. cbv beta iota zeta.
    rewrite Hz, (not_more rest H). reflexivity.
Qed.

Lemma numeral_pretty (z : Z) (rest : string) :
  stops rest = true -> numeral (pretty z ++ rest) = Some (z, rest).
Proof.
  intros H. destruct z as [|p|p].
  - change (pretty 0) with (pretty 0%N).
    pose proof (unsigned_pretty 0 rest H) as U.
    change (pretty 0%N ++ rest) with (String "0" rest) in *.
    unfold numeral. change (Ascii.eqb "0" "-") with false. cbv iota. exact U.
  - change (pretty (Z.pos p)) with (pretty (N.pos p)).
    pose proof (unsigned_pretty (N.pos p) rest H) as U.
    unfold pretty, pretty_N in *. rewrite decide_False in * by discriminate.
    destruct (pretty_go_head (N.pos p) "" ltac:(lia)) as (c & t & E & Hd & Hz).
    rewrite E, append_cons in *. unfold numeral.
    replace (Ascii.eqb c "-") with false; [exact U|].
    apply digit_cases in Hd. cbn [In] in Hd.
    repeat (destruct Hd as [<-|Hd]; [reflexivity|]). destruct Hd.
  - change (pretty (Z.neg p)) with ("-" ++ pretty (N.pos p)).
    pose proof (unsigned_pretty (N.pos p) rest H) as U.
    change (("-" ++ pretty (N.pos p)) ++ rest)
      with (String "-" (pretty (N.pos p) ++ rest)).
    unfold numeral. change (Ascii.eqb "-" "-") with true. cbv iota.
    rewrite U. reflexivity.
Qed.

(** *** String literals *)

Lemma string_body_step (c : ascii) (X s rest : string) :
  string_body X = Some (s, rest) ->
  string_body (escape_char c ++ X) = Some (String c s, rest).
Proof.
  intros H. rewrite <- (ascii_nat_embedding c) at 2.
  unfold escape_char. cbv zeta.
  pose proof (nat_ascii_bounded c) as Hb.
  remember (Ascii.nat_of_ascii c) as n eqn:En.
  destruct (Nat.lt_ge_cases n 32%nat) as [Hlt|Hge].
  - clear Hb.
    do 32 (destruct n as [|n];
           [simpl; change ("" ++ X) with X; rewrite H; reflexivity|]).
    lia.
  - destruct (Nat.eq_dec n 34%nat) as [->|N34];
      [simpl; change ("" ++ X) with X; rewrite H; reflexivity|].
    destruct (Nat.eq_dec n 92%nat) as [->|N92];
      [simpl; change ("" ++ X) with X; rewrite H; reflexivity|].
    assert (E34 : (n =? 34)%nat = false) by (apply Nat.eqb_neq; exact N34).
    assert (E92 : (n =? 92)%nat = false) by (apply Nat.eqb_neq; exact N92).
    assert (E8 : (n =? 8)%nat = false) by (apply Nat.eqb_neq; lia).
    assert (E12 : (n =? 12)%nat = false) by (apply Nat.eqb_neq; lia).
    assert (E10 : (n =? 10)%nat = false) by (apply Nat.eqb_neq; lia).
    assert (E13 : (n =? 13)%nat = false) by (apply Nat.eqb_neq; lia).
    assert (E9 : (n =? 9)%nat = false) by (apply Nat.eqb_neq; lia).
    assert (E32 : (n <? 32)%nat = false) by (apply Nat.ltb_ge; exact Hge).
    rewrite E34, E92, E8, E12, E10, E13, E9, E32.
    change (String c "" ++ X) with (String c X).
    cbn [string_body]. rewrite <- En, E34, E92, E32, H.
    rewrite En, ascii_nat_embedding. reflexivity.
Qed.

Lemma string_body_escape (s rest : string) :
  string_body (escape s ++ dquote ++ rest) = Some (s, rest).
Proof.
  induction s as [|c s IH]; [reflexivity|].
  cbn [escape]. rewrite append_assoc'. apply string_body_step, IH.
Qed.

(** *** Values *)

Lemma data_induction (P : data -> Prop) :
  P Undefined -> P Null -> (forall b, P (Bool b)) -> (forall n, P (Num n)) ->
  (forall s, P (Str s)) ->
  (forall l, Forall P l -> P (Arr l)) ->
  (forall l, Forall (fun kv => P (snd kv)) l -> P (Obj l)) ->
  forall v, P v.
Proof.
  intros HU HN HB HNum HS HA HO. fix IH 1. intros [| |b|n|s|l|l].
  - exact HU.
  - exact HN.
  - apply HB.
  - apply HNum.
  - apply HS.
  - apply HA. induction l as [|x l IHl]; constructor; [apply IH|exact IHl].
  - apply HO. induction l as [|[k x] l IHl]; constructor; [apply IH|exact IHl].
Qed.

Lemma substring_all (s : string) : String.substring 0 (String.length s) s = s.
Proof. induction s as [|c s IH]; [reflexivity|]. cbn. rewrite IH. reflexivity. Qed.

Lemma literal_ok (w : string) (d : data) (rest : string) :
  literal w d (w ++ rest) = Some (d, rest).
Proof.
  unfold literal. rewrite prefix_append. do 2 f_equal.
  induction w as [|c w IH].
  - change ("" ++ rest) with rest. cbn [String.length]. rewrite Nat.sub_0_r.
    apply substring_all.
  - rewrite append_cons. cbn [String.length Nat.sub String.substring]. exact IH.
Qed.

Lemma starts_facts (c : ascii) :
  starts c = true ->
  is_ws c = false /\ Ascii.eqb c "]" = false /\ Ascii.eqb c "}" = false.
Proof.
  intros H.
  assert (Hn : In (Ascii.nat_of_ascii c)
                 [110; 116; 102; 34; 91; 123; 45; 48; 49; 50; 51; 52; 53; 54; 55; 56; 57]%nat).
  { unfold starts in H. cbv zeta in H.
    repeat (apply orb_true_iff in H as [H|H]);
      try (apply Nat.eqb_eq in H; rewrite H; cbn [In]; auto 20).
    apply digit_cases in H. cbn [In] in H.
    repeat (destruct H as [<-|H]; [cbn; auto 20|]). destruct H. }
  rewrite <- (ascii_nat_embedding c). cbn [In] in Hn.
  repeat (destruct Hn as [<-|Hn]; [repeat split; reflexivity|]). destruct Hn.
Qed.

Lemma skip_ws_starts (c : ascii) (t : string) :
  starts c = true -> skip_ws (String c t) = String c t.
Proof. intros H. cbn [skip_ws]. rewrite (proj1 (starts_facts c H)). reflexivity. Qed.

Lemma value_numeral (fuel : nat) (c : ascii) (t : string) :
  is_digit c = true \/ c = "-"%char ->
  value_ (S fuel) (String c t) =
  match numeral (String c t) with
  | Some (z, rest) => Some (Num (Int z), rest)
  | None => None
  end.
Proof.
  intros [H| ->]; [|reflexivity].
  apply digit_cases in H. cbn [In] in H.
  repeat (destruct H as [<-|H]; [reflexivity|]). destruct H.
Qed.

Lemma pretty_head (z : Z) :
  exists c t, pretty z = String c t /\ (is_digit c = true \/ c = "-"%char).
Proof.
  destruct z as [|p|p].
  - exists "0"%char, "". split; [reflexivity|left; reflexivity].
  - change (pretty (Z.pos p)) with (pretty (N.pos p)). unfold pretty, pretty_N.
    rewrite decide_False by discriminate.
    destruct (pretty_go_head (N.pos p) "" ltac:(lia)) as (c & t & E & Hd & _).
    eauto.
  - change (pretty (Z.neg p)) with ("-" ++ pretty (N.pos p)).
    eexists _, _. split; [reflexivity|right; reflexivity].
Qed.

Lemma parses_leaf_cases :
  parses Null /\ (forall b, parses (Bool b)) /\ (forall z, parses (Num (Int z))) /\
  (forall s, parses (Str s)).
Proof.
  repeat split.
  - exists "null". split; [reflexivity|]. intros [|fuel] rest Hf _; [cbn in Hf; lia|].
    change ("null" ++ rest) with (String "n" ("ull" ++ rest)).
    cbn [value_]. rewrite skip_ws_starts by reflexivity.
    change (String "n" ("ull" ++ rest)) with ("null" ++ rest).
    cbn. apply literal_ok.
  - intros [|].
    + exists "true". split; [reflexivity|]. intros [|fuel] rest Hf _; [cbn in Hf; lia|].
      change ("true" ++ rest) with (String "t" ("rue" ++ rest)).
      cbn [value_]. rewrite skip_ws_starts by reflexivity.
      change (String "t" ("rue" ++ rest)) with ("true" ++ rest).
      cbn. apply literal_ok.
    + exists "false". split; [reflexivity|]. intros [|fuel] rest Hf _; [cbn in Hf; lia|].
      change ("false" ++ rest) with (String "f" ("alse" ++ rest)).
      cbn [value_]. rewrite skip_ws_starts by reflexivity.
      change (String "f" ("alse" ++ rest)) with ("false" ++ rest).
      cbn. apply literal_ok.
  - intros z. exists (pretty z). split; [reflexivity|].
    intros [|fuel] rest Hf Hstop; [cbn in Hf; lia|].
    destruct (pretty_head z) as (c & t & E & Hc).
    pose proof (numeral_pretty z rest Hstop) as Hn.
    rewrite E, append_cons in *. rewrite value_numeral by exact Hc.
    rewrite Hn. reflexivity.
  - intros s. exists (quote s). split; [reflexivity|].
    intros [|fuel] rest Hf _; [cbn in Hf; lia|].
    unfold quote. rewrite !append_assoc'.
    change (dquote ++ escape s ++ dquote ++ rest)
      with (String (Ascii.ascii_of_nat 34) (escape s ++ dquote ++ rest)).
    cbn [value_]. rewrite skip_ws_starts by reflexivity.
    cbn. rewrite string_body_escape. reflexivity.
Qed.

Lemma stringify_starts (v : data) (t : string) :
  stringify v = Some t -> exists c t', t = String c t' /\ starts c = true.
Proof.
  destruct v as [| |[|]|[|z]|s|l|l]; cbn [stringify]; intros [= <-];
    try (eexists _, _; split; reflexivity).
  destruct (pretty_head z) as (c & t & E & Hc). rewrite E. exists c, t.
  split; [reflexivity|]. destruct Hc as [Hd| ->]; [|reflexivity].
  unfold starts. rewrite Hd. apply orb_true_r.
Qed.

Lemma weight_Arr (l : list data) : weight (Arr l) = S (weights l).
Proof.
  reflexivity.
Qed.

Lemma weight_Obj (l : list (string * data)) : weight (Obj l) = S (member_weights l).
Proof.
  cbn [weight]. f_equal. induction l as [|[k x] l IH]; [reflexivity|].
  change (S (weight x + (fix sum (l : list (string * data)) : nat :=
                            match l with
                            | [] => O
                            | (_, x) :: l' => S (weight x + sum l')
                            end) l) = S (weight x + member_weights l)).
  rewrite IH. reflexivity.
Qed.

Lemma plain_Arr (l : list data) : plain (Arr l) <-> Forall plain l.
Proof.
  cbn [plain]. induction l as [|x l IH].
  - split; [constructor|trivial].
  - rewrite Forall_cons, <- IH. reflexivity.
Qed.

Lemma plain_Obj (l : list (string * data)) :
  plain (Obj l) <->
  NoDup (List.map fst l) /\
  Forall (fun kv => dollar2 (fst kv) = false /\ plain (snd kv)) l.
Proof.
  cbn [plain]. apply and_iff_compat_l. induction l as [|[k x] l IH].
  - split; [constructor|trivial].
  - rewrite Forall_cons, <- IH. cbn [fst snd]. tauto.
Qed.

Lemma stringify_Arr (l : list data) :
  stringify (Arr l) = Some ("[" ++ join "," (texts l) ++ "]").
Proof.
  reflexivity.
Qed.

Lemma stringify_Obj (l : list (string * data)) :
  Forall (fun kv => dollar2 (fst kv) = false /\ parses (snd kv)) l ->
  stringify (Obj l) = Some ("{" ++ join "," (member_texts l) ++ "}").
Proof.
  intros H. cbn [stringify]. do 4 f_equal. induction H as [|[k x] l [Hd (t & Ht & _)] _ IH];
    [reflexivity|].
  cbn [fst snd] in *. cbn [member_texts List.map fst snd]. rewrite Hd, Ht.
  cbn [default]. f_equal. exact IH.
Qed.

Lemma value_Arr (fuel : nat) (s : string) :
  value_ (S fuel) (String "[" s) =
  match skip_ws s with
  | String c rest =>
      if Ascii.eqb c "]" then Some (Arr [], rest)
      else match elements fuel s with
           | Some (l, rest) => Some (Arr l, rest)
           | None => None
           end
  | EmptyString => None
  end.
Proof. reflexivity. Qed.

Lemma value_Obj (fuel : nat) (s : string) :
  value_ (S fuel) (String "{" s) =
  match skip_ws s with
  | String c rest =>
      if Ascii.eqb c "}" then Some (Obj [], rest)
      else match members fuel [] s with
           | Some (l, rest) => Some (Obj l, rest)
           | None => None
           end
  | EmptyString => None
  end.
Proof. reflexivity. Qed.

Lemma elements_step (fuel : nat) (s : string) :
  elements (S fuel) s =
  match value_ fuel s with
  | Some (x, rest) =>
      match skip_ws rest with
      | String ","%char rest' =>
          match elements fuel rest' with
          | Some (l, rest'') => Some (x :: l, rest'')
          | None => None
          end
      | String "]"%char rest' => Some ([x], rest')
      | _ => None
      end
  | None => None
  end.
Proof. reflexivity. Qed.

Lemma members_step (fuel : nat) (acc : list (string * data)) (s : string) :
  members (S fuel) acc (String (Ascii.ascii_of_nat 34) s) =
  match string_body s with
  | Some (k, rest) =>
      match skip_ws rest with
      | String ":"%char rest' =>
          match value_ fuel rest' with
          | Some (v, rest'') =>
              match skip_ws rest'' with
              | String ","%char rest3 => members fuel (set_prop k v acc) rest3
              | String "}"%char rest3 => Some (set_prop k v acc, rest3)
              | _ => None
              end
          | None => None
          end
      | _ => None
      end
  | None => None
  end.
Proof. reflexivity. Qed.

Lemma elements_ok (l : list data) :
  Forall parses l -> l <> [] ->
  forall fuel rest, (weights l <= fuel)%nat ->
    elements fuel (join "," (texts l) ++ "]" ++ rest) = Some (l, rest).
Proof.
  induction 1 as [|x l (t & Ht & Hp) Hl IH]; [congruence|]. intros _ fuel rest Hf.
  cbn [weights fold_right] in Hf. fold (weights l) in Hf.
  destruct fuel as [|fuel]; [lia|]. rewrite elements_step.
  cbn [texts List.map]. fold (texts l). rewrite Ht.
  change (default "null" (Some t)) with t.
  destruct l as [|y l].
  - cbn [texts List.map join]. rewrite Hp by (reflexivity || lia). reflexivity.
  - rewrite join_cons by discriminate. rewrite !append_assoc'.
    rewrite Hp by (reflexivity || lia).
    change (skip_ws ("," ++ join "," (texts (y :: l)) ++ "]" ++ rest))
      with (String ","%char (join "," (texts (y :: l)) ++ "]" ++ rest)).
    cbv iota. rewrite IH by (discriminate || lia). reflexivity.
Qed.

Lemma set_prop_fresh (k : string) (v : data) (acc : list (string * data)) :
  k ∉ List.map fst acc -> set_prop k v acc = (acc ++ [(k, v)])%list.
Proof.
  induction acc as [|[k' x] acc IH]; intros H; [reflexivity|].
  cbn [set_prop List.map fst] in *. apply not_elem_of_cons in H as [Hne H].
  destruct (String.eqb k' k) eqn:E; [apply String.eqb_eq in E; congruence|].
  rewrite IH by exact H. reflexivity.
Qed.

Lemma members_ok (l : list (string * data)) :
  Forall (fun kv => dollar2 (fst kv) = false /\ parses (snd kv)) l -> l <> [] ->
  forall fuel acc rest,
    NoDup (List.map fst acc ++ List.map fst l) ->
    (member_weights l <= fuel)%nat ->
    members fuel acc (join "," (member_texts l) ++ "}" ++ rest) = Some ((acc ++ l)%list, rest).
Proof.
  induction 1 as [|[k x] l [Hd (t & Ht & Hp)] Hl IH]; [congruence|].
  intros _ fuel acc rest Hnd Hf. cbn [fst snd] in *.
  cbn [member_weights fold_right snd] in Hf. fold (member_weights l) in Hf.
  destruct fuel as [|fuel]; [lia|].
  assert (Hk : k ∉ List.map fst acc).
  { cbn [List.map fst] in Hnd. apply NoDup_app in Hnd as (_ & Hdis & _).
    intros Hin. apply (Hdis k Hin). apply list_elem_of_here. }
  assert (Hnd' : NoDup (List.map fst (acc ++ [(k, x)]) ++ List.map fst l)).
  { rewrite List.map_app. cbn [List.map fst]. rewrite <- app_assoc. exact Hnd. }
  cbn [member_texts List.map fst snd]. fold (member_texts l). rewrite Ht.
  change (default "null" (Some t)) with t.
  unfold quote at 1.
  destruct l as [|y l].
  - cbn [member_texts List.map join]. rewrite !append_assoc'.
    change (dquote ++ escape k ++ dquote ++ ":" ++ t ++ "}" ++ rest)
      with (String (Ascii.ascii_of_nat 34) (escape k ++ dquote ++ ":" ++ t ++ "}" ++ rest)).
    rewrite members_step, string_body_escape.
    change (skip_ws (":" ++ t ++ "}" ++ rest)) with (String ":"%char (t ++ "}" ++ rest)).
    cbv iota. rewrite Hp by (reflexivity || lia).
    change (skip_ws ("}" ++ rest)) with (String "}"%char rest). cbv iota.
    rewrite set_prop_fresh by exact Hk. reflexivity.
  - rewrite join_cons by discriminate. rewrite !append_assoc'.
    change (dquote ++ escape k ++ dquote ++ ":" ++ t ++ "," ++
            join "," (member_texts (y :: l)) ++ "}" ++ rest)
      with (String (Ascii.ascii_of_nat 34)
              (escape k ++ dquote ++ ":" ++ t ++ "," ++
               join "," (member_texts (y :: l)) ++ "}" ++ rest)).
    rewrite members_step, string_body_escape.
    change (skip_ws (":" ++ t ++ "," ++ join "," (member_texts (y :: l)) ++ "}" ++ rest))
      with (String ":"%char (t ++ "," ++ join "," (member_texts (y :: l)) ++ "}" ++ rest)).
    cbv iota. rewrite Hp by (reflexivity || lia).
    change (skip_ws ("," ++ join "," (member_texts (y :: l)) ++ "}" ++ rest))
      with (String ","%char (join "," (member_texts (y :: l)) ++ "}" ++ rest)).
    cbv iota. rewrite set_prop_fresh by exact Hk.
    rewrite IH by (discriminate || assumption || lia).
    rewrite <- app_assoc. reflexivity.
Qed.

Lemma texts_head (l : list data) :
  Forall parses l -> l <> [] ->
  exists c t, join "," (texts l) = String c t /\ starts c = true.
Proof.
  intros [|x l' (t & Ht & _) _] Hne; [congruence|].
  destruct (stringify_starts x t Ht) as (c & t' & -> & Hc).
  cbn [texts List.map]. fold (texts l'). rewrite Ht.
  change (default "null" (Some (String c t'))) with (String c t').
  destruct l' as [|y l'].
  - exists c, t'. split; [reflexivity|exact Hc].
  - rewrite join_cons by discriminate. rewrite append_cons. eexists _, _.
    split; [reflexivity|exact Hc].
Qed.

Lemma member_texts_head (l : list (string * data)) :
  l <> [] -> exists t, join "," (member_texts l) = String (Ascii.ascii_of_nat 34) t.
Proof.
  destruct l as [|[k x] l]; [congruence|]. intros _.
  cbn [member_texts List.map fst snd]. fold (member_texts l). unfold quote at 1.
  destruct l as [|y l].
  - eexists. cbn [member_texts List.map join]. rewrite !append_assoc'. reflexivity.
  - eexists. rewrite join_cons by discriminate. rewrite !append_assoc'. reflexivity.
Qed.

(** Parsing the text of a plain value gives the value back. *)
Lemma parses_plain (v : data) : plain v -> parses v.
Proof.
  induction v as [| |b|[|z]|s|l IH|l IH] using data_induction; intros Hv.
  - destruct Hv.
  - apply parses_leaf_cases.
  - apply parses_leaf_cases.
  - destruct Hv.
  - apply parses_leaf_cases.
  - apply parses_leaf_cases.
  - apply plain_Arr in Hv.
    assert (Hl : Forall parses l).
    { clear -IH Hv. induction IH as [|x l Hx _ IHl]; [constructor|].
      apply Forall_cons in Hv as [Hx' Hl']. constructor; [apply Hx, Hx'|apply IHl, Hl']. }
    clear IH Hv. eexists. split; [apply stringify_Arr|].
    intros fuel rest Hf _. rewrite weight_Arr in Hf.
    destruct fuel as [|fuel]; [lia|].
    rewrite !append_assoc'.
    change ("[" ++ join "," (texts l) ++ "]" ++ rest)
      with (String "[" (join "," (texts l) ++ "]" ++ rest)).
    rewrite value_Arr.
    destruct l as [|x l]; [reflexivity|].
    destruct (texts_head (x :: l) Hl) as (c & t & E & Hc); [discriminate|].
    rewrite elements_ok by (assumption || discriminate || lia).
    rewrite E, append_cons, (skip_ws_starts c _ Hc).
    destruct (starts_facts c Hc) as (_ & -> & _). reflexivity.
  - apply plain_Obj in Hv as [Hnd Hv].
    assert (Hl : Forall (fun kv => dollar2 (fst kv) = false /\ parses (snd kv)) l).
    { clear -IH Hv. induction IH as [|x l Hx _ IHl]; [constructor|].
      apply Forall_cons in Hv as [[Hd Hx'] Hl'].
      constructor; [split; [exact Hd|apply Hx, Hx']|apply IHl, Hl']. }
    clear IH Hv. eexists. split; [apply stringify_Obj, Hl|].
    intros fuel rest Hf _. rewrite weight_Obj in Hf.
    destruct fuel as [|fuel]; [lia|].
    rewrite !append_assoc'.
    change ("{" ++ join "," (member_texts l) ++ "}" ++ rest)
      with (String "{" (join "," (member_texts l) ++ "}" ++ rest)).
    rewrite value_Obj.
    destruct l as [|x l]; [reflexivity|].
    destruct (member_texts_head (x :: l)) as (t & E); [discriminate|].
    rewrite (members_ok (x :: l) Hl) by (assumption || discriminate || lia).
    rewrite E, append_cons. reflexivity.
Qed.

Lemma length_app (a b : string) :
  String.length (a ++ b) = (String.length a + String.length b)%nat.
Proof.
  induction a as [|x a IH]; [reflexivity|].
  rewrite append_cons. cbn [String.length]. rewrite IH. reflexivity.
Qed.

Lemma weights_bound (l : list data) :
  Forall parses l -> Forall bounded l ->
  (weights l <= 2 * String.length (join "," (texts l)))%nat.
Proof.
  induction 1 as [|x l (t & Ht & _) _ IH]; intros Hb; [cbn; lia|].
  apply Forall_cons in Hb as [Hx Hb]. specialize (IH Hb). specialize (Hx t Ht).
  cbn [weights fold_right]. fold (weights l).
  cbn [texts List.map]. fold (texts l). rewrite Ht.
  change (default "null" (Some t)) with t.
  destruct l as [|y l].
  - cbn [texts List.map join weights fold_right]. lia.
  - rewrite join_cons by discriminate. rewrite !length_app.
    cbn [String.length]. lia.
Qed.

Lemma member_weights_bound (l : list (string * data)) :
  Forall (fun kv => dollar2 (fst kv) = false /\ parses (snd kv)) l ->
  Forall (fun kv => bounded (snd kv)) l ->
  (member_weights l <= 2 * String.length (join "," (member_texts l)))%nat.
Proof.
  induction 1 as [|[k x] l [_ (t & Ht & _)] _ IH]; intros Hb; [cbn; lia|].
  apply Forall_cons in Hb as [Hx Hb]. specialize (IH Hb).
  cbn [fst snd] in *. specialize (Hx t Ht).
  cbn [member_weights fold_right snd]. fold (member_weights l).
  cbn [member_texts List.map fst snd]. fold (member_texts l). rewrite Ht.
  change (default "null" (Some t)) with t.
  destruct l as [|y l].
  - cbn [member_texts List.map join member_weights fold_right].
    rewrite !length_app. cbn [String.length]. lia.
  - rewrite join_cons by discriminate. rewrite !length_app.
    cbn [String.length]. lia.
Qed.

Lemma bounded_plain (v : data) : plain v -> bounded v.
Proof.
  induction v as [| |b|[|z]|s|l IH|l IH] using data_induction; intros Hv t Ht;
    try (destruct Hv; fail);
    try (destruct (stringify_starts _ t Ht) as (c & t' & -> & _);
         cbn [weight String.length]; lia).
  - apply plain_Arr in Hv.
    assert (Hl : Forall parses l /\ Forall bounded l).
    { clear -IH Hv. induction IH as [|x l Hx _ IHl]; [split; constructor|].
      apply Forall_cons in Hv as [Hx' Hl']. destruct (IHl Hl').
      split; constructor; auto using parses_plain. }
    destruct Hl as [Hp Hb]. rewrite stringify_Arr in Ht. injection Ht as <-.
    rewrite weight_Arr. pose proof (weights_bound l Hp Hb).
    rewrite !length_app. cbn [String.length]. lia.
  - apply plain_Obj in Hv as [Hnd Hv].
    assert (Hl : Forall (fun kv => dollar2 (fst kv) = false /\ parses (snd kv)) l /\
                 Forall (fun kv => bounded (snd kv)) l).
    { clear -IH Hv. induction IH as [|x l Hx _ IHl]; [split; constructor|].
      apply Forall_cons in Hv as [[Hd Hx'] Hl']. destruct (IHl Hl').
      split; constructor; auto using parses_plain. }
    destruct Hl as [Hp Hb]. rewrite (stringify_Obj l Hp) in Ht. injection Ht as <-.
    rewrite weight_Obj. pose proof (member_weights_bound l Hp Hb).
    rewrite !length_app. cbn [String.length]. lia.
Qed.

(** [JSON.parse(JSON.stringify(v))] is [v] for every plain value. *)
Lemma parse_stringify (v : data) :
  plain v -> exists t, stringify v = Some t /\ parse t = Ret v.
Proof.
  intros Hv. destruct (parses_plain v Hv) as (t & Ht & Hp).
  exists t. split; [exact Ht|]. pose proof (bounded_plain v Hv t Ht) as Hb.
  unfold parse. rewrite <- (append_nil_right t) at 2.
  rewrite Hp by (reflexivity || lia). reflexivity.
Qed.

(** Every plain value is JSON-safe for this host: the values a [put]
    followed by a [get] gives back include all of them. *)
Lemma plain_json_safe (v : data) : plain v -> json_safe host v.
Proof.
  intros Hv. split; [intros ->; exact Hv|].
  destruct (parse_stringify v Hv) as (t & Ht & Hp).
  exists t. cbn [toJson fromJson host]. rewrite Ht. split; [reflexivity|exact Hp].
Qed.

End JsonFacts.

(** * Examples on concrete states *)

Lemma put_falsy_or_omitted_witness :
  put Json.host (Val (Str "")) (Val (Num (Int 1))) false (a_state "ns" ∅)
  = Ok false (a_state "ns" ∅).
Proof.
  apply (put_falsy_or_omitted Json.host (Val (Str "")) (Val (Num (Int 1))) false
           (a_state "ns" ∅)).
  left. reflexivity.
Defined.



(** * Examples at the JSON host *)

(** C1: with events enabled, on an empty storage, the first write of a
    key emits [locker.item.updated], where the claim has
    [locker.item.added], and the same [put] repeated with an equal
    value emits [locker.item.updated] again, where the claim has no
    event: [_setItem] tests the existence of the key after it has
    written it, and compares the old value in decoded form with the new
    text. *)
Lemma put_twice_emits_updated :
  let s0 := a_state "ns" ∅ in
  let r1 := put Json.host (Val (Str "a")) (Val (Num (Int 1))) false s0 in
  let r2 := put Json.host (Val (Str "a")) (Val (Num (Int 1))) false (final r1) in
  returned r1 = Ret true /\
  returned r2 = Ret true /\
  List.map ev_name (emitted (world (final r1))) = ["locker.item.updated"] /\
  List.map ev_name (emitted (world (final r2))) =
    ["locker.item.updated"; "locker.item.updated"].
Proof. vm_compute. repeat split. Qed.

(** Writing the number 1 over the string "1" emits an [added] event. *)
Example put_differing_emits_added :
  let s0 := a_state "ns" {[ "ns.a" := Json.quote "1" ]} in
  let r1 := put Json.host (Val (Str "a")) (Val (Num (Int 1))) false s0 in
  returned (get Json.host 1 (Str "a") Undefined false s0) = Ret (Single (Str "1")) /\
  List.map ev_name (emitted (world (final r1))) = ["locker.item.added"].
Proof. vm_compute. repeat split. Qed.

Lemma get_absent_or_sequence_witness :
  get Json.host 2 (Str "a") (Num (Int 7)) false (a_state "ns" {[ "ns.b" := "2" ]})
  = Ok (Single (Num (Int 7))) (probe (a_state "ns" {[ "ns.b" := "2" ]})).
Proof.
  apply (get_absent_or_sequence Json.host 2 (Str "a") (Num (Int 7)) false
           [Str "a"; Str "b"] (a_state "ns" {[ "ns.b" := "2" ]}));
    reflexivity.
Defined.

(** [get] of a sequence keeps the existing key only. *)
Example get_sequence_example :
  returned (get Json.host 2 (Arr [Str "a"; Str "b"]) (Num (Int 7)) false
              (a_state "ns" {[ "ns.b" := "2" ]}))
  = Ret (Items {| own := {[ "b" := Num (Int 2) ]}; proto := None |}).
Proof. vm_compute. reflexivity. Qed.

(** C3: the key [__proto__] exists in the namespace ([has] is true and
    [get] of the key alone returns its value), yet [get] of the
    sequence of [__proto__] and [a] returns an object whose only
    property is [a]: the assignment [items[k] = ...] on a plain object
    creates no property for that key. *)
Lemma get_sequence_drops_proto :
  let s0 := a_state "ns" {[ "ns.__proto__" := "1"; "ns.a" := "2" ]} in
  returned (has (Val (Str "__proto__")) s0) = Ret true /\
  returned (get Json.host 1 (Str "__proto__") Undefined false s0)
    = Ret (Single (Num (Int 1))) /\
  returned (get Json.host 1 (Arr [Str "__proto__"; Str "a"]) Undefined false s0)
    = Ret (Items {| own := {[ "a" := Num (Int 2) ]}; proto := None |}).
Proof. vm_compute. repeat split. Qed.

(** [put] rejects the empty key, so [get] finds nothing afterwards; and
    [put] of an object or an array writes its entries, so [get] of the
    same key does not return the value. *)
Lemma put_empty_key_not_stored :
  let s0 := a_state "ns" ∅ in
  let r1 := put Json.host (Val (Str "")) (Val (Num (Int 1))) false s0 in
  let k := Obj [("a", Num (Int 2))] in
  let r2 := put Json.host (Val k) (Val (Num (Int 1))) false s0 in
  let r3 := put Json.host (Val (Arr [Str "x"])) (Val (Num (Int 1))) false s0 in
  json_safe Json.host (Num (Int 1)) /\
  supportedb s0 = true /\
  returned r1 = Ret false /\
  returned (get Json.host 1 (Str "") Undefined false (final r1)) = Ret (Single Undefined) /\
  returned r2 = Ret true /\
  driver_items (final r2) = {[ "ns.a" := "2" ]} /\
  returned (get Json.host 1 k Undefined false (final r2)) = Ret (Single Undefined) /\
  returned r3 = Ret true /\
  driver_items (final r3) = {[ "ns.0" := Json.quote "x" ]} /\
  returned (get Json.host 1 (Arr [Str "x"]) Undefined false (final r3))
    = Ret (Items empty_object).
Proof.
  cbn zeta. split; [|vm_compute; repeat split].
  split; [discriminate|]. exists "1". split; reflexivity.
Qed.

(** Without a namespace the key [length] is written, but the storage
    answers for that name with its own member: [has] is false and [get]
    returns undefined. *)
Example put_inherited_name :
  let r1 := put Json.host (Val (Str "length")) (Val (Num (Int 1))) false a_bare_state in
  returned r1 = Ret true /\
  driver_items (final r1) !! "length" = Some "1" /\
  returned (has (Val (Str "length")) (final r1)) = Ret false /\
  returned (get Json.host 1 (Str "length") Undefined false (final r1))
    = Ret (Single Undefined).
Proof. vm_compute. repeat split. Qed.

Lemma get_after_put_witness :
  exists s1 s2,
    put Json.host (Val (Num (Int 7))) (Val (Obj [("x", Arr [Num (Int 1); Str "y"; Null])]))
      false (a_state "ns" ∅) = Ok true s1 /\
    get Json.host 1 (Num (Int 7)) Undefined false s1
    = Ok (Single (Obj [("x", Arr [Num (Int 1); Str "y"; Null])])) s2.
Proof.
  apply (get_after_put Json.host (Num (Int 7))
           (Obj [("x", Arr [Num (Int 1); Str "y"; Null])]) (a_state "ns" ∅)).
  - reflexivity.
  - reflexivity.
  - reflexivity.
  - split; [discriminate|]. eexists. split; reflexivity.
  - reflexivity.
  - reflexivity.
Defined.

(** C5: with the namespace [my.app], which contains the separator, the
    entry [my.app.a] is the key [a] of the namespace ([has] is true and
    [get] returns its value), yet [all] returns the empty object and
    [count] is 0: [all] takes the text before the first separator for
    the namespace of an entry. *)
Lemma all_misses_dotted_namespace :
  let s0 := a_state "my.app" {[ "my.app.a" := "1" ]} in
  supportedb s0 = true /\
  returned (has (Val (Str "a")) s0) = Ret true /\
  returned (get Json.host 1 (Str "a") Undefined false s0) = Ret (Single (Num (Int 1))) /\
  returned (all Json.host s0) = Ret empty_object /\
  returned (count Json.host s0) = Ret 0%nat.
Proof. vm_compute. repeat split. Qed.

(** The example of the specification: namespace "ns", [put("a", 1)] and a
    raw entry of another namespace. *)
Example all_excludes_other_namespace :
  let s0 := a_state "ns" {[ "other.x" := "y" ]} in
  let s1 := final (put Json.host (Val (Str "a")) (Val (Num (Int 1))) false s0) in
  returned (all Json.host s1) = Ret {| own := {[ "a" := Num (Int 1) ]}; proto := None |} /\
  returned (count Json.host s1) = Ret 1%nat.
Proof. vm_compute. repeat split. Qed.

(** A storage that holds the key of its last index is taken for an
    array by [angular.forEach]: [all], [count] and [clean] throw a
    TypeError, on a supported backend and on an unsupported one. *)
Example all_on_array_like_storage :
  let s0 := a_state "ns" {[ "1" := "x"; "ns.a" := "1" ]} in
  let s1 := final (put Json.host (Val (Arr [Str "x"; Str "y"])) (Val Undefined) false
                     {| this := this a_bare_state; world := a_world ∅ |}) in
  returned (all Json.host s0) = Throw TypeError /\
  returned (count Json.host s0) = Throw TypeError /\
  returned (clean Json.host s0) = Throw TypeError /\
  driver_items (final (clean Json.host s0)) = {[ "1" := "x"; "ns.a" := "1" ]} /\
  driver_items s1 = {[ "0" := Json.quote "x"; "1" := Json.quote "y" ]} /\
  returned (all Json.host s1) = Throw TypeError.
Proof. vm_compute. repeat split. Qed.

(** [all] does not list the key [__proto__]. *)
Example all_drops_proto :
  let s0 := a_state "ns" {[ "ns.__proto__" := "1"; "ns.a" := "2" ]} in
  returned (has (Val (Str "__proto__")) s0) = Ret true /\
  returned (all Json.host s0) = Ret {| own := {[ "a" := Num (Int 2) ]}; proto := None |} /\
  returned (count Json.host s0) = Ret 1%nat.
Proof. vm_compute. repeat split. Qed.

(** C9: with the namespace [my.app], which contains the separator,
    [clean] returns and leaves the entry [my.app.a], an entry of the
    current namespace ([has] of the key [a] is true before and after):
    [clean] forgets the keys [all] lists, and [all] lists none. *)
Lemma clean_misses_dotted_namespace :
  let s0 := a_state "my.app" {[ "my.app.a" := "1" ]} in
  owned (this s0) "my.app.a" = true /\
  returned (has (Val (Str "a")) s0) = Ret true /\
  returned (clean Json.host s0) = Ret tt /\
  driver_items (final (clean Json.host s0)) !! "my.app.a" = Some "1" /\
  returned (has (Val (Str "a")) (final (clean Json.host s0))) = Ret true.
Proof. vm_compute. repeat split. Qed.

(** [clean] removes the entries of its namespace and no other; the
    probe of a fresh instance removes the foreign key "l". *)
Example clean_examples :
  let s0 := a_state "ns" {[ "zz" := "x"; "ns.a" := "1"; "ns.b" := "2" ]} in
  let s1 := a_state "ns" {[ "l" := "x"; "ns.a" := "1" ]} in
  returned (clean Json.host s0) = Ret tt /\
  driver_items (final (clean Json.host s0)) = {[ "zz" := "x" ]} /\
  owned (this s1) "l" = false /\
  driver_items s1 !! "l" = Some "x" /\
  returned (clean Json.host s1) = Ret tt /\
  driver_items (final (clean Json.host s1)) !! "l" = None.
Proof. vm_compute. repeat split. Qed.

Lemma cryptoKey_slot_invariant_witness :
  slots_ok (world (final (exec Json.host (CallSetCryptoKey (Str " s3cret "))
                            (a_state "ns" ∅)))) /\
  (rejected_key (Str "   ") = true ->
   setCryptoKey (Str "   ") (a_state "ns" ∅) = Ok tt (a_state "ns" ∅)).
Proof.
  apply (cryptoKey_slot_invariant Json.host (CallSetCryptoKey (Str " s3cret ")) (Str "   ")
           (a_state "ns" ∅)).
  repeat constructor.
Defined.


(** The child reads with the key it was created with, whatever the
    parent's key becomes. *)
Example child_keeps_key :
  match namespace "ns" a_keyed_state with
  | Ok child s1 =>
      let s2 := final (setCryptoKey (Str "changed") s1) in
      cryptoKey_value s2 = Some "changed" /\
      cryptoKey_value (at_world child (world s2)) = Some "s3cret" /\
      returned (get Json.host 3 (Str "a") Undefined true (at_world child (world s2)))
      = Ret (Single (Num (Int 1))) /\
      returned (get Json.host 3 (Str "a") Undefined true s2)
      = Throw (HostError "CORRUPT")
  | Err _ _ => False
  end.
Proof. vm_compute. repeat split. Qed.


(** Two bindings of the same property: both subscriptions stay in the
    scope, the registry tracks the second only, and [unbind] disposes
    that one alone. *)
Example rebind_then_unbind :
  let s := a_state "ns" ∅ in
  let s1 := final (bind Json.host "005" "user" Null "" s) in
  let s2 := final (bind Json.host "005" "user" Null "" s1) in
  let s3 := final (unbind "005" "user" "" false s2) in
  w_id <$> watchers (scope_of (world s2) "005") = [0; 1]%nat /\
  map_to_list (_watchers (this s2)) = [("user005", ("005", 1%nat))] /\
  w_id <$> watchers (scope_of (world s3) "005") = [0]%nat /\
  map_to_list (_watchers (this s3)) = [].
Proof. vm_compute. repeat split. Qed.

(** * Examples of the further properties *)

Lemma put_writes_one_entry_witness :
  let key := Val (Str "a") in
  let value := Fun (fun current => Arr [current; Num (Int 1)]) in
  let s := a_state "ns" ∅ in
  let k := _value key Undefined in
  let current := _unserialize Json.host (raw (probe s) k) in
  let text := ToString (_serialize Json.host (_value value current)) in
  exists s1,
    put Json.host key value false s = Ok true s1 /\
    driver_items s1 = <[_getPrefix (this s) k := text]> (driver_items (probe s)) /\
    (forall b, b <> _driver (this s) ->
               items (storage b (world s1)) = items (storage b (world (probe s)))) /\
    beyond_storage s1 = beyond_storage s /\
    (driver_items s !! _getPrefix (this s) k = None -> current = Null) /\
    has key s1 = Ok (negb (inherited (_getPrefix (this s) k))) s1.
Proof.
  apply (put_writes_one_entry Json.host (Val (Str "a"))
           (Fun (fun current => Arr [current; Num (Int 1)])) (a_state "ns" ∅));
    reflexivity.
Defined.

(** The function receives null for the absent key: the stored text is
    [[null,1]]. *)
Example put_function_value :
  driver_items (final (put Json.host (Val (Str "a"))
                         (Fun (fun current => Arr [current; Num (Int 1)])) false
                         (a_state "ns" ∅)))
  = {[ "ns.a" := "[null,1]" ]}.
Proof. vm_compute. reflexivity. Qed.

Lemma put_write_failure_witness :
  exists s1,
    put Json.host (Val (Str "a")) (Val (Num (Int 1))) false a_full_session_state =
      Err (if bool_decide ("QuotaExceededError" ∈ ["QUOTA_EXCEEDED_ERR";
                                                   "NS_ERROR_DOM_QUOTA_REACHED";
                                                   "QuotaExceededError"])
           then QuotaExceeded else WriteFailed (_value (Val (Str "a")) Undefined)) s1 /\
    driver_items s1 = driver_items a_full_session_state /\
    emitted (world s1) = emitted (world a_full_session_state) /\
    beyond_storage s1 = beyond_storage a_full_session_state.
Proof.
  apply (put_write_failure Json.host (Val (Str "a")) (Val (Num (Int 1)))
           "QuotaExceededError" a_full_session_state); reflexivity.
Defined.

Lemma put_batch_witness :
  let key := Obj [("a", Num (Int 1)); ("b", Str "x")] in
  let l := [(Str "a", Num (Int 1)); (Str "b", Str "x")] in
  let s := a_state "ns" ∅ in
  entries key = Ret l /\
  exists s1,
    put Json.host (Val key) (Val Undefined) false s = Ok true s1 /\
    driver_items s1 =
      fold_left (fun m kv => <[_getPrefix (this s) (fst kv) :=
                                 ToString (encrypt_item Json.host s false
                                             (_serialize Json.host (snd kv)))]> m)
                l (driver_items (probe s)) /\
    beyond_storage s1 = beyond_storage s /\
    length (emitted (world s1)) =
      (length (emitted (world s)) +
       (if _eventsEnabled (this s) then length l else 0))%nat.
Proof.
  split; [reflexivity|].
  exact (proj2 (proj2 (put_batch Json.host (Obj [("a", Num (Int 1)); ("b", Str "x")])
                         (Val Undefined) false (a_state "ns" ∅) eq_refl eq_refl eq_refl))).
Defined.

(** An object with a [length] that names its last index is visited by
    index only, and an object with a truthy [forEach] is not visited:
    [angular.forEach] calls that property. *)
Example put_array_like_object :
  let key := Obj [("length", Num (Int 1)); ("0", Str "x"); ("a", Num (Int 1))] in
  driver_items (final (put Json.host (Val key) (Val Undefined) false (a_state "ns" ∅)))
    = {[ "ns.0" := Json.quote "x" ]} /\
  put Json.host (Val (Obj [("forEach", Num (Int 1))])) (Val Undefined) false (a_state "ns" ∅)
    = Err TypeError (a_state "ns" ∅).
Proof. vm_compute. repeat split. Qed.

(** An array is written under its indices. *)
Example put_array :
  driver_items (final (put Json.host (Val (Arr [Str "x"; Str "y"])) (Val Undefined) false
                         (a_state "ns" ∅)))
  = {[ "ns.0" := Json.quote "x"; "ns.1" := Json.quote "y" ]}.
Proof. vm_compute. reflexivity. Qed.

Lemma forget_removes_key_witness :
  let key := Fun (fun _ => Str "a") in
  let s := a_state "ns" {[ "ns.a" := "1"; "ns.b" := "2" ]} in
  let k := _value key Undefined in
  let p := _getPrefix (this s) k in
  let existed := own_property (driver_items (probe s)) p in
  exists s1,
    forget key s = Ok tt s1 /\
    driver_items s1 =
      (if existed then delete p (driver_items (probe s)) else driver_items (probe s)) /\
    emitted (world s1) =
      (emitted (world s) ++
       if existed && _eventsEnabled (this s)
       then [{| ev_name := "locker.item.forgotten";
                ev_payload := [("key", k);
                               ("driver", opt_str (_deriveDriver (_driver (this s))));
                               ("namespace", Str (_namespace (this s)))] |}]
       else [])%list /\
    beyond_storage s1 = beyond_storage s /\
    has key s1 = Ok false s1.
Proof.
  apply (forget_removes_key (Fun (fun _ => Str "a"))
           (a_state "ns" {[ "ns.a" := "1"; "ns.b" := "2" ]})); reflexivity.
Defined.

(** Without a namespace an entry under a name the storage inherits is
    not forgotten: [forget] and [pull] leave it, and [add] writes over
    it. *)
Example inherited_name_examples :
  let s := {| this := this a_bare_state; world := a_world {[ "length" := "1" ]} |} in
  returned (has (Val (Str "length")) s) = Ret false /\
  driver_items (final (forget (Val (Str "length")) s)) = {[ "length" := "1" ]} /\
  emitted (world (final (forget (Val (Str "length")) s))) = [] /\
  returned (pull Json.host (Str "length") (Num (Int 7)) false s) = Ret (Single (Num (Int 7))) /\
  driver_items (final (pull Json.host (Str "length") (Num (Int 7)) false s))
    = {[ "length" := "1" ]} /\
  returned (add Json.host (Val (Str "length")) (Val (Num (Int 2))) false s) = Ret true /\
  driver_items (final (add Json.host (Val (Str "length")) (Val (Num (Int 2))) false s))
    = {[ "length" := "2" ]}.
Proof. vm_compute. repeat split. Qed.

Lemma forget_sequence_witness :
  let key := Val (Arr [Str "a"; Str "zz"; Str "a"]) in
  let ks := [Str "a"; Str "zz"; Str "a"] in
  let s := a_state "ns" {[ "ns.a" := "1"; "ns.b" := "2" ]} in
  let s0 := match ks with [] => s | _ => probe s end in
  exists s1 evs,
    forget key s = Ok tt s1 /\
    (forall p, driver_items s1 !! p =
               if bool_decide (p ∈ _getPrefix (this s) <$> ks) && negb (inherited p)
               then None
               else driver_items s0 !! p) /\
    this s1 = this s0 /\
    beyond_storage s1 = beyond_storage s /\
    emitted (world s1) = (emitted (world s) ++ evs)%list /\
    Forall (fun e => ev_name e = "locker.item.forgotten") evs /\
    (length evs <= length ks)%nat.
Proof.
  apply (forget_sequence (Val (Arr [Str "a"; Str "zz"; Str "a"])) [Str "a"; Str "zz"; Str "a"]
           (a_state "ns" {[ "ns.a" := "1"; "ns.b" := "2" ]})); reflexivity.
Defined.

Lemma pull_reads_then_forgets_witness :
  let s := a_state "ns" {[ "ns.a" := "1"; "ns.b" := "2" ]} in
  let p := _getPrefix (this s) (Str "a") in
  match pull Json.host (Str "a") Undefined false s with
  | Ok g s1 =>
      returned (get Json.host 3 (Str "a") Undefined false s) = Ret g /\
      driver_items s1 =
        (if own_property (driver_items (probe s)) p
         then delete p (driver_items (probe s)) else driver_items (probe s)) /\
      (own_property (driver_items (probe s)) p = false -> g = Single Undefined) /\
      beyond_storage s1 = beyond_storage s
  | Err e s1 =>
      returned (get Json.host 3 (Str "a") Undefined false s) = Throw e /\
      s1 = probe s
  end.
Proof.
  apply (pull_reads_then_forgets Json.host (Str "a") Undefined false
           (a_state "ns" {[ "ns.a" := "1"; "ns.b" := "2" ]})); reflexivity.
Defined.

(** [pull] returns the value and the entry is gone; with a wrong key
    for the cipher it throws and the entry stays. *)
Example pull_examples :
  let s := a_state "ns" {[ "ns.a" := "1"; "ns.b" := "2" ]} in
  returned (pull Json.host (Str "a") Undefined false s) = Ret (Single (Num (Int 1))) /\
  driver_items (final (pull Json.host (Str "a") Undefined false s)) = {[ "ns.b" := "2" ]} /\
  returned (pull Json.host (Str "a") Undefined true a_keyed_plain_state)
    = Throw (HostError "CORRUPT") /\
  driver_items (final (pull Json.host (Str "a") Undefined true a_keyed_plain_state))
    = {[ "ns.a" := "1" ]}.
Proof. cbv zeta. repeat apply conj; vm_compute; reflexivity. Qed.

Lemma add_answers_absence_witness :
  let key := Val (Str "") in
  let value := Val (Num (Int 1)) in
  let s := a_state "ns" {[ "ns.a" := "1" ]} in
  let k := _value key Undefined in
  let p := _getPrefix (this s) k in
  let existed := own_property (driver_items (probe s)) p in
  (existed = true -> add Json.host key value false s = Ok false (probe s)) /\
  (existed = false ->
   truthy_value key = false \/
   (isObject k = false /\ isDefined_value value = false) ->
   add Json.host key value false s = Ok true (probe s)) /\
  (existed = false ->
   truthy_value key = true -> isObject k = false ->
   isDefined_value value = true ->
   fault (storage (_driver (this s)) (world s)) = None ->
   exists s1,
     add Json.host key value false s = Ok true s1 /\
     driver_items s1 =
       <[p := ToString (_serialize Json.host
                          (_value value (_unserialize Json.host (raw (probe s) k))))]>
         (driver_items (probe s))).
Proof.
  apply (add_answers_absence Json.host (Val (Str "")) (Val (Num (Int 1))) false
           (a_state "ns" {[ "ns.a" := "1" ]})); reflexivity.
Defined.

(** [add] with the empty key answers true and stores nothing; [add] of
    an existing key answers false. *)
Example add_examples :
  let s := a_state "ns" {[ "ns.a" := "1" ]} in
  returned (add Json.host (Val (Str "")) (Val (Num (Int 1))) false s) = Ret true /\
  driver_items (final (add Json.host (Val (Str "")) (Val (Num (Int 1))) false s))
    = {[ "ns.a" := "1" ]} /\
  returned (add Json.host (Val (Str "a")) (Val (Num (Int 2))) false s) = Ret false /\
  returned (add Json.host (Val (Str "b")) (Val (Num (Int 2))) false s) = Ret true /\
  driver_items (final (add Json.host (Val (Str "b")) (Val (Num (Int 2))) false s))
    = {[ "ns.a" := "1"; "ns.b" := "2" ]}.
Proof. cbv zeta. repeat apply conj; vm_compute; reflexivity. Qed.

Lemma get_returns_undecodable_text_witness :
  get Json.host 1 (Str "a") Undefined false (a_state "ns" {[ "ns.a" := "hello" ]})
  = Ok (Single (Str "hello")) (probe (a_state "ns" {[ "ns.a" := "hello" ]})).
Proof.
  apply (get_returns_undecodable_text Json.host (Str "a") "hello" Json.SyntaxError
           (a_state "ns" {[ "ns.a" := "hello" ]})); reflexivity.
Defined.

Lemma reads_change_nothing_witness :
  let c := CallAll in
  let s := a_state "ns" {[ "ns.a" := "1" ]} in
  (final (exec Json.host c s) = s \/ final (exec Json.host c s) = probe s) /\
  (_supported (this s) <> None -> final (exec Json.host c s) = s).
Proof.
  apply (reads_change_nothing Json.host CallAll (a_state "ns" {[ "ns.a" := "1" ]}));
    reflexivity.
Defined.

Lemma disabled_events_emit_nothing_witness :
  let c := CallPut (Val (Str "a")) (Val (Num (Int 2))) false in
  emitted (world (final (exec Json.host c a_quiet_state))) = emitted (world a_quiet_state) /\
  _eventsEnabled (this (final (exec Json.host c a_quiet_state))) = false.
Proof.
  apply (disabled_events_emit_nothing Json.host
           (CallPut (Val (Str "a")) (Val (Num (Int 2))) false) a_quiet_state); reflexivity.
Defined.

(** The write goes through, silently. *)
Example put_without_events :
  driver_items (final (put Json.host (Val (Str "a")) (Val (Num (Int 2))) false a_quiet_state))
    = {[ "ns.a" := "2" ]} /\
  emitted (world (final (put Json.host (Val (Str "a")) (Val (Num (Int 2))) false
                           a_quiet_state))) = [].
Proof. cbv zeta. repeat apply conj; vm_compute; reflexivity. Qed.

(** Namespaces that contain the separator do collide: the key [b.c] of
    the namespace [a] and the key [c] of the namespace [a.b] are one
    entry. *)
Example dotted_namespaces_collide :
  _getPrefix (a_locker "a") (Str "b.c") = _getPrefix (a_locker "a.b") (Str "c").
Proof. reflexivity. Qed.

Lemma unknown_driver_probe_disables_witness :
  exists s1,
    supported (Some "cookie") (a_state "ns" {[ "ns.a" := "1" ]}) = Ok false s1 /\
    world s1 = world (a_state "ns" {[ "ns.a" := "1" ]}) /\
    (forall d', supported d' s1 = Ok false s1) /\
    (forall key, has key s1 = Err UnsupportedBackend s1).
Proof.
  apply (unknown_driver_probe_disables (Some "cookie") (a_state "ns" {[ "ns.a" := "1" ]}));
    reflexivity.
Defined.

(** *** The cipher of the examples *)

Lemma append_length (a b : string) :
  String.length (a ++ b) = (String.length a + String.length b)%nat.
Proof.
  induction a as [|x a IH]; [reflexivity|].
  change (String x a ++ b) with (String x (a ++ b)). cbn [String.length]. rewrite IH.
  reflexivity.
Qed.

Lemma substring_whole (s : string) : String.substring 0 (String.length s) s = s.
Proof. induction s as [|c s IH]; [reflexivity|]. cbn. rewrite IH. reflexivity. Qed.

Lemma substring_skip (a b : string) (n : nat) :
  String.substring (String.length a) n (a ++ b) = String.substring 0 n b.
Proof.
  induction a as [|x a IH]; [reflexivity|].
  change (String x a ++ b) with (String x (a ++ b)). cbn [String.length String.substring].
  exact IH.
Qed.

Lemma toy_sjcl_inverts (key text : string) :
  sjcl_decrypt Json.toy_sjcl key (sjcl_encrypt Json.toy_sjcl key text) = Ret text.
Proof.
  cbn [sjcl_decrypt sjcl_encrypt Json.toy_sjcl].
  replace ("<" ++ key ++ ">" ++ text) with (("<" ++ key ++ ">") ++ text)
    by (rewrite !append_assoc'; reflexivity).
  rewrite prefix_append.
  replace (String.length key + 2)%nat with (String.length ("<" ++ key ++ ">"))
    by (rewrite !append_length; cbn [String.length]; lia).
  rewrite substring_skip. rewrite append_length.
  replace (String.length ("<" ++ key ++ ">") + String.length text
           - String.length ("<" ++ key ++ ">"))%nat with (String.length text) by lia.
  rewrite substring_whole. reflexivity.
Qed.

Lemma toy_sjcl_nonempty (key text : string) : sjcl_encrypt Json.toy_sjcl key text <> "".
Proof.
  cbn [sjcl_encrypt Json.toy_sjcl]. change ("<" ++ key ++ ">" ++ text)
    with (String "<" (key ++ ">" ++ text)). discriminate.
Qed.

Lemma encrypted_round_trip_witness :
  exists s1 s2 text,
    toJson Json.host (Arr [Num (Int 1); Str "x"]) = Ret (Some text) /\
    put Json.host (Val (Str "a")) (Val (Arr [Num (Int 1); Str "x"])) true a_keyed_state
      = Ok true s1 /\
    driver_items s1 !! _getPrefix (this a_keyed_state) (Str "a") =
      Some (if String.eqb text "" then "" else sjcl_encrypt Json.toy_sjcl "s3cret" text) /\
    get Json.host 3 (Str "a") Undefined true s1 = Ok (Single (Arr [Num (Int 1); Str "x"])) s2.
Proof.
  apply (encrypted_round_trip Json.host "a" (Arr [Num (Int 1); Str "x"]) Json.toy_sjcl
           "s3cret" a_keyed_state).
  - reflexivity.
  - reflexivity.
  - discriminate.
  - apply toy_sjcl_inverts.
  - apply toy_sjcl_nonempty.
  - discriminate.
  - reflexivity.
  - split; [discriminate|]. eexists. split; reflexivity.
  - reflexivity.
  - reflexivity.
  - right. exists "<s3cret>1", "1". split; reflexivity.
Defined.

(** What is stored is the ciphertext. *)
Example encrypted_put_stores_ciphertext :
  driver_items (final (put Json.host (Val (Str "a")) (Val (Arr [Num (Int 1); Str "x"])) true
                         a_keyed_state))
  = {[ "ns.a" := "<s3cret>[1," ++ Json.quote "x" ++ "]" ]}.
Proof. vm_compute. reflexivity. Qed.

Lemma encrypted_put_needs_readable_entry_witness :
  put Json.host (Val (Str "a")) (Val (Num (Int 2))) true a_keyed_plain_state
  = Err (HostError "CORRUPT") (probe a_keyed_plain_state).
Proof.
  apply (encrypted_put_needs_readable_entry Json.host (Val (Str "a")) (Val (Num (Int 2)))
           Json.toy_sjcl "s3cret" "1" (HostError "CORRUPT") a_keyed_plain_state);
    reflexivity || discriminate.
Defined.

Lemma encryption_needs_cipher_and_key_witness :
  let s := a_state "ns" {[ "ns.a" := "1" ]} in
  put Json.host (Val (Str "a")) (Val (Num (Int 2))) true s
  = put Json.host (Val (Str "a")) (Val (Num (Int 2))) false s /\
  get Json.host 3 (Str "a") Undefined true s = get Json.host 3 (Str "a") Undefined false s.
Proof.
  apply (encryption_needs_cipher_and_key Json.host (Val (Str "a")) (Val (Num (Int 2))) 3
           (Str "a") Undefined (a_state "ns" {[ "ns.a" := "1" ]})).
  right. reflexivity.
Defined.

(** Without a key the value is stored in the clear although encryption
    was asked for. *)
Example encrypted_put_without_key :
  driver_items (final (put Json.host (Val (Str "b")) (Val (Num (Int 2))) true
                         (a_state "ns" ∅)))
  = {[ "ns.b" := "2" ]}.
Proof. vm_compute. reflexivity. Qed.

Lemma bound_value_comes_back_witness :
  let s := a_state "ns" ∅ in
  let v := Obj [("name", Str "x")] in
  listener Json.host "user" false Undefined s = Ok tt s /\
  exists s1 s2,
    listener Json.host "user" false v s = Ok tt s1 /\
    bind Json.host "005" "user" Null "" s1 = Ok tt s2 /\
    props (scope_of (world s2) "005") !! attr_or "" "user" = Some v.
Proof.
  apply (bound_value_comes_back Json.host "005" "user" "" (Obj [("name", Str "x")]) Null
           (a_state "ns" ∅)).
  - discriminate.
  - reflexivity.
  - reflexivity.
  - split; [discriminate|]. eexists. split; reflexivity.
  - reflexivity.
  - reflexivity.
  - reflexivity.
Defined.

Lemma bind_initialises_scope_witness :
  let s := a_state "ns" {[ "ns.user" := "1" ]} in
  let index := attr_or "" "user" in
  let current := lookup_chain (world s) "005" index in
  let read := returned (get Json.host 2 (Str "user") (Num (Int 7)) false s) in
  match bind_with Json.host false "005" "user" (Num (Int 7)) "" s with
  | Ok _ s1 =>
      emitted (world s1) = emitted (world s) /\
      (isUndefined_denoted current = false ->
       (forall sc, props (scope_of (world s1) sc) = props (scope_of (world s) sc)) /\
       storage_view s1 = storage_view s) /\
      (isUndefined_denoted current = true ->
       exists g, read = Ret g /\ props (scope_of (world s1) "005") !! index = Some (got_data g))
  | Err x s1 =>
      isUndefined_denoted current = true /\ read = Throw x /\
      _watchers (this s1) !! (index ++ "005") = Some ("005", next_watch (world s))
  end.
Proof.
  apply (bind_initialises_scope Json.host false "005" "user" (Num (Int 7)) ""
           (a_state "ns" {[ "ns.user" := "1" ]})).
  reflexivity.
Defined.

Lemma unbind_effects_witness :
  let s := final (bind Json.host "005" "user" Null "" (a_state "ns" {[ "ns.user" := "1" ]})) in
  let index := attr_or "" "user" in
  let id := index ++ "005" in
  match unbind "005" "user" "" false s with
  | Ok _ s1 =>
      props (scope_of (world s1) "005") !! index = Some Null /\
      _watchers (this s1) = delete id (_watchers (this s)) /\
      (forall sc, watchers (scope_of (world s1) sc) =
                  match _watchers (this s) !! id with
                  | Some d =>
                      if decide (sc = fst d)
                      then List.filter (fun x => negb (w_id x =? snd d)%nat)
                             (watchers (scope_of (world s) sc))
                      else watchers (scope_of (world s) sc)
                  | None => watchers (scope_of (world s) sc)
                  end) /\
      (if false then storage_view s1 = storage_view s
       else supportedb s = true /\
            own_property (driver_items s1) (_getPrefix (this s) (Str "user")) = false)
  | Err x s1 =>
      false = false /\ supportedb s = false /\ x = UnsupportedBackend /\
      props (scope_of (world s1) "005") !! index = Some Null /\
      _watchers (this s1) = _watchers (this s) /\
      (forall sc, watchers (scope_of (world s1) sc) = watchers (scope_of (world s) sc))
  end.
Proof.
  apply (unbind_effects "005" "user" "" false
           (final (bind Json.host "005" "user" Null "" (a_state "ns" {[ "ns.user" := "1" ]})))).
  reflexivity.
Defined.

(** [bind] takes the stored value when the scope has none, and leaves a
    defined property of the scope alone, also one the scope inherits
    from an ancestor or from [Object.prototype]. *)
Example bind_examples :
  let s := a_state "ns" {[ "ns.user" := "1"; "ns.toString" := "3"; "ns.title" := "4" ]} in
  let s1 := final (bind Json.host "005" "user" (Num (Int 7)) "" s) in
  let s2 := final (bind Json.host "005" "other" (Num (Int 7)) "" s1) in
  let s3 := final (put Json.host (Val (Str "user")) (Val (Num (Int 2))) false s2) in
  let s4 := final (bind Json.host "005" "user" (Num (Int 7)) "" s3) in
  let s5 := final (bind Json.host "005" "toString" (Num (Int 7)) "" s) in
  let w := set_scopes {[ "005" := {| props := ∅; ancestors := ["001"]; watchers := [] |};
                         "001" := {| props := {[ "title" := Str "t" ]}; ancestors := [];
                                     watchers := [] |} ]} (world s) in
  let s6 := final (bind Json.host "005" "title" (Num (Int 7)) ""
                     {| this := this s; world := w |}) in
  props (scope_of (world s1) "005") !! "user" = Some (Num (Int 1)) /\
  props (scope_of (world s2) "005") !! "other" = Some (Num (Int 7)) /\
  props (scope_of (world s4) "005") !! "user" = Some (Num (Int 1)) /\
  props (scope_of (world s5) "005") !! "toString" = None /\
  props (scope_of (world s6) "005") !! "title" = None.
Proof. cbv zeta. repeat apply conj; vm_compute; reflexivity. Qed.

Lemma configured_service_witness :
  let s := {| this := a_locker "ns"; world := a_configured_world |} in
  _value (Val (Str "session")) Undefined = Str (getDefaultDriver (world s)) /\
  _value (Fun (fun _ => Str "app")) Undefined = Str (getDefaultNamespace (world s)) /\
  _value (Val (Bool false)) Undefined = Bool (getEventsEnabled (world s)) /\
  _value (Val (Str "-")) Undefined = Str (getSeparator (world s)) /\
  match provider_get s with
  | Ok l s1 =>
      assoc (getDefaultDriver (world s)) _registeredDrivers = Some (_driver l) /\
      _namespace l = getDefaultNamespace (world s) /\
      _eventsEnabled l = getEventsEnabled (world s) /\
      _separator l = getSeparator (world s) /\
      cryptoKey_value (at_world l (world s1)) = None /\
      _watchers l = ∅ /\
      _supported l = None /\
      storage_view s1 = (set_watchers ∅ (this s), localStorage (world s),
                         sessionStorage (world s), emitted (world s),
                         (slots (world s) ++ [None])%list)
  | Err e s1 =>
      e = DriverNotFound (getDefaultDriver (world s)) /\ s1 = s /\
      assoc (getDefaultDriver (world s)) _registeredDrivers = None
  end.
Proof.
  apply (configured_service (Val (Str "session")) (Fun (fun _ => Str "app"))
           (Val (Bool false)) (Val (Str "-")) (a_world ∅)
           {| this := a_locker "ns"; world := a_configured_world |}).
  reflexivity.
Defined.

(** The service of the configured provider writes under [app-]. *)
Example configured_service_writes :
  match provider_get {| this := a_locker "ns"; world := a_configured_world |} with
  | Ok l s1 =>
      sessionStorage (world (final (put Json.host (Val (Str "k")) (Val (Num (Int 1))) false
                                      (at_world l (world s1)))))
      = a_storage {[ "app-k" := "1" ]}
  | Err _ _ => False
  end.
Proof. vm_compute. reflexivity. Qed.

Lemma batch_put_stores_undefined_as_text_witness :
  exists s1,
    put Json.host (Val (Obj [("a", Undefined)])) (Val Undefined) false (a_state "ns" ∅)
      = Ok true s1 /\
    driver_items s1 !! _getPrefix (this (a_state "ns" ∅)) (Str "a") = Some "undefined" /\
    get Json.host 1 (Str "a") Undefined false s1 = Ok (Single (Str "undefined")) s1.
Proof.
  apply (batch_put_stores_undefined_as_text Json.host "a" (Val Undefined) Json.SyntaxError
           (a_state "ns" ∅)); reflexivity.
Defined.

Lemma put_event_payload_witness :
  let k := Str "a" in
  let v := Num (Int 2) in
  let s := a_state "ns" {[ "ns.a" := "1" ]} in
  let old := _unserialize Json.host (raw (probe s) k) in
  let stored := encrypt_item Json.host (probe s) false (_serialize Json.host v) in
  let driver := opt_str (_deriveDriver (_driver (this s))) in
  let ns := Str (_namespace (this s)) in
  exists s1,
    put Json.host (Val k) (Val v) false s = Ok true s1 /\
    emitted (world s1) =
      (emitted (world s) ++
       [if negb (inherited (_getPrefix (this s) k)) && negb (equals old stored)
        then {| ev_name := "locker.item.updated";
                ev_payload := [("key", k); ("oldValue", old); ("newValue", stored);
                               ("driver", driver); ("namespace", ns)] |}
        else {| ev_name := "locker.item.added";
                ev_payload := [("key", k); ("value", v); ("driver", driver);
                               ("namespace", ns)] |}])%list.
Proof.
  apply (put_event_payload Json.host (Str "a") (Num (Int 2)) (Str "1") false
           (a_state "ns" {[ "ns.a" := "1" ]})); reflexivity || discriminate.
Defined.

(** The new value of the event is the stored text ["2"], not the number. *)
Example put_event_example :
  emitted (world (final (put Json.host (Val (Str "a")) (Val (Num (Int 2))) false
                           (a_state "ns" {[ "ns.a" := "1" ]}))))
  = [{| ev_name := "locker.item.updated";
        ev_payload := [("key", Str "a"); ("oldValue", Num (Int 1)); ("newValue", Str "2");
                       ("driver", Str "local"); ("namespace", Str "ns")] |}].
Proof. vm_compute. reflexivity. Qed.

Lemma all_without_namespace_witness :
  (forall k, _getPrefix (this a_bare_state) (Str k) = k) /\
  exists m s',
    all Json.host a_bare_state = Ok m s' /\
    (s' = a_bare_state \/ s' = probe a_bare_state) /\
    (forall k, (forall k', k <> String "." k') ->
               own m !! k = (fun r => _unserialize Json.host (Str r)) <$> seen s' k).
Proof.
  exact (all_without_namespace Json.host "."%char a_bare_state eq_refl eq_refl eq_refl).
Defined.

(** The entry [.b] is listed under none of its names. *)
Example all_without_namespace_example :
  returned (all Json.host a_bare_state)
  = Ret {| own := {[ "a" := Num (Int 1) ]}; proto := None |}.
Proof. vm_compute. reflexivity. Qed.

Lemma setCryptoKey_stores_key_witness :
  exists s1,
    setCryptoKey (Str " s3cret ") (a_state "ns" ∅) = Ok tt s1 /\
    cryptoKey_value s1 = Some " s3cret " /\
    (forall l, _cryptoKey l <> _cryptoKey (this (a_state "ns" ∅)) ->
               cryptoKey_value (at_world l (world s1)) =
               cryptoKey_value (at_world l (world (a_state "ns" ∅)))) /\
    storage_view s1 =
      (set_watchers ∅ (this (a_state "ns" ∅)), localStorage (world (a_state "ns" ∅)),
       sessionStorage (world (a_state "ns" ∅)), emitted (world (a_state "ns" ∅)),
       <[_cryptoKey (this (a_state "ns" ∅)) := Some " s3cret "]>
         (slots (world (a_state "ns" ∅)))).
Proof.
  apply (setCryptoKey_stores_key " s3cret " (a_state "ns" ∅)); [reflexivity|].
  cbn. lia.
Defined.

Lemma put_then_pull_restores_witness :
  let s := a_state "ns" {[ "ns.b" := "2" ]} in
  exists s1 s2,
    put Json.host (Val (Str "a")) (Val (Str "x")) false s = Ok true s1 /\
    pull Json.host (Str "a") Undefined false s1 = Ok (Single (Str "x")) s2 /\
    driver_items s2 = driver_items (probe s).
Proof.
  apply (put_then_pull_restores Json.host "a" (Str "x") (a_state "ns" {[ "ns.b" := "2" ]})).
  - discriminate.
  - reflexivity.
  - split; [discriminate|]. eexists. split; reflexivity.
  - reflexivity.
  - reflexivity.
  - reflexivity.
Defined.
